(** * AFFiNE workspace storage engine: a shallow embedding

    The definitions below follow the TypeScript sources of the workspace
    module (engine, flavour providers, transform service), of the nbstore
    cloud blob storage and storage registry, and of the edgeless image
    ingestion helper.  Asynchronous functions are embedded in a state and
    exception monad: an [await] is sequencing, a rejected promise is a
    thrown value.

    Further modules follow the shared intersection observer of the
    component library and the Perplexity copilot provider (citation links,
    requests and streamed responses). *)

From stdpp Require Import base strings pretty list gmap sorting.
From Stdlib Require Import Ascii ZArith QArith Qminmax Lia.
From Stdlib Require OrdersEx.

Close Scope Q_scope.
Open Scope string_scope.
Open Scope list_scope.

(** ** Thrown values, outcomes and the state/exception monad *)

(** What a JavaScript [throw] can carry in the modelled code. *)
Inductive JsThrown : Type :=
| NewError (message : string)                  (* new Error(message) *)
| BlockSuiteError (code : string) (message : string)
| Rejected (reason : string).                  (* thrown by a collaborator *)

(** [String(err)], as used by ['blob download error: ' + err]. *)
Definition thrownToString (e : JsThrown) : string :=
  match e with
  | NewError m => "Error: " +:+ m
  | BlockSuiteError _ m => "BlockSuiteError: " +:+ m
  | Rejected r => r
  end.

Inductive Outcome (A : Type) : Type :=
| Returned (a : A)
| Thrown (e : JsThrown).
Arguments Returned {A} a.
Arguments Thrown {A} e.

Definition isThrown {A} (o : Outcome A) : bool :=
  match o with Thrown _ => true | Returned _ => false end.

(** A computation over a store [S]: the store survives a throw. *)
Definition M (S A : Type) : Type := S -> Outcome A * S.

Definition ret {S A} (a : A) : M S A := fun s => (Returned a, s).
Definition throw {S A} (e : JsThrown) : M S A := fun s => (Thrown e, s).
Definition bind {S A B} (c : M S A) (k : A -> M S B) : M S B :=
  fun s => match c s with
           | (Returned a, s1) => k a s1
           | (Thrown e, s1) => (Thrown e, s1)
           end.
Definition get {S} : M S S := fun s => (Returned s, s).
Definition modify {S} (f : S -> S) : M S unit := fun s => (Returned tt, f s).

Notation "x <- c ;; k" := (bind c (fun x => k))
  (at level 100, c at next level, right associativity).
Notation "c ;; k" := (bind c (fun _ => k))
  (at level 100, right associativity).

(** [try { body } finally { fin }]: [fin] always runs; when it throws, its
    error replaces the outcome of [body]. *)
Definition try_finally {S A} (body : M S A) (fin : M S unit) : M S A :=
  fun s => match body s with
           | (r, s1) => match fin s1 with
                        | (Returned _, s2) => (r, s2)
                        | (Thrown e, s2) => (Thrown e, s2)
                        end
           end.

(** [for (const x of xs) { await f(x) }] *)
Fixpoint for_of {S A} (xs : list A) (f : A -> M S unit) : M S unit :=
  match xs with
  | [] => ret tt
  | x :: rest => f x ;; for_of rest f
  end.

Definition bytes : Type := list Z.

(** ** WorkspaceEngine (entities/engine.ts) *)
Module Engine.

(** The three frontends of a worker client are opaque handles. *)
Record WorkerClient : Type := {
  docFrontend : string;
  blobFrontend : string;
  awarenessFrontend : string
}.

Inductive Disposable : Type :=
| DisposeWorker                 (* the [dispose] returned by openWorker *)
| StopDoc.                      (* () => this.doc.stop() *)

(** Calls that leave the engine object. *)
Inductive Call : Type :=
| EmitBeforeStart
| OpenWorker
| AddPriority (frontend guid : string) (weight : Z)
| AddDoc (frontend guid : string) (isRoot : bool)
| DocStart (frontend : string)
| AwarenessConnect (frontend : string).

Record WorkspaceEngine : Type := {
  worker : option WorkerClient;
  started : bool;
  disposables : list Disposable;
  calls : list (Call * bool)    (* chronological; the flag is "returned" *)
}.

(** The collaborators of an engine: whether a call throws, which client
    [openWorker] hands out, and the guid of the workspace root doc. *)
Record Collaborators : Type := {
  fault : WorkspaceEngine -> Call -> option JsThrown;
  openWorkerClient : WorkspaceEngine -> WorkerClient;
  rootDocGuid : string
}.

Definition setWorker (c : WorkerClient) (e : WorkspaceEngine) :=
  {| worker := Some c; started := started e;
     disposables := disposables e; calls := calls e |}.
Definition setStarted (b : bool) (e : WorkspaceEngine) :=
  {| worker := worker e; started := b;
     disposables := disposables e; calls := calls e |}.
Definition pushDisposable (d : Disposable) (e : WorkspaceEngine) :=
  {| worker := worker e; started := started e;
     disposables := disposables e ++ [d]; calls := calls e |}.
Definition logCall (c : Call) (ok : bool) (e : WorkspaceEngine) :=
  {| worker := worker e; started := started e;
     disposables := disposables e; calls := calls e ++ [(c, ok)] |}.

Definition call (env : Collaborators) (c : Call) : M WorkspaceEngine unit :=
  fun e => match fault env e c with
           | Some err => (Thrown err, logCall c false e)
           | None => (Returned tt, logCall c true e)
           end.

Definition notInitialized : JsThrown := NewError "Engine is not initialized".
Definition alreadyStarted : JsThrown := NewError "Engine is already started".

(** [get doc()], [get blob()], [get awareness()] *)
Definition doc : M WorkspaceEngine string :=
  fun e => match worker e with
           | None => (Thrown notInitialized, e)
           | Some w => (Returned (docFrontend w), e)
           end.
Definition blob : M WorkspaceEngine string :=
  fun e => match worker e with
           | None => (Thrown notInitialized, e)
           | Some w => (Returned (blobFrontend w), e)
           end.
Definition awareness : M WorkspaceEngine string :=
  fun e => match worker e with
           | None => (Thrown notInitialized, e)
           | Some w => (Returned (awarenessFrontend w), e)
           end.

Definition start (env : Collaborators) : M WorkspaceEngine unit :=
  e <- get ;;
  if started e then throw alreadyStarted
  else
    modify (setStarted true) ;;
    call env EmitBeforeStart ;;
    call env OpenWorker ;;
    e1 <- get ;;
    modify (setWorker (openWorkerClient env e1)) ;;
    modify (pushDisposable DisposeWorker) ;;
    d1 <- doc ;;
    call env (AddPriority d1 (rootDocGuid env) 100) ;;
    d2 <- doc ;;
    call env (AddDoc d2 (rootDocGuid env) true) ;;
    d3 <- doc ;;
    call env (DocStart d3) ;;
    modify (pushDisposable StopDoc) ;;
    a <- awareness ;;
    call env (AwarenessConnect a).

(** The fields [worker] and [started] as the class declares them. *)
Definition fresh : WorkspaceEngine :=
  {| worker := None; started := false; disposables := []; calls := [] |}.

(** Field initialisers run when the object is constructed; the last one,
    [rootDocState$ = this.doc.docState$(...)], reads the [doc] accessor of
    the object under construction. *)
Definition construct : Outcome WorkspaceEngine :=
  match (doc fresh).1 with
  | Thrown e => Thrown e
  | Returned _ => Returned fresh
  end.

(** A collaborator set in which nothing throws. *)
Definition calm : Collaborators :=
  {| fault := fun _ _ => None;
     openWorkerClient := fun _ =>
       {| docFrontend := "doc"; blobFrontend := "blob";
          awarenessFrontend := "awareness" |};
     rootDocGuid := "root" |}.

(** A collaborator set whose worker provider throws. *)
Definition brokenProvider : Collaborators :=
  {| fault := fun _ c =>
       match c with OpenWorker => Some (Rejected "worker") | _ => None end;
     openWorkerClient := openWorkerClient calm;
     rootDocGuid := "root" |}.

End Engine.

(** ** Storage registry (nbstore impls/index.ts) *)
Module Registry.

(** The storage classes the file imports; [name] is the JavaScript class
    name, which is what [acc[curr.name] = curr] keys the table by. *)
Inductive StorageConstructor : Type :=
| IndexedDBDocStorage
| IndexedDBBlobStorage
| IndexedDBSyncStorage
| BroadcastChannelAwarenessStorage
| IndexedDBV1DocStorage
| IndexedDBV1BlobStorage
| CloudDocStorage
| CloudBlobStorage
| CloudAwarenessStorage.

Definition name (c : StorageConstructor) : string :=
  match c with
  | IndexedDBDocStorage => "IndexedDBDocStorage"
  | IndexedDBBlobStorage => "IndexedDBBlobStorage"
  | IndexedDBSyncStorage => "IndexedDBSyncStorage"
  | BroadcastChannelAwarenessStorage => "BroadcastChannelAwarenessStorage"
  | IndexedDBV1DocStorage => "IndexedDBV1DocStorage"
  | IndexedDBV1BlobStorage => "IndexedDBV1BlobStorage"
  | CloudDocStorage => "CloudDocStorage"
  | CloudBlobStorage => "CloudBlobStorage"
  | CloudAwarenessStorage => "CloudAwarenessStorage"
  end.

Definition idb : list StorageConstructor :=
  [IndexedDBDocStorage; IndexedDBBlobStorage; IndexedDBSyncStorage;
   BroadcastChannelAwarenessStorage].
Definition idbv1 : list StorageConstructor :=
  [IndexedDBV1DocStorage; IndexedDBV1BlobStorage].
Definition cloud : list StorageConstructor :=
  [CloudDocStorage; CloudBlobStorage; CloudAwarenessStorage].
Definition storages : list StorageConstructor := cloud ++ idbv1 ++ idb.

(** [storages.reduce((acc, curr) => { acc[curr.name] = curr; return acc }, {})] *)
Definition AvailableStorageImplementations : gmap string StorageConstructor :=
  foldl (fun acc curr => <[name curr := curr]> acc) ∅ storages.

(** The accumulator is an ordinary object literal, so a key it does not own
    is looked up on [Object.prototype]. *)
Definition objectPrototypeKeys : list string :=
  ["constructor"; "__defineGetter__"; "__defineSetter__"; "hasOwnProperty";
   "__lookupGetter__"; "__lookupSetter__"; "isPrototypeOf";
   "propertyIsEnumerable"; "toString"; "valueOf"; "__proto__";
   "toLocaleString"].

(** What a property read on the table evaluates to. *)
Inductive Resolved : Type :=
| Implementation (c : StorageConstructor)
| Inherited (key : string)          (* a member of Object.prototype *)
| Undefined.

(** [AvailableStorageImplementations[name]]: the function has no other
    statement, in particular no [throw]. *)
Definition getAvailableStorageImplementations (n : string)
    : Outcome Resolved :=
  Returned
    match AvailableStorageImplementations !! n with
    | Some c => Implementation c
    | None => if bool_decide (n ∈ objectPrototypeKeys)
              then Inherited n else Undefined
    end.

Definition registered (n : string) : Prop :=
  exists c, c ∈ storages /\ name c = n.

End Registry.

(** ** Cloud blob storage (nbstore impls/cloud/blob.ts) *)

Record BlobRecord : Type := {
  key : string;
  data : bytes;
  mime : string;
  size : option Z;
  createdAt : option (string + Z)   (* new Date(header) or new Date(millis) *)
}.

Module CloudBlob.

(** A [Blob] read from a response body. *)
Record Blob : Type := {
  arrayBuffer : Outcome bytes;      (* await blob.arrayBuffer() *)
  type : string;
  blobSize : Z
}.

Record Response : Type := {
  status : Z;
  lastModified : option string;     (* res.headers.get('last-modified') *)
  blob : Outcome Blob               (* await res.blob() *)
}.

(** [HttpConnection.fetch] and the clock are collaborators. *)
Record Connection : Type := {
  fetch : string -> Outcome Response;
  now : Z
}.

(** [header || Date.now()]: an absent or empty header is falsy. *)
Definition headerOrNow (h : option string) (millis : Z) : string + Z :=
  match h with
  | Some s => if bool_decide (s = "") then inr millis else inl s
  | None => inr millis
  end.

Definition get (conn : Connection) (spaceId : string) (k : string)
    : Outcome (option BlobRecord) :=
  match fetch conn ("/api/workspaces/" +:+ spaceId +:+ "/blobs/" +:+ k) with
  | Thrown e => Thrown e
  | Returned res =>
      if bool_decide (status res = 404%Z) then Returned None
      else
        match blob res with
        | Thrown err =>
            Thrown (NewError ("blob download error: " +:+ thrownToString err))
        | Returned b =>
            match arrayBuffer b with
            | Thrown err =>
                Thrown (NewError
                          ("blob download error: " +:+ thrownToString err))
            | Returned buf =>
                Returned (Some {| key := k; data := buf; mime := type b;
                                  size := Some (blobSize b);
                                  createdAt :=
                                    Some (headerOrNow (lastModified res)
                                            (now conn)) |})
            end
        end
  end.

(** A server that answers 404 for every blob. *)
Definition emptyBucket : Connection :=
  {| fetch := fun _ =>
       Returned {| status := 404; lastModified := None;
                   blob := Thrown (Rejected "no body") |};
     now := 0 |}.

End CloudBlob.

(** ** Image ingestion on the edgeless surface (edgeless/utils/common.ts) *)
Module Images.

Record File : Type := {
  fileName : string;
  fileType : string;                (* file.type *)
  fileSize : Z                      (* file.size, in bytes *)
}.

Record ImageSize : Type := { imgWidth : Q; imgHeight : Q }.

(** The props of an 'affine:image' block as this function writes them. *)
Record ImageBlock : Type := {
  blockId : string;
  blockFileSize : Z;
  xywh : string;
  index : string;
  sourceId : option string;
  width : option Q;
  height : option Q
}.

(** The part of [std] that [addImages] reads and writes. *)
Record Std : Type := {
  imageService : option Z;          (* its maxFileSize, when registered *)
  viewportCenter : Q * Q;
  blocks : list ImageBlock;
  toasts : list string;
  consoleErrors : list string;
  selection : list string * bool;   (* elements, editing *)
  commands : list string
}.

(** Helpers imported from other packages. *)
Record Helpers : Type := {
  humanFileSize : Z -> bool -> Z -> string;
  toModelCoord : Q * Q -> Q * Q;
  calcBoundByOrigin : Q * Q -> bool -> option (Q * Q) -> string;
  generateIndex : Std -> string;
  newBlockId : Std -> string;
  blobSyncSet : File -> Outcome string;
  readImageSize : File -> Outcome ImageSize
}.

Record Options : Type := { point : option (Q * Q); maxWidth : option Q }.

Definition IMAGE_STACK_GAP : Q := 32%Q.

Definition withBlocks (bs : list ImageBlock) (s : Std) : Std :=
  {| imageService := imageService s; viewportCenter := viewportCenter s;
     blocks := bs; toasts := toasts s; consoleErrors := consoleErrors s;
     selection := selection s; commands := commands s |}.
Definition toast (msg : string) (s : Std) : Std :=
  {| imageService := imageService s; viewportCenter := viewportCenter s;
     blocks := blocks s; toasts := toasts s ++ [msg];
     consoleErrors := consoleErrors s;
     selection := selection s; commands := commands s |}.
Definition consoleError (msg : string) (s : Std) : Std :=
  {| imageService := imageService s; viewportCenter := viewportCenter s;
     blocks := blocks s; toasts := toasts s;
     consoleErrors := consoleErrors s ++ [msg];
     selection := selection s; commands := commands s |}.
Definition select (ids : list string) (s : Std) : Std :=
  {| imageService := imageService s; viewportCenter := viewportCenter s;
     blocks := blocks s; toasts := toasts s;
     consoleErrors := consoleErrors s;
     selection := (ids, false); commands := commands s |}.
Definition exec (cmd : string) (s : Std) : Std :=
  {| imageService := imageService s; viewportCenter := viewportCenter s;
     blocks := blocks s; toasts := toasts s;
     consoleErrors := consoleErrors s;
     selection := selection s; commands := commands s ++ [cmd] |}.

Definition indexQ (i : nat) : Q := inject_Z (Z.of_nat i).

(** First [forEach]: one image card per file, stacked by 32 units. *)
Fixpoint createCards (h : Helpers) (x y : Q) (inTopLeft : bool)
    (i : nat) (files : list File) (s : Std)
    : list ((Q * Q) * string) * Std :=
  match files with
  | [] => ([], s)
  | file :: rest =>
      let p := (x + indexQ i * IMAGE_STACK_GAP,
                y + indexQ i * IMAGE_STACK_GAP)%Q in
      let bid := newBlockId h s in
      let block := {| blockId := bid; blockFileSize := fileSize file;
                      xywh := calcBoundByOrigin h p inTopLeft None;
                      index := generateIndex h s;
                      sourceId := None; width := None; height := None |} in
      let '(infos, s') :=
        createCards h x y inTopLeft (S i) rest
          (withBlocks (blocks s ++ [block]) s) in
      ((p, bid) :: infos, s')
  end.

(** [gfx.updateElement(blockId, props)] *)
Definition updateElement (bid : string) (src : string) (w hgt : Q)
    (bound : string) (s : Std) : Std :=
  withBlocks
    (map (fun b => if bool_decide (blockId b = bid)
                   then {| blockId := blockId b;
                           blockFileSize := blockFileSize b;
                           xywh := bound; index := index b;
                           sourceId := Some src;
                           width := Some w; height := Some hgt |}
                   else b) (blocks s)) s.

(** [maxWidth ? ... : ...]: an absent or zero [maxWidth] is falsy. *)
Definition truthyWidth (m : option Q) : option Q :=
  match m with
  | Some q => if Qeq_bool q 0%Q then None else Some q
  | None => None
  end.

(** One of the upload promises. *)
Definition upload (h : Helpers) (inTopLeft : bool) (mw : option Q)
    (file : File) (info : (Q * Q) * string) : M Std unit :=
  fun s =>
    match blobSyncSet h file with
    | Thrown e => (Thrown e, s)
    | Returned src =>
        match readImageSize h file with
        | Thrown e => (Thrown e, s)
        | Returned sz =>
            let w := match truthyWidth mw with
                     | Some m => Qmin (imgWidth sz) m
                     | None => imgWidth sz
                     end in
            let hg := match truthyWidth mw with
                      | Some _ => ((imgHeight sz / imgWidth sz) * w)%Q
                      | None => imgHeight sz
                      end in
            let bound := calcBoundByOrigin h (fst info) inTopLeft
                           (Some (w, hg)) in
            (Returned tt, updateElement (snd info) src w hg bound s)
        end
    end.

(** [await Promise.all(uploadPromises)]: every upload runs; the call
    rejects with a rejection of one of them (here: the first by index). *)
Fixpoint uploadAll (h : Helpers) (inTopLeft : bool) (mw : option Q)
    (work : list (File * ((Q * Q) * string))) : M Std unit :=
  match work with
  | [] => ret tt
  | (file, info) :: rest =>
      fun s =>
        match upload h inTopLeft mw file info s with
        | (Returned _, s1) => uploadAll h inTopLeft mw rest s1
        | (Thrown e, s1) =>
            (Thrown e, snd (uploadAll h inTopLeft mw rest s1))
        end
  end.

Definition isImage (f : File) : bool := String.prefix "image/" (fileType f).

Definition addImages (h : Helpers) (files : list File) (options : Options)
    : M Std (list string) :=
  fun std =>
    let imageFiles := filter (fun f => isImage f = true) files in
    match imageFiles with
    | [] => (Returned [], std)
    | _ =>
      match imageService std with
      | None => (Returned [], consoleError "Image service not found" std)
      | Some maxFileSize =>
        if existsb (fun f => (maxFileSize <? fileSize f)%Z) imageFiles
        then
          (Returned [],
           toast ("You can only upload files less than "
                    +:+ humanFileSize h maxFileSize true 0) std)
        else
          let '(x, y) := match point options with
                         | Some p => toModelCoord h p
                         | None => viewportCenter std
                         end in
          let isMultipleFiles := bool_decide (1 < length imageFiles) in
          let inTopLeft := isMultipleFiles in
          let '(dropInfos, s1) :=
            createCards h x y inTopLeft 0 imageFiles std in
          match uploadAll h inTopLeft (maxWidth options)
                  (zip imageFiles dropInfos) s1 with
          | (Thrown e, s2) => (Thrown e, s2)
          | (Returned _, s2) =>
              let blockIds := map snd dropInfos in
              let s3 := select blockIds s2 in
              (Returned blockIds,
               if isMultipleFiles then exec "autoResizeElements" s3 else s3)
          end
      end
    end.

(** A fixed set of helpers and a small surface, for concrete runs. *)
Definition plainHelpers : Helpers :=
  {| humanFileSize := fun n _ _ => "10 MB";
     toModelCoord := fun p => p;
     calcBoundByOrigin := fun _ _ _ => "[0,0,0,0]";
     generateIndex := fun s => "a" +:+ pretty (length (blocks s));
     newBlockId := fun s => "block-" +:+ pretty (length (blocks s));
     blobSyncSet := fun f => Returned ("blob:" +:+ fileName f);
     readImageSize := fun _ => Returned {| imgWidth := 4%Q; imgHeight := 3%Q |} |}.

Definition emptySurface : Std :=
  {| imageService := Some 50%Z; viewportCenter := (0, 0)%Q; blocks := [];
     toasts := []; consoleErrors := []; selection := ([], false);
     commands := [] |}.

Definition smallPng : File :=
  {| fileName := "small.png"; fileType := "image/png"; fileSize := 10 |}.
Definition bigPng : File :=
  {| fileName := "big.png"; fileType := "image/png"; fileSize := 100 |}.

End Images.

(** ** Workspace metadata (shared by the flavour providers) *)

Record WorkspaceMetadata : Type := {
  id : string;
  flavour : string;
  initialized : option bool         (* only the cloud list fills it in *)
}.

#[global] Instance WorkspaceMetadata_eq_dec : EqDecision WorkspaceMetadata.
Proof. solve_decision. Defined.

(** ** Cloud revalidation (the [revalidate] effect of the cloud provider) *)
Module Revalidation.

Definition getCloudWorkspaceCacheKey (serverId : string) : string :=
  if bool_decide (serverId = "affine-cloud")
  then "cloud-workspace:"
  else "selfhosted-workspace-" +:+ serverId +:+ ":".

(** The provider fields the effect touches.  [emitted] records every value
    passed to [workspaces$.next], oldest first. *)
Record Provider : Type := {
  serverId : string;
  workspaces : list WorkspaceMetadata;          (* workspaces$.value *)
  emitted : list (list WorkspaceMetadata);
  globalState : gmap string (list WorkspaceMetadata);
  error : option JsThrown;                      (* error$ *)
  isRevalidating : bool                         (* isRevalidating$ *)
}.

(** A row of [getWorkspacesQuery]. *)
Record RemoteWorkspace : Type := {
  remoteId : string;
  remoteInitialized : bool
}.

Definition next (v : list WorkspaceMetadata) (p : Provider) : Provider :=
  {| serverId := serverId p; workspaces := v; emitted := emitted p ++ [v];
     globalState := globalState p; error := error p;
     isRevalidating := isRevalidating p |}.
Definition globalStateSet (k : string) (v : list WorkspaceMetadata)
    (p : Provider) : Provider :=
  {| serverId := serverId p; workspaces := workspaces p;
     emitted := emitted p; globalState := <[k := v]> (globalState p);
     error := error p; isRevalidating := isRevalidating p |}.
Definition setError (e : JsThrown) (p : Provider) : Provider :=
  {| serverId := serverId p; workspaces := workspaces p;
     emitted := emitted p; globalState := globalState p;
     error := Some e; isRevalidating := isRevalidating p |}.
Definition setRevalidating (b : bool) (p : Provider) : Provider :=
  {| serverId := serverId p; workspaces := workspaces p;
     emitted := emitted p; globalState := globalState p;
     error := error p; isRevalidating := b |}.

Section Sorting.
(** [String.prototype.localeCompare] depends on the host's collation. *)
Context (localeCompare : string -> string -> Z).

(** [workspaces.sort((a, b) => a.id.localeCompare(b.id))].  The built-in
    sort is stable, so for a consistent comparator its result is the one
    of this stable insertion sort. *)
Definition notAfter (x y : WorkspaceMetadata) : Prop :=
  (localeCompare (id x) (id y) <= 0)%Z.

Fixpoint insertById (x : WorkspaceMetadata) (l : list WorkspaceMetadata)
    : list WorkspaceMetadata :=
  match l with
  | [] => [x]
  | y :: rest =>
      if (localeCompare (id x) (id y) <=? 0)%Z
      then x :: y :: rest
      else y :: insertById x rest
  end.

Fixpoint sortById (l : list WorkspaceMetadata) : list WorkspaceMetadata :=
  match l with
  | [] => []
  | x :: rest => insertById x (sortById rest)
  end.

(** The body given to [fromPromise]: no account, no request. *)
Definition fetchWorkspaces (server : string)
    (gql : Outcome (list RemoteWorkspace)) (accountId : option string)
    : Outcome (option (string * list WorkspaceMetadata)) :=
  match accountId with
  | None => Returned None
  | Some a =>
      if bool_decide (a = "") then Returned None
      else
        match gql with
        | Thrown e => Thrown e
        | Returned rows =>
            Returned
              (Some (a, map (fun r => {| id := remoteId r;
                                         flavour := server;
                                         initialized :=
                                           Some (remoteInitialized r) |})
                          rows))
        end
  end.

(** The [mergeMap] callback. *)
Definition commit (data : option (string * list WorkspaceMetadata))
    (p : Provider) : Provider :=
  match data with
  | Some (accountId, fetched) =>
      let sorted := sortById fetched in
      let p1 := globalStateSet
                  (getCloudWorkspaceCacheKey (serverId p) +:+ accountId)
                  sorted p in
      if bool_decide (workspaces p1 = sorted) then p1 else next sorted p1
  | None => next [] p
  end.

(** One pass of the inner pipeline: [onStart], the fetch, [mergeMap],
    [catchErrorInto(this.error$)], [onComplete]. *)
Definition refresh (gql : Outcome (list RemoteWorkspace))
    (accountId : option string) (p : Provider) : Provider :=
  let p0 := setRevalidating true p in
  let p1 := match fetchWorkspaces (serverId p) gql accountId with
            | Returned data => commit data p0
            | Thrown e => setError e p0
            end in
  setRevalidating false p1.

End Sorting.

(** The callback run when the account changes: show the cached list. *)
Definition onAccountChanged (accountId : option string) (p : Provider)
    : Provider :=
  match accountId with
  | Some a =>
      if bool_decide (a = "") then next [] p
      else next (default []
                   (globalState p
                      !! (getCloudWorkspaceCacheKey (serverId p) +:+ a))) p
  | None => next [] p
  end.

(** Comparison by code units, one consistent comparator. *)
Definition codeUnitCompare (a b : string) : Z :=
  match OrdersEx.String_as_OT.compare a b with
  | Lt => (-1)%Z
  | Eq => 0%Z
  | Gt => 1%Z
  end.

Definition twoRows : list RemoteWorkspace :=
  [ {| remoteId := "w-b"; remoteInitialized := true |};
    {| remoteId := "w-a"; remoteInitialized := false |} ].

Definition loggedOut : Provider :=
  {| serverId := "affine-cloud"; workspaces := []; emitted := [];
     globalState := ∅; error := None; isRevalidating := false |}.

End Revalidation.

(** ** Flavour providers, factory and transform service *)
Module Workspace.

Record DocRecord : Type := { docId : string; bin : bytes }.

(** An IndexedDB storage is identified by its options [{ peer, id }]
    (the [type] is always 'workspace' here). *)
Definition StorageId : Type := string * string.

(** The flavour providers known to the flavours service. *)
Inductive Provider : Type :=
| LocalProvider
| CloudProvider (serverId : string).

Definition providerFlavour (p : Provider) : string :=
  match p with
  | LocalProvider => "local"
  | CloudProvider serverId => serverId
  end.

(** [peerId = 'local'] resp. [peerId = this.flavour]. *)
Definition peerId (p : Provider) : string := providerFlavour p.

(** The value kept under a localStorage key, as [JSON.parse] sees it. *)
Inductive StoredItem : Type :=
| JsonIds (ids : list string)       (* a JSON array of strings *)
| Unparsable (raw : string).        (* JSON.parse throws on it *)

(** Every call that leaves the provider or the transform service. *)
Inductive Op : Type :=
| Nanoid
| GqlCreateWorkspace (serverId : string)
| LocalGetDoc (guid : string)
| ApplyUpdate (collection guid : string) (update : bytes)
| TransformDB (localId newId accountId : string)
| LocalBlobList
| LocalBlobGet (blobKey : string)
| IdbBlobSet (storage : StorageId) (blobKey : string)
| IdbPushDocUpdate (storage : StorageId) (guid : string)
| LocalStorageSetItem (itemKey : string)
| PostMessage (message : option string)
| Revalidate (serverId : string)
| WaitForLoaded (serverId : string)
| DisposeCollection (collection : string)
| DestroyDeleteWorkspace (meta : WorkspaceMetadata).

Record World : Type := {
  trace : list (Op * bool);         (* chronological; the flag is "returned" *)
  localStorage : gmap string StoredItem;
  idbDocs : gmap (string * string * string) (list bytes);
  idbBlobs : gmap (string * string * string) BlobRecord;
  ydocs : gmap (string * string) (list bytes);
                                    (* updates applied to each in-memory doc,
                                       by collection id and guid *)
  flavours : list Provider          (* flavoursService.flavours$.value *)
}.

(** The collaborators: which call throws in which world, and what the
    calls that return a value return.  [subdocGuids] and
    [encodeStateAsUpdate] stand for the CRDT runtime: the subdocuments a
    doc has, and its encoded state, after a list of applied updates. *)
Record Env : Type := {
  fault : World -> Op -> option JsThrown;
  nanoid : World -> string;
  createdWorkspaceId : World -> string;
  localDoc : World -> string -> option DocRecord;
  localBlobKeys : World -> list string;
  localBlob : World -> string -> option BlobRecord;
  subdocGuids : list bytes -> list string;
  encodeStateAsUpdate : list bytes -> bytes
}.

Definition logEvent (op : Op) (ok : bool) (w : World) : World :=
  {| trace := trace w ++ [(op, ok)]; localStorage := localStorage w;
     idbDocs := idbDocs w; idbBlobs := idbBlobs w; ydocs := ydocs w;
     flavours := flavours w |}.

(** An awaited call on a collaborator. *)
Definition request {A} (env : Env) (op : Op) (value : World -> A)
    : M World A :=
  fun w => match fault env w op with
           | Some e => (Thrown e, logEvent op false w)
           | None => (Returned (value w), logEvent op true w)
           end.

Definition LOCAL_WORKSPACE_LOCAL_STORAGE_KEY : string :=
  "affine-local-workspace".

(** [JSON.parse(localStorage.getItem(KEY) ?? '[]')] inside try/catch *)
Definition getLocalWorkspaceIds (w : World) : list string :=
  match localStorage w !! LOCAL_WORKSPACE_LOCAL_STORAGE_KEY with
  | Some (JsonIds ids) => ids
  | Some (Unparsable _) => []
  | None => []
  end.

Definition setLocalWorkspaceIds (env : Env)
    (updater : list string -> list string) : M World unit :=
  w <- get ;;
  let ids := updater (getLocalWorkspaceIds w) in
  request env (LocalStorageSetItem LOCAL_WORKSPACE_LOCAL_STORAGE_KEY)
    (fun _ => tt) ;;
  modify (fun w =>
    {| trace := trace w;
       localStorage :=
         <[LOCAL_WORKSPACE_LOCAL_STORAGE_KEY := JsonIds ids]> (localStorage w);
       idbDocs := idbDocs w; idbBlobs := idbBlobs w; ydocs := ydocs w;
       flavours := flavours w |}).

Definition docUpdates (w : World) (collection guid : string) : list bytes :=
  default [] (ydocs w !! (collection, guid)).

(** [applyUpdate(doc, bin)] of yjs *)
Definition applyUpdate (env : Env) (collection guid : string) (u : bytes)
    : M World unit :=
  request env (ApplyUpdate collection guid u) (fun _ => tt) ;;
  modify (fun w =>
    {| trace := trace w; localStorage := localStorage w;
       idbDocs := idbDocs w; idbBlobs := idbBlobs w;
       ydocs := <[(collection, guid) := docUpdates w collection guid ++ [u]]>
                  (ydocs w);
       flavours := flavours w |}).

(** Modelled from the spec: [IndexedDBDocStorage.pushDocUpdate] (the class
    is not part of the sources) appends the update to the document's log
    and never overwrites prior state. *)
Definition pushDocUpdate (env : Env) (st : StorageId) (r : DocRecord)
    : M World unit :=
  request env (IdbPushDocUpdate st (docId r)) (fun _ => tt) ;;
  modify (fun w =>
    {| trace := trace w; localStorage := localStorage w;
       idbDocs :=
         <[(st.1, st.2, docId r) :=
             default [] (idbDocs w !! (st.1, st.2, docId r)) ++ [bin r]]>
           (idbDocs w);
       idbBlobs := idbBlobs w; ydocs := ydocs w; flavours := flavours w |}).

(** Modelled from the spec: [IndexedDBBlobStorage.set] (the class is not
    part of the sources) stores the record under its key. *)
Definition blobSet (env : Env) (st : StorageId) (r : BlobRecord)
    : M World unit :=
  request env (IdbBlobSet st (key r)) (fun _ => tt) ;;
  modify (fun w =>
    {| trace := trace w; localStorage := localStorage w;
       idbDocs := idbDocs w;
       idbBlobs := <[(st.1, st.2, key r) := r]> (idbBlobs w);
       ydocs := ydocs w; flavours := flavours w |}).

(** The callback type of [createWorkspace]:
    [(docCollection, blobStorage, docStorage) => Promise<void>]. *)
Definition Initializer : Type :=
  string -> StorageId -> StorageId -> M World unit.

(** "save workspace to local storage": the root doc, then every subdoc. *)
Definition saveCollection (env : Env) (collection : string)
    (docStorage : StorageId) : M World unit :=
  w <- get ;;
  pushDocUpdate env docStorage
    {| docId := collection;
       bin := encodeStateAsUpdate env (docUpdates w collection collection) |} ;;
  w1 <- get ;;
  for_of (subdocGuids env (docUpdates w1 collection collection))
    (fun guid =>
       w2 <- get ;;
       pushDocUpdate env docStorage
         {| docId := guid;
            bin := encodeStateAsUpdate env (docUpdates w2 collection guid) |}).

(** [LocalWorkspaceFlavourProvider.createWorkspace] *)
Definition createLocalWorkspace (env : Env) (initial : Initializer)
    : M World WorkspaceMetadata :=
  newId <- request env Nanoid (nanoid env) ;;
  let docStorage := ("local", newId) in
  let blobStorage := ("local", newId) in
  try_finally
    (initial newId blobStorage docStorage ;;
     saveCollection env newId docStorage ;;
     setLocalWorkspaceIds env (fun ids => ids ++ [newId]) ;;
     request env (PostMessage (Some newId)) (fun _ => tt))
    (request env (DisposeCollection newId) (fun _ => tt)) ;;
  ret {| id := newId; flavour := "local"; initialized := None |}.

(** [CloudWorkspaceFlavourProvider.createWorkspace] *)
Definition createCloudWorkspace (env : Env) (serverId : string)
    (initial : Initializer) : M World WorkspaceMetadata :=
  workspaceId <- request env (GqlCreateWorkspace serverId)
                   (createdWorkspaceId env) ;;
  let blobStorage := (serverId, workspaceId) in
  let docStorage := (serverId, workspaceId) in
  try_finally
    (initial workspaceId blobStorage docStorage ;;
     saveCollection env workspaceId docStorage ;;
     request env (Revalidate serverId) (fun _ => tt) ;;
     request env (WaitForLoaded serverId) (fun _ => tt))
    (request env (DisposeCollection workspaceId) (fun _ => tt)) ;;
  ret {| id := workspaceId; flavour := serverId; initialized := None |}.

Definition createWorkspace (env : Env) (p : Provider)
    (initial : Initializer) : M World WorkspaceMetadata :=
  match p with
  | LocalProvider => createLocalWorkspace env initial
  | CloudProvider serverId => createCloudWorkspace env serverId initial
  end.

(** What either [createWorkspace] does between the initializer and the
    [finally] block. *)
Definition afterSeed (env : Env) (p : Provider) (cid : string)
    : M World unit :=
  match p with
  | LocalProvider =>
      saveCollection env cid ("local", cid) ;;
      setLocalWorkspaceIds env (fun ids => ids ++ [cid]) ;;
      request env (PostMessage (Some cid)) (fun _ => tt)
  | CloudProvider serverId =>
      saveCollection env cid (serverId, cid) ;;
      request env (Revalidate serverId) (fun _ => tt) ;;
      request env (WaitForLoaded serverId) (fun _ => tt)
  end.

(** The first statement of either [createWorkspace]: obtaining the id. *)
Definition allocateId (env : Env) (p : Provider) : M World string :=
  match p with
  | LocalProvider => request env Nanoid (nanoid env)
  | CloudProvider serverId =>
      request env (GqlCreateWorkspace serverId) (createdWorkspaceId env)
  end.

(** [WorkspaceFactoryService.create] *)
Definition create (env : Env) (flavour : string) (initial : Initializer)
    : M World WorkspaceMetadata :=
  w <- get ;;
  match find (fun p => bool_decide (providerFlavour p = flavour))
          (flavours w) with
  | Some provider => createWorkspace env provider initial
  | None => throw (NewError ("Unknown workspace flavour: " +:+ flavour))
  end.

(** The [Workspace] entity, as far as the transform service reads it. *)
Record Workspace : Type := {
  wsId : string;
  wsFlavour : string;
  wsMeta : WorkspaceMetadata;
  wsEngine : Engine.WorkspaceEngine;
  wsRootGuid : string               (* local.docCollection.doc.guid *)
}.

(** Reading an accessor of the (unchanging) engine of a workspace. *)
Definition engineAccessor {A} (acc : M Engine.WorkspaceEngine A)
    (e : Engine.WorkspaceEngine) : M World A :=
  fun w => (fst (acc e), w).

(** Modelled from the spec: [assertEquals] of the blocksuite utilities (not
    part of the sources) fails with a precondition error when its two
    arguments differ. *)
Definition assertEquals (val expected : string) : M World unit :=
  if bool_decide (val = expected) then ret tt
  else throw (BlockSuiteError "ValueNotEqual" "val is not same as expected").

(** The body of one iteration of the two copy loops. *)
Definition copyDoc (env : Env) (collection guid : string) : M World unit :=
  record <- request env (LocalGetDoc guid) (fun w => localDoc env w guid) ;;
  match record with
  | Some r => applyUpdate env collection guid (bin r)
  | None => ret tt
  end.

Definition copyBlob (env : Env) (blobStorage : StorageId) (k : string)
    : M World unit :=
  record <- request env (LocalBlobGet k) (fun w => localBlob env w k) ;;
  match record with
  | Some r => blobSet env blobStorage r
  | None => ret tt
  end.

(** The first step of the initializer: the local root doc is applied to
    the root doc of the new collection (whose guid is the collection id). *)
Definition copyRoot (env : Env) (local : Workspace) (collection : string)
    : M World unit :=
  root <- request env (LocalGetDoc (wsRootGuid local))
            (fun w => localDoc env w (wsRootGuid local)) ;;
  match root with
  | Some r => applyUpdate env collection collection (bin r)
  | None => ret tt
  end.

(** The initializer that [transformLocalToCloud] passes to the factory. *)
Definition seed (env : Env) (local : Workspace) (accountId : string)
    : Initializer :=
  fun docCollection blobStorage docStorage =>
    copyRoot env local docCollection ;;
    w <- get ;;
    for_of (subdocGuids env (docUpdates w docCollection docCollection))
      (copyDoc env docCollection) ;;
    request env (TransformDB (wsId local) docCollection accountId)
      (fun _ => tt) ;;
    engineAccessor Engine.blob (wsEngine local) ;;
    blobList <- request env LocalBlobList (localBlobKeys env) ;;
    for_of blobList (copyBlob env blobStorage).

(** [WorkspaceTransformService.transformLocalToCloud] *)
Definition transformLocalToCloud (env : Env) (local : Workspace)
    (accountId flavour : string) : M World WorkspaceMetadata :=
  assertEquals (wsFlavour local) "local" ;;
  engineAccessor Engine.doc (wsEngine local) ;;
  newMetadata <- create env flavour (seed env local accountId) ;;
  request env (DestroyDeleteWorkspace (wsMeta local)) (fun _ => tt) ;;
  ret newMetadata.

(** Trace vocabulary. *)
Definition isDelete (op : Op) : Prop :=
  match op with DestroyDeleteWorkspace _ => True | _ => False end.

(** The events a run added to the trace. *)
Definition added (before after : World) : list (Op * bool) :=
  drop (length (trace before)) (trace after).

Definition deleteInvoked (events : list (Op * bool)) : Prop :=
  exists m ok, (DestroyDeleteWorkspace m, ok) ∈ events.

(** A computation is tracked when it only appends to the trace, never
    asks for a workspace deletion and, if it returns, made only calls that
    returned. *)
Definition Tracked {A} (c : M World A) : Prop :=
  forall w, exists new,
    trace (c w).2 = trace w ++ new /\
    Forall (fun ev => ~ isDelete ev.1) new /\
    (isThrown (c w).1 = false -> Forall (fun ev => ev.2 = true) new).

Definition Succeeds {A} (c : M World A) : Prop :=
  forall w, exists a, (c w).1 = Returned a.

(** *** A concrete scenario *)

Definition emptyWorld : World :=
  {| trace := []; localStorage := ∅; idbDocs := ∅; idbBlobs := ∅;
     ydocs := ∅; flavours := [LocalProvider; CloudProvider "affine-cloud"] |}.

Definition pngBlob : BlobRecord :=
  {| key := "b1"; data := [1; 2; 3]%Z; mime := "image/png";
     size := None; createdAt := None |}.

(** Nothing throws.  The local workspace W1 has a root doc, a subdocument
    S1 whose bytes are missing, the blob b1 and a listed blob b2 whose
    record is missing. *)
Definition calm : Env :=
  {| fault := fun _ _ => None;
     nanoid := fun w => "local-" +:+ pretty (length (trace w));
     createdWorkspaceId := fun w => "cloud-" +:+ pretty (length (trace w));
     localDoc := fun _ guid =>
       if bool_decide (guid = "W1")
       then Some {| docId := "W1"; bin := [7]%Z |} else None;
     localBlobKeys := fun _ => ["b1"; "b2"];
     localBlob := fun _ k =>
       if bool_decide (k = "b1") then Some pngBlob else None;
     subdocGuids := fun updates =>
       match updates with [] => [] | _ => ["S1"] end;
     encodeStateAsUpdate := fun updates => concat updates |}.

(** As [calm], but writing a blob into IndexedDB fails. *)
Definition quotaExceeded : Env :=
  {| fault := fun _ op =>
       match op with
       | IdbBlobSet _ _ => Some (Rejected "QuotaExceededError")
       | _ => None
       end;
     nanoid := nanoid calm; createdWorkspaceId := createdWorkspaceId calm;
     localDoc := localDoc calm; localBlobKeys := localBlobKeys calm;
     localBlob := localBlob calm; subdocGuids := subdocGuids calm;
     encodeStateAsUpdate := encodeStateAsUpdate calm |}.

Definition W1 : Workspace :=
  {| wsId := "W1"; wsFlavour := "local";
     wsMeta := {| id := "W1"; flavour := "local"; initialized := None |};
     wsEngine := snd (Engine.start Engine.calm Engine.fresh);
     wsRootGuid := "W1" |}.

(** A cloud workspace handed to the transform by mistake. *)
Definition cloudOrigin : Workspace :=
  {| wsId := "C1"; wsFlavour := "affine-cloud";
     wsMeta := {| id := "C1"; flavour := "affine-cloud";
                  initialized := Some true |};
     wsEngine := snd (Engine.start Engine.calm Engine.fresh);
     wsRootGuid := "C1" |}.

(** An initializer that stores one blob and then fails. *)
Definition storeThenFail : Initializer :=
  fun _ blobStorage _ =>
    blobSet calm blobStorage pngBlob ;; throw (NewError "seed failed").

End Workspace.

(** ** Further concrete data *)
Module Samples.

(** The rows of [Revalidation.twoRows] in the opposite order. *)
Definition twoRowsReversed : list Revalidation.RemoteWorkspace :=
  [ {| Revalidation.remoteId := "w-a";
       Revalidation.remoteInitialized := false |};
    {| Revalidation.remoteId := "w-b";
       Revalidation.remoteInitialized := true |} ].

(** The parts of the surface that neither image cards nor uploads
    touch. *)
Definition sameChrome (s s' : Images.Std) : Prop :=
  Images.imageService s' = Images.imageService s /\
  Images.viewportCenter s' = Images.viewportCenter s /\
  Images.toasts s' = Images.toasts s /\
  Images.consoleErrors s' = Images.consoleErrors s /\
  Images.selection s' = Images.selection s /\
  Images.commands s' = Images.commands s.

(** The default initializer of the factory: [() => Promise.resolve()]. *)
Definition noSeed : Workspace.Initializer := fun _ _ _ => ret tt.

End Samples.

(** ** More of the flavour providers *)
Module Providers.
Import Workspace.

(** [LocalWorkspaceFlavourProvider.deleteWorkspace].  [isElectron] is
    [BUILD_CONFIG.isElectron] and [electronDelete] the desktop handler
    [electronApi.handler.workspace.delete]. *)
Definition deleteLocalWorkspace (env : Env) (isElectron : bool)
    (electronDelete : string -> M World unit) (wid : string)
    : M World unit :=
  setLocalWorkspaceIds env (fun ids => filter (fun x => x <> wid) ids) ;;
  (if isElectron then electronDelete wid else ret tt) ;;
  request env (PostMessage (Some wid)) (fun _ => tt).

(** The subscriber of the local [workspaces$]: [last] and what was passed
    to [subscriber.next], oldest first. *)
Record Subscription : Type := {
  last : option (list WorkspaceMetadata);
  delivered : list (list WorkspaceMetadata)
}.

Definition subscribed : Subscription := {| last := None; delivered := [] |}.

(** [emit]: read the id list, skip when [isEqual(last, value)]. *)
Definition emit (w : World) (s : Subscription) : Subscription :=
  let value := map (fun i => {| id := i; flavour := "local";
                                initialized := None |})
                 (getLocalWorkspaceIds w) in
  if bool_decide (last s = Some value) then s
  else {| last := Some value; delivered := delivered s ++ [value] |}.

(** The subscription runs [emit] once and then once per broadcast message;
    [later] lists the worlds as they are at each message. *)
Definition observe (first : World) (later : list World) : Subscription :=
  foldl (fun s w => emit w s) (emit first subscribed) later.

(** No two neighbours of the list are equal. *)
Fixpoint distinctNeighbours {A} (l : list A) : Prop :=
  match l with
  | x :: ((y :: _) as rest) => x <> y /\ distinctNeighbours rest
  | _ => True
  end.

(** A backend spec of [WorkerInitOptions]. *)
Record StorageOptions : Type := {
  optPeer : string;
  optType : string;
  optId : string;
  optServerBaseUrl : option string
}.

Record BackendSpec : Type := {
  specName : string;
  specOpts : StorageOptions
}.

Record WorkerInitOptions : Type := {
  localSpecs : list BackendSpec;            (* local *)
  remotes : list (list BackendSpec)
}.

Definition idbSpecs (peer workspaceId : string) : list BackendSpec :=
  map (fun n => {| specName := n;
                   specOpts := {| optPeer := peer; optType := "workspace";
                                  optId := workspaceId;
                                  optServerBaseUrl := None |} |})
    ["IndexedDBDocStorage"; "IndexedDBBlobStorage"; "IndexedDBSyncStorage";
     "BroadcastChannelAwarenessStorage"].

(** [getEngineWorkerInitOptions] of the local and of the cloud provider;
    [baseUrl] is [server.serverMetadata.baseUrl]. *)
Definition getEngineWorkerInitOptions (p : Provider) (baseUrl : string)
    (workspaceId : string) : WorkerInitOptions :=
  match p with
  | LocalProvider =>
      {| localSpecs := idbSpecs (peerId p) workspaceId; remotes := [] |}
  | CloudProvider _ =>
      {| localSpecs := idbSpecs (peerId p) workspaceId;
         remotes :=
           [ map (fun n =>
                    {| specName := n;
                       specOpts := {| optPeer := peerId p;
                                      optType := "workspace";
                                      optId := workspaceId;
                                      optServerBaseUrl := Some baseUrl |} |})
               ["CloudDocStorage"; "CloudBlobStorage";
                "CloudAwarenessStorage"] ] |}
  end.

(** A DOM [Blob] built by [new Blob([data], { type: mime })]. *)
Record DomBlob : Type := { blobData : bytes; blobType : string }.

Definition toDomBlob (r : BlobRecord) : DomBlob :=
  {| blobData := data r; blobType := mime r |}.

(** Modelled from the spec: [IndexedDBBlobStorage.get] (the class is not
    part of the sources) returns the record stored under the key, or
    null. *)
Definition idbBlobGet (w : World) (st : StorageId) (k : string)
    : option BlobRecord :=
  idbBlobs w !! (st.1, st.2, k).

(** [CloudWorkspaceFlavourProvider.getWorkspaceBlob]: the local store is
    asked first, the server only when the local store has no record. *)
Definition getCloudWorkspaceBlob (conn : CloudBlob.Connection)
    (serverId : string) (w : World) (wid blobKey : string)
    : Outcome (option DomBlob) :=
  match idbBlobGet w (serverId, wid) blobKey with
  | Some localBlob => Returned (Some (toDomBlob localBlob))
  | None =>
      match CloudBlob.get conn wid blobKey with
      | Thrown e => Thrown e
      | Returned None => Returned None
      | Returned (Some cloudBlob) => Returned (Some (toDomBlob cloudBlob))
      end
  end.

(** [LocalWorkspaceFlavourProvider.getWorkspaceBlob] *)
Definition getLocalWorkspaceBlob (w : World) (wid blobKey : string)
    : option DomBlob :=
  toDomBlob <$> idbBlobGet w ("local", wid) blobKey.

(** A computation keeps an observation [f] of the world when running it
    never changes [f]. *)
Definition Keeps {A X} (f : World -> X) (c : M World A) : Prop :=
  forall w, f (c w).2 = f w.

(** What the blob loop of the migration leaves in a store: the present
    records, inserted in list order. *)
Definition copiedBlobs (lookup : string -> option BlobRecord)
    (st : StorageId) (keys : list string)
    (m : gmap (string * string * string) BlobRecord)
    : gmap (string * string * string) BlobRecord :=
  foldl (fun acc k => match lookup k with
                      | Some r => <[(st.1, st.2, key r) := r]> acc
                      | None => acc
                      end) m keys.

(** A server that cannot be reached. *)
Definition unreachable : CloudBlob.Connection :=
  {| CloudBlob.fetch := fun _ => Thrown (Rejected "network");
     CloudBlob.now := 0 |}.

(** A server that answers 500 with an error page. *)
Definition failing : CloudBlob.Connection :=
  {| CloudBlob.fetch := fun _ =>
       Returned
         {| CloudBlob.status := 500; CloudBlob.lastModified := None;
            CloudBlob.blob :=
              Returned {| CloudBlob.arrayBuffer := Returned [60; 33]%Z;
                          CloudBlob.type := "text/html";
                          CloudBlob.blobSize := 2 |} |};
     CloudBlob.now := 1700000000000 |}.

(** A world whose local id list is ["a"; "b"]. *)
Definition twoLocal : World :=
  {| trace := []; 
     localStorage := {[ LOCAL_WORKSPACE_LOCAL_STORAGE_KEY := JsonIds ["a"; "b"] ]};
     idbDocs := ∅; idbBlobs := ∅; ydocs := ∅;
     flavours := [LocalProvider] |}.

(** A desktop handler that fails. *)
Definition brokenElectron : string -> M World unit :=
  fun _ => throw (Rejected "ipc").

End Providers.

(** ** Shared intersection observer (component/utils/observe-intersection.ts) *)
Module Intersection.

(** A listener object; two listeners are the same object exactly when
    they have the same [listenerId]. *)
Record Listener : Type := {
  listenerId : nat;
  callback : string                  (* which callback function it holds *)
}.

#[global] Instance Listener_eq_dec : EqDecision Listener.
Proof. solve_decision. Defined.

(** The module state: the lazily created observer with the set of
    elements it observes, and [elementsMap].  Elements are numbered;
    [allocated] counts the listener objects created so far. *)
Record State : Type := {
  observerCreated : bool;            (* _intersectionObserver !== null *)
  observed : gset nat;
  elementsMap : gmap nat (list Listener);
  allocated : nat
}.

Definition initial : State :=
  {| observerCreated := false; observed := ∅; elementsMap := ∅;
     allocated := 0 |}.

(** [getIntersectionObserver]: [??=] creates the observer once. *)
Definition getIntersectionObserver (s : State) : State :=
  {| observerCreated := true; observed := observed s;
     elementsMap := elementsMap s; allocated := allocated s |}.

(** [removeListener(element, listener)]; a null element is [None]. *)
Definition removeListener (element : option nat) (listener : Listener)
    (s : State) : State :=
  match element with
  | None => s
  | Some el =>
      let listeners := default [] (elementsMap s !! el) in
      let s1 := getIntersectionObserver s in
      let map1 :=
        if bool_decide (listener ∈ listeners)
        then <[el := filter (fun l => l <> listener) listeners]>
               (elementsMap s1)
        else elementsMap s1 in
      match map1 !! el with
      | Some [] =>
          {| observerCreated := observerCreated s1;
             observed := observed s1 ∖ {[el]};
             elementsMap := delete el map1; allocated := allocated s1 |}
      | _ =>
          {| observerCreated := observerCreated s1; observed := observed s1;
             elementsMap := map1; allocated := allocated s1 |}
      end
  end.

(** [observeIntersection(element, callback)]: returns the new state and
    the listener whose [dispose] is handed back. *)
Definition observeIntersection (el : nat) (cb : string) (s : State)
    : Listener * State :=
  let s1 := getIntersectionObserver s in
  let watched :=
    if bool_decide (is_Some (elementsMap s1 !! el)) then observed s1
    else observed s1 ∪ {[el]} in
  let prevListeners := default [] (elementsMap s1 !! el) in
  let listener := {| listenerId := allocated s1; callback := cb |} in
  (listener,
   {| observerCreated := true; observed := watched;
      elementsMap := <[el := prevListeners ++ [listener]]> (elementsMap s1);
      allocated := S (allocated s1) |}).

(** [listener.dispose] *)
Definition dispose (el : nat) (listener : Listener) (s : State) : State :=
  removeListener (Some el) listener s.

(** The observer callback: which callbacks run, in order, for a batch of
    entries (each entry is named by its target element). *)
Definition deliver (entries : list nat) (s : State) : list (string * nat) :=
  concat (map (fun target =>
                 map (fun l => (callback l, target))
                   (default [] (elementsMap s !! target)))
            entries).

(** What holds of every state the two exported operations can reach. *)
Definition wellFormed (s : State) : Prop :=
  (forall el, el ∈ observed s <-> is_Some (elementsMap s !! el)) /\
  (forall el ls, elementsMap s !! el = Some ls -> ls <> []) /\
  (forall el ls l, elementsMap s !! el = Some ls -> l ∈ ls ->
     listenerId l < allocated s).

End Intersection.

(** ** Runs of the shared intersection observer *)
Module IntersectionRuns.
Import Intersection.

(** What a client can do: observe an element, or call the [dispose] it got
    back for a listener. *)
Inductive Action : Type :=
| Observe (el : nat) (cb : string)
| Dispose (el : nat) (listener : Listener).

Definition step (s : State) (a : Action) : State :=
  match a with
  | Observe el cb => (observeIntersection el cb s).2
  | Dispose el listener => dispose el listener s
  end.

Definition run (actions : list Action) : State := foldl step initial actions.

End IntersectionRuns.

(** ** Perplexity provider: citation links (unnamed/part_003)

    A text is the sequence of the UTF-8 bytes of the JavaScript string.
    The pattern names ASCII characters only, and no multi-byte sequence
    contains an ASCII byte. *)
Module Perplexity.

(** [\d] without the unicode flag: the ASCII digits. *)
Definition isDigit (c : Ascii.ascii) : bool :=
  (48 <=? Ascii.nat_of_ascii c)%nat && (Ascii.nat_of_ascii c <=? 57)%nat.

(** [(\d+)] is greedy: the longest run of digits, and what follows it. *)
Fixpoint digitsOf (s : string) : string * string :=
  match s with
  | String c rest =>
      if isDigit c
      then let '(d, r) := digitsOf rest in (String c d, r)
      else ("", s)
  | EmptyString => ("", "")
  end.

Definition startsWithParen (s : string) : bool :=
  match s with
  | String "("%char _ => true
  | _ => false
  end.

(** [\[{1,2}], greedy: the brackets taken and what follows them.  Taking
    one bracket where two are present never lets the match go on, since a
    digit has to come next. *)
Definition opening (s : string) : option (string * string) :=
  match s with
  | String "["%char s1 =>
      match s1 with
      | String "["%char s1' => Some ("[[", s1')
      | _ => Some ("[", s1)
      end
  | _ => None
  end.

(** [\]{1,2}(?!\()], greedy: two brackets when the text after them does not
    start with "(", otherwise one bracket when the text after it does not. *)
Definition closing (s : string) : option (string * string) :=
  match s with
  | String "]"%char s4 =>
      match s4 with
      | String "]"%char s5 =>
          if startsWithParen s5 then Some ("]", s4) else Some ("]]", s5)
      | _ => if startsWithParen s4 then None else Some ("]", s4)
      end
  | _ => None
  end.

(** One attempt of [/\[{1,2}(\d+)\]{1,2}(?!\()/] at the start of [s]:
    the captured reference, the matched text and the text after the match. *)
Definition citationAt (s : string) : option (string * string * string) :=
  match opening s with
  | Some (opens, s2) =>
      let '(reference, s3) := digitsOf s2 in
      if bool_decide (reference = "") then None
      else
        match closing s3 with
        | Some (closes, rest) =>
            Some (reference, opens +:+ reference +:+ closes, rest)
        | None => None
        end
  | None => None
  end.

(** [parseInt(reference, 10)] on a string of digits. *)
Fixpoint parseDecimal (acc : N) (s : string) : N :=
  match s with
  | String c rest =>
      parseDecimal (acc * 10 + (N.of_nat (Ascii.nat_of_ascii c) - 48))%N rest
  | EmptyString => acc
  end.

(** The replace callback: [index = n - 1] must satisfy
    [index >= 0 && index < citations.length]. *)
Definition replacement (citations : list string) (matched reference : string)
    : string :=
  let n := parseDecimal 0 reference in
  if ((1 <=? n)%N && (n <=? N.of_nat (length citations))%N)%bool
  then
    match citations !! (N.to_nat n - 1) with
    | Some url => "[[" +:+ pretty n +:+ "](" +:+ url +:+ ")]"
    | None => matched
    end
  else matched.

(** [content.replace(regex, callback)] with the [g] flag: matches are
    searched left to right and do not overlap.  [fuel] bounds the number of
    steps; every step consumes at least one character. *)
Fixpoint replaceFrom (fuel : nat) (citations : list string) (s : string)
    : string :=
  match fuel with
  | 0 => s
  | S fuel' =>
      match citationAt s with
      | Some (reference, matched, rest) =>
          replacement citations matched reference
          +:+ replaceFrom fuel' citations rest
      | None =>
          match s with
          | String c rest => String c (replaceFrom fuel' citations rest)
          | EmptyString => EmptyString
          end
      end
  end.

Definition injectCitations (content : string) (citations : list string)
    : string :=
  replaceFrom (String.length content) citations content.

(** The text contains no "[". *)
Fixpoint bracketFree (s : string) : Prop :=
  match s with
  | String c rest => c <> "["%char /\ bracketFree rest
  | EmptyString => True
  end.

(** The text is a run of digits. *)
Definition digitsOnly (s : string) : Prop := digitsOf s = (s, "").

(** The text is a non-empty run of digits. *)
Definition allDigits (s : string) : Prop := s <> "" /\ digitsOnly s.

Definition firstChar (s : string) : option Ascii.ascii :=
  match s with
  | String c _ => Some c
  | EmptyString => None
  end.

(** The text starts with the character [c]. *)
Definition firstIs (c : Ascii.ascii) (s : string) : Prop :=
  firstChar s = Some c.

(** The text does not start with a digit. *)
Definition noDigitAhead (s : string) : Prop :=
  forall c, firstChar s = Some c -> isDigit c = false.

End Perplexity.

(** ** Perplexity provider: requests and streamed responses
    (unnamed/part_003) *)
Module PerplexityChat.

Inductive CopilotProviderType : Type := Perplexity.

(** What the modelled code throws or catches.  Of a caught value only
    [e?.message] is read. *)
Inductive Thrown : Type :=
| CopilotPromptInvalid (message : string)
| CopilotProviderSideError (provider : CopilotProviderType)
    (kind message : string)
| TypeError (message : string)         (* a property read on undefined *)
| Foreign (message : option string).   (* thrown by fetch, json() or read() *)

Definition messageOf (e : Thrown) : option string :=
  match e with
  | CopilotPromptInvalid m => Some m
  | CopilotProviderSideError _ _ m => Some m
  | TypeError m => Some m
  | Foreign m => m
  end.

Inductive Result (A : Type) : Type :=
| Ok (a : A)
| Err (e : Thrown).
Arguments Ok {A} a.
Arguments Err {A} e.

(** The response interfaces of the source. *)
Record Message : Type := { content : string }.
Record Choice : Type := { message : option Message; delta : option Message }.
Record PerplexityResponse : Type := {
  citations : list string;
  choices : list Choice
}.

(** A prompt message: its role, and its content when that is a string. *)
Definition PromptMessage : Type := string * option string.

Record CopilotChatOptions : Type := { maxTokens : option Z }.

(** The body and headers of the POST request. *)
Record Request : Type := {
  authorization : string;
  model : string;
  messages : list (string * string);     (* role, content *)
  max_tokens : Z;
  stream : bool
}.

(** A stream of a response body: the decoded text of each [read()], and
    the error of the read after them when the stream breaks. *)
Record Reader : Type := { reads : list string; failure : option Thrown }.

Inductive JsonBody : Type :=
| JsonRejected (e : Thrown)
| Json (j : PerplexityResponse).

(** Of the response of [fetch] only [response.json()] is used. *)
Record HttpResponse : Type := { json : JsonBody }.

Inductive Fetched : Type :=
| FetchRejected (e : Thrown)
| Response (r : HttpResponse).

(** [JSON.parse]: a syntax error, a value that is not an object, or an
    object, read at the declared type [PerplexityResponse]. *)
Inductive Parsed : Type :=
| SyntaxError
| NotAnObject
| AnObject (r : PerplexityResponse).

(** The provider's configuration and the world outside it. *)
Record Env : Type := {
  apiKey : string;
  fetch : Request -> Fetched;
  JSON_parse : string -> Parsed
}.

(** Counters of [metrics.ai] with their [model] attribute, and the requests
    passed to [fetch], both in the order they were made. *)
Record Telemetry : Type := {
  counters : list (string * string);
  requests : list Request
}.

Definition count (name model : string) (t : Telemetry) : Telemetry :=
  {| counters := counters t ++ [(name, model)]; requests := requests t |}.
Definition logRequest (r : Request) (t : Telemetry) : Telemetry :=
  {| counters := counters t; requests := requests t ++ [r] |}.

Definition availableModels : list string :=
  [ "llama-3.1-sonar-small-128k-online";
    "llama-3.1-sonar-large-128k-online";
    "llama-3.1-sonar-huge-128k-online" ].

Definition isModelAvailable (model : string) : bool :=
  bool_decide (model ∈ availableModels).

Definition checkParams (model : string) : Result unit :=
  if isModelAvailable model then Ok tt
  else Err (CopilotPromptInvalid ("Invalid model: " +:+ model)).

(** [e?.message || 'Unexpected perplexity response'] *)
Definition handleError (e : Thrown) : Thrown :=
  CopilotProviderSideError Perplexity "unexpected_response"
    match messageOf e with
    | Some m => if bool_decide (m = "") then "Unexpected perplexity response"
                else m
    | None => "Unexpected perplexity response"
    end.

(** [messages.map(...).filter(({ content }) => typeof content === 'string')] *)
Definition sMessages (messages : list PromptMessage) : list (string * string) :=
  omap (fun m => match m.2 with
                 | Some text => Some (m.1, text)
                 | None => None
                 end) messages.

(** [options.maxTokens || 4096] *)
Definition maxTokensOr4096 (options : CopilotChatOptions) : Z :=
  match maxTokens options with
  | Some n => if (n =? 0)%Z then 4096%Z else n
  | None => 4096%Z
  end.

Definition defaultModel : string := "llama-3.1-sonar-small-128k-online".

(** [json.choices[0].message.content] *)
Definition firstMessageContent (j : PerplexityResponse) : Result string :=
  match choices j with
  | c :: _ =>
      match message c with
      | Some m => Ok (content m)
      | None =>
          Err (TypeError
                 "Cannot read properties of undefined (reading 'content')")
      end
  | [] =>
      Err (TypeError "Cannot read properties of undefined (reading 'message')")
  end.

Definition generateText (env : Env) (prompt : list PromptMessage)
    (modelArg : option string) (options : CopilotChatOptions)
    (t : Telemetry) : Result string * Telemetry :=
  let model := default defaultModel modelArg in
  match checkParams model with
  | Err e => (Err e, t)
  | Ok _ =>
      let t1 := count "chat_text_calls" model t in
      let request :=
        {| authorization := apiKey env; model := model;
           messages := sMessages prompt;
           max_tokens := maxTokensOr4096 options; stream := false |} in
      let t2 := logRequest request t1 in
      let attempt :=
        match fetch env request with
        | FetchRejected e => Err e
        | Response response =>
            match json response with
            | JsonRejected e => Err e
            | Json j =>
                match firstMessageContent j with
                | Ok text => Ok (Perplexity.injectCitations text (citations j))
                | Err e => Err e
                end
            end
        end in
      match attempt with
      | Ok text => (Ok text, t2)
      | Err e => (Err (handleError e), count "chat_text_errors" model t2)
      end
  end.

(** *** Streamed responses *)

Definition strictParseJSON (env : Env) (str : string)
    : option PerplexityResponse :=
  match JSON_parse env str with
  | AnObject r => Some r
  | NotAnObject => None
  | SyntaxError => None
  end.

Definition code (c : Ascii.ascii) : nat := Ascii.nat_of_ascii c.

(** [\s] on the UTF-8 bytes of the text: the ASCII white space, U+00A0,
    and the three-byte U+1680, U+2000..U+200A, U+2028, U+2029, U+202F,
    U+205F, U+3000 and U+FEFF. *)
Definition isSpace1 (c : Ascii.ascii) : bool :=
  ((9 <=? code c)%nat && (code c <=? 13)%nat) || (code c =? 32)%nat.
Definition isSpace2 (c1 c2 : Ascii.ascii) : bool :=
  (code c1 =? 194)%nat && (code c2 =? 160)%nat.
Definition isSpace3 (c1 c2 c3 : Ascii.ascii) : bool :=
  ((code c1 =? 225)%nat && (code c2 =? 154)%nat && (code c3 =? 128)%nat)
  || ((code c1 =? 226)%nat && (code c2 =? 128)%nat
      && (((128 <=? code c3)%nat && (code c3 <=? 138)%nat)
          || (code c3 =? 168)%nat || (code c3 =? 169)%nat
          || (code c3 =? 175)%nat))
  || ((code c1 =? 226)%nat && (code c2 =? 129)%nat && (code c3 =? 159)%nat)
  || ((code c1 =? 227)%nat && (code c2 =? 128)%nat && (code c3 =? 128)%nat)
  || ((code c1 =? 239)%nat && (code c2 =? 187)%nat && (code c3 =? 191)%nat).

(** [\s*], greedy *)
Fixpoint skipSpace (s : string) : string :=
  match s with
  | String c1 r1 =>
      if isSpace1 c1 then skipSpace r1
      else
        match r1 with
        | String c2 r2 =>
            if isSpace2 c1 c2 then skipSpace r2
            else
              match r2 with
              | String c3 r3 =>
                  if isSpace3 c1 c2 c3 then skipSpace r3 else s
              | EmptyString => s
              end
        | EmptyString => s
        end
  | EmptyString => EmptyString
  end.

Fixpoint stripPrefix (p s : string) : option string :=
  match p, s with
  | EmptyString, _ => Some s
  | String a p', String b s' =>
      if bool_decide (a = b) then stripPrefix p' s' else None
  | String _ _, EmptyString => None
  end.

(** [str.slice(match[0].length)] for a match of [/^\s*data:\s*/], if any *)
Definition afterStartToken (str : string) : option string :=
  match stripPrefix "data:" (skipSpace str) with
  | Some rest => Some (skipSpace rest)
  | None => None
  end.

(** [response.choices[0]?.delta?.content || ''] *)
Definition deltaContentOf (response : PerplexityResponse) : string :=
  match choices response with
  | c :: _ =>
      match delta c with
      | Some m => content m
      | None => ""
      end
  | [] => ""
  end.

Definition tryToParseDeltaContent (env : Env) (str : string)
    : option (PerplexityResponse * string) :=
  let response :=
    match afterStartToken str with
    | Some sliced => strictParseJSON env sliced
    | None => strictParseJSON env str
    end in
  match response with
  | Some r => Some (r, deltaContentOf r)
  | None => None
  end.

(** [str.split('\n')] *)
Fixpoint split (s : string) : list string :=
  match s with
  | String c rest =>
      if (code c =? 10)%nat then "" :: split rest
      else
        match split rest with
        | l :: ls => String c l :: ls
        | [] => [String c ""]
        end
  | EmptyString => [""]
  end.

Definition carriageReturn : string := String (Ascii.ascii_of_nat 13) "".

(** The variables of one pass of the [while] loop, and [this.buffer]. *)
Record Pass : Type := {
  buffer : string;
  deltaContent : string;
  lastResponse : option PerplexityResponse
}.

(** The body of [for (const line of lines)] *)
Definition onLine (env : Env) (p : Pass) (line : string) : Pass :=
  match tryToParseDeltaContent env line with
  | Some (response, text) =>
      {| buffer := buffer p;
         deltaContent := deltaContent p +:+ text;
         lastResponse := Some response |}
  | None =>
      let prevBuffer := buffer p in
      let joined := prevBuffer +:+ line in
      if bool_decide (String.length prevBuffer = 0) then
        {| buffer := joined; deltaContent := deltaContent p;
           lastResponse := lastResponse p |}
      else
        match tryToParseDeltaContent env joined with
        | Some (response, text) =>
            {| buffer := "";
               deltaContent := deltaContent p +:+ text;
               lastResponse := Some response |}
        | None =>
            {| buffer := joined; deltaContent := deltaContent p;
               lastResponse := lastResponse p |}
        end
  end.

(** One pass of the [while] loop on the decoded text of a read: what is
    yielded, and [this.buffer] afterwards. *)
Definition onRead (env : Env) (buf : string) (str : string)
    : string * string :=
  let lines := filter (fun s => s <> carriageReturn) (split str) in
  let p := foldl (onLine env)
             {| buffer := buf; deltaContent := ""; lastResponse := None |}
             lines in
  (match lastResponse p with
   | Some r => Perplexity.injectCitations (deltaContent p) (citations r)
   | None => deltaContent p
   end, buffer p).

Fixpoint onReads (env : Env) (buf : string) (texts : list string)
    : list string * string :=
  match texts with
  | [] => ([], buf)
  | str :: rest =>
      let '(res, buf1) := onRead env buf str in
      let '(more, buf2) := onReads env buf1 rest in
      (res :: more, buf2)
  end.

(** What a consumer that reads the generator to its end receives. *)
Record Streamed : Type := {
  yielded : list string;
  thrown : option Thrown;
  bufferAfter : string
}.

Definition processStreamChunks (env : Env) (reader : Reader) (model : string)
    (buf : string) (t : Telemetry) : Streamed * Telemetry :=
  let '(res, buf1) := onReads env buf (reads reader) in
  match failure reader with
  | Some e =>
      ({| yielded := res; thrown := Some e; bufferAfter := buf1 |},
       count "chat_text_stream_errors" model t)
  | None => ({| yielded := res; thrown := None; bufferAfter := buf1 |}, t)
  end.

(** The text has no line feed and is not a lone carriage return. *)
Fixpoint lineFeedFree (s : string) : Prop :=
  match s with
  | String c rest => code c <> 10 /\ lineFeedFree rest
  | EmptyString => True
  end.

Definition oneLine (s : string) : Prop :=
  lineFeedFree s /\ s <> carriageReturn.

(** The text of the first [k] pieces, put together. *)
Definition prefixText (k : nat) (pieces : list string) : string :=
  foldr String.append "" (take k pieces).

(** [n] line feeds, as they end an event of the stream. *)
Fixpoint lineFeeds (n : nat) : string :=
  match n with
  | 0 => ""
  | S k => String (Ascii.ascii_of_nat 10) (lineFeeds k)
  end.

(** A read: a piece of text followed by line feeds. *)
Definition terminated (read : string * nat) : string :=
  read.1 +:+ lineFeeds read.2.

End PerplexityChat.

(** Sample data for the Perplexity provider. *)
Module PerplexitySamples.
Import PerplexityChat.

Definition quote : string := String (Ascii.ascii_of_nat 34) "".

(** One streamed event of the API, without its [data:] prefix. *)
Definition payload : string :=
  "{" +:+ quote +:+ "citations" +:+ quote +:+ ":[" +:+ quote +:+ "http://a"
  +:+ quote +:+ "]," +:+ quote +:+ "choices" +:+ quote +:+ ":[{" +:+ quote
  +:+ "delta" +:+ quote +:+ ":{" +:+ quote +:+ "content" +:+ quote +:+ ":"
  +:+ quote +:+ "Rust [1]" +:+ quote +:+ "}}]}".

Definition parsedPayload : PerplexityResponse :=
  {| citations := ["http://a"];
     choices := [{| message := None;
                    delta := Some {| content := "Rust [1]" |} |}] |}.

(** A world in which [payload] is the only text that is JSON, and every
    request is refused. *)
Definition onlyPayload : Env :=
  {| apiKey := "key";
     fetch := fun _ => FetchRejected (Foreign (Some "fetch failed"));
     JSON_parse := fun s =>
       if bool_decide (s = payload) then AnObject parsedPayload
       else SyntaxError |}.

(** The event, cut in three. *)
Definition firstPiece : string := "data: {" +:+ quote +:+ "citations".
Definition secondPiece : string :=
  quote +:+ ":[" +:+ quote +:+ "http://a" +:+ quote +:+ "]," +:+ quote
  +:+ "choices" +:+ quote +:+ ":[{" +:+ quote +:+ "delta" +:+ quote.
Definition lastPiece : string :=
  ":{" +:+ quote +:+ "content" +:+ quote +:+ ":" +:+ quote +:+ "Rust [1]"
  +:+ quote +:+ "}}]}".

Definition noTelemetry : Telemetry := {| counters := []; requests := [] |}.

End PerplexitySamples.

(* ===================================================================== *)
(** * Properties *)

Section EngineProperties.
Import Engine.
Context (env : Collaborators).

Lemma start_when_started (e : WorkspaceEngine) :
  started e = true -> start env e = (Thrown alreadyStarted, e).
Proof. intros H. unfold start, bind, get. simpl. rewrite H. reflexivity. Qed.

Lemma start_sets_started (e : WorkspaceEngine) :
  started (snd (start env e)) = true.
Proof.
  destruct (started e) eqn:Hs.
  - rewrite start_when_started by assumption. exact Hs.
  - unfold start, bind, get, modify, call, doc, awareness, throw. simpl.
    rewrite Hs. simpl.
    repeat (match goal with
            | |- context [match fault ?v ?s ?c with _ => _ end] =>
                destruct (fault v s c)
            end; simpl; try reflexivity).
Qed.

End EngineProperties.

(** C3: an accessor read while the worker handle is still absent throws
    "Engine is not initialized", and whatever the first [start()] did, a
    second [start()] throws "Engine is already started". *)
Theorem engine_guards (env1 env2 : Engine.Collaborators)
    (e : Engine.WorkspaceEngine) :
  (Engine.worker e = None ->
     Engine.doc e = (Thrown (NewError "Engine is not initialized"), e) /\
     Engine.blob e = (Thrown (NewError "Engine is not initialized"), e) /\
     Engine.awareness e = (Thrown (NewError "Engine is not initialized"), e))
  /\ Engine.start env2 (snd (Engine.start env1 e))
     = (Thrown (NewError "Engine is already started"),
        snd (Engine.start env1 e)).
Proof.
  split.
  - intros Hw. unfold Engine.doc, Engine.blob, Engine.awareness.
    rewrite Hw. auto.
  - apply start_when_started, start_sets_started.
Qed.

Lemma engine_guards_witness :
  (Engine.doc Engine.fresh
     = (Thrown (NewError "Engine is not initialized"), Engine.fresh)) /\
  fst (Engine.start Engine.calm (snd (Engine.start Engine.calm Engine.fresh)))
    = Thrown (NewError "Engine is already started").
Proof.
  destruct (engine_guards Engine.calm Engine.calm Engine.fresh) as [Ha Hs].
  split.
  - apply Ha. reflexivity.
  - rewrite Hs. reflexivity.
Defined.

(** C9: when the worker provider throws inside [start()], the engine keeps
    [started = true] without a worker: later [start()] calls throw
    "already started" and the accessors keep throwing "not initialized". *)
Theorem start_not_atomic (env : Engine.Collaborators)
    (e : Engine.WorkspaceEngine) (err : JsThrown) :
  Engine.started e = false ->
  Engine.worker e = None ->
  Engine.fault env (Engine.setStarted true e) Engine.EmitBeforeStart = None ->
  Engine.fault env
    (Engine.logCall Engine.EmitBeforeStart true (Engine.setStarted true e))
    Engine.OpenWorker = Some err ->
  let e' := snd (Engine.start env e) in
  fst (Engine.start env e) = Thrown err /\
  Engine.started e' = true /\
  Engine.worker e' = None /\
  (forall env', Engine.start env' e'
                = (Thrown (NewError "Engine is already started"), e')) /\
  Engine.doc e' = (Thrown (NewError "Engine is not initialized"), e') /\
  Engine.blob e' = (Thrown (NewError "Engine is not initialized"), e') /\
  Engine.awareness e'
    = (Thrown (NewError "Engine is not initialized"), e').
Proof.
  intros Hs Hw Hemit Hopen.
  assert (Hrun : Engine.start env e
                 = (Thrown err,
                    Engine.logCall Engine.OpenWorker false
                      (Engine.logCall Engine.EmitBeforeStart true
                         (Engine.setStarted true e)))).
  { unfold Engine.start, bind, get, modify, Engine.call. simpl.
    rewrite Hs. simpl. rewrite Hemit. simpl. rewrite Hopen. reflexivity. }
  simpl. rewrite Hrun. simpl.
  split; [reflexivity|]. split; [reflexivity|]. split; [exact Hw|].
  split; [intros env'; apply start_when_started; reflexivity|].
  unfold Engine.doc, Engine.blob, Engine.awareness. simpl. rewrite Hw. auto.
Qed.

Lemma start_not_atomic_witness :
  let e' := snd (Engine.start Engine.brokenProvider Engine.fresh) in
  fst (Engine.start Engine.brokenProvider Engine.fresh)
    = Thrown (Rejected "worker") /\
  Engine.started e' = true /\
  fst (Engine.start Engine.calm e')
    = Thrown (NewError "Engine is already started") /\
  fst (Engine.doc e') = Thrown (NewError "Engine is not initialized").
Proof.
  destruct (start_not_atomic Engine.brokenProvider Engine.fresh
              (Rejected "worker") eq_refl eq_refl eq_refl eq_refl)
    as (H1 & H2 & _ & H4 & H5 & _).
  split; [exact H1|]. split; [exact H2|]. split.
  - rewrite (H4 Engine.calm). reflexivity.
  - rewrite H5. reflexivity.
Defined.

Section RegistryProperties.
Import Registry.

Lemma table_lookup (n : string) (c : StorageConstructor) :
  AvailableStorageImplementations !! n = Some c <-> name c = n.
Proof.
  split.
  - intros H. unfold AvailableStorageImplementations in H. simpl in H.
    repeat (apply lookup_insert_Some in H as [[<- <-]|[_ H]];
            [reflexivity|]).
    rewrite lookup_empty in H. discriminate.
  - intros <-. destruct c; vm_compute; reflexivity.
Qed.

Lemma registered_iff_owned (n : string) :
  registered n <-> is_Some (AvailableStorageImplementations !! n).
Proof.
  split.
  - intros (c & _ & Hn). exists c. apply table_lookup, Hn.
  - intros [c Hc]. exists c. split.
    + destruct c; vm_compute; set_solver.
    + apply table_lookup, Hc.
Qed.

End RegistryProperties.

(** C7 (as amended): the lookup is an exact match on the class name and it
    never throws; a registered name yields its constructor, any other name
    yields [undefined] or a member inherited from [Object.prototype]. *)
Theorem registry_lookup_total (n : string) :
  exists r, Registry.getAvailableStorageImplementations n = Returned r /\
    (forall c, r = Registry.Implementation c <-> Registry.name c = n) /\
    (~ Registry.registered n ->
       r = Registry.Undefined \/ r = Registry.Inherited n).
Proof.
  unfold Registry.getAvailableStorageImplementations.
  eexists; split; [reflexivity|].
  destruct (Registry.AvailableStorageImplementations !! n) as [c0|] eqn:Hl.
  - split.
    + intros c. rewrite <- table_lookup. rewrite Hl.
      split; intros H; congruence.
    + intros Hn. exfalso. apply Hn. apply registered_iff_owned. eauto.
  - split.
    + intros c. rewrite <- table_lookup, Hl.
      split; [|discriminate]. case_bool_decide; discriminate.
    + intros _. case_bool_decide; auto.
Qed.

(** C7 (as stated) fails: an unregistered name is not an error. *)
Lemma registry_unknown_name_returns_undefined :
  ~ Registry.registered "S3BlobStorage" /\
  Registry.getAvailableStorageImplementations "S3BlobStorage"
    = Returned Registry.Undefined /\
  ~ (forall n, ~ Registry.registered n ->
       exists e, Registry.getAvailableStorageImplementations n = Thrown e).
Proof.
  assert (Hn : ~ Registry.registered "S3BlobStorage").
  { rewrite registered_iff_owned. vm_compute. intros [c Hc]. discriminate. }
  split; [exact Hn|]. split; [vm_compute; reflexivity|].
  intros H. destruct (H _ Hn) as [e He]. vm_compute in He. discriminate.
Qed.

(** C5: a 404 response makes [get] return null without throwing; [get]
    throws only when the fetch itself throws or when reading the body of a
    response other than 404 throws. *)
Theorem cloud_blob_get_not_found (conn : CloudBlob.Connection)
    (spaceId k : string) :
  (forall res,
     CloudBlob.fetch conn
       ("/api/workspaces/" +:+ spaceId +:+ "/blobs/" +:+ k) = Returned res ->
     CloudBlob.status res = 404%Z ->
     CloudBlob.get conn spaceId k = Returned None) /\
  (forall e, CloudBlob.get conn spaceId k = Thrown e ->
     CloudBlob.fetch conn
       ("/api/workspaces/" +:+ spaceId +:+ "/blobs/" +:+ k) = Thrown e \/
     exists res err,
       CloudBlob.fetch conn
         ("/api/workspaces/" +:+ spaceId +:+ "/blobs/" +:+ k) = Returned res /\
       CloudBlob.status res <> 404%Z /\
       e = NewError ("blob download error: " +:+ thrownToString err) /\
       (CloudBlob.blob res = Thrown err \/
        exists b, CloudBlob.blob res = Returned b /\
                  CloudBlob.arrayBuffer b = Thrown err)).
Proof.
  unfold CloudBlob.get. split.
  - intros res Hf Hs. rewrite Hf. rewrite bool_decide_eq_true_2; auto.
  - intros e.
    destruct (CloudBlob.fetch conn _) as [res|e0] eqn:Hf.
    + case_bool_decide as Hs; [discriminate|].
      destruct (CloudBlob.blob res) as [b|err] eqn:Hb.
      * destruct (CloudBlob.arrayBuffer b) as [buf|err] eqn:Ha;
          [discriminate|].
        intros [= <-]. right. exists res, err. eauto 10.
      * intros [= <-]. right. exists res, err. eauto 10.
    + intros [= <-]. left. reflexivity.
Qed.

(** C6 (as amended): when some image file of the batch exceeds the image
    service's [maxFileSize], one notice is shown and the whole batch is
    dropped: no block is created for any file and the result is empty. *)
Theorem addImages_oversize_drops_batch (h : Images.Helpers)
    (files : list Images.File) (options : Images.Options)
    (std : Images.Std) (maxFileSize : Z) :
  Images.imageService std = Some maxFileSize ->
  (exists f, f ∈ files /\ Images.isImage f = true /\
             (maxFileSize < Images.fileSize f)%Z) ->
  Images.addImages h files options std
  = (Returned [],
     Images.toast ("You can only upload files less than "
                     +:+ Images.humanFileSize h maxFileSize true 0) std).
Proof.
  intros Hsvc (f & Hin & Himg & Hbig).
  unfold Images.addImages.
  assert (Hf : f ∈ filter (fun f => Images.isImage f = true) files).
  { apply list_elem_of_filter. split; assumption. }
  destruct (filter _ files) as [|f0 fs] eqn:Hfilter.
  { inversion Hf. }
  rewrite Hsvc.
  assert (Hex : existsb (fun f => (maxFileSize <? Images.fileSize f)%Z)
                  (f0 :: fs) = true).
  { apply existsb_exists. exists f. split.
    - apply list_elem_of_In. exact Hf.
    - apply Z.ltb_lt. exact Hbig. }
  rewrite Hex. reflexivity.
Qed.

Lemma addImages_oversize_drops_batch_witness :
  Images.addImages Images.plainHelpers [Images.smallPng; Images.bigPng]
    {| Images.point := None; Images.maxWidth := None |} Images.emptySurface
  = (Returned [],
     Images.toast "You can only upload files less than 10 MB"
       Images.emptySurface).
Proof.
  apply (addImages_oversize_drops_batch Images.plainHelpers
           [Images.smallPng; Images.bigPng] _ Images.emptySurface 50%Z).
  - reflexivity.
  - exists Images.bigPng. split; [set_solver|]. split; [reflexivity|].
    simpl. lia.
Defined.

(** C6 (as stated) fails: with one small and one oversized image the small
    one is not ingested either, although alone it would be. *)
Lemma addImages_small_file_not_ingested :
  let options := {| Images.point := None; Images.maxWidth := None |} in
  let run := Images.addImages Images.plainHelpers
               [Images.smallPng; Images.bigPng] options
               Images.emptySurface in
  (Images.fileSize Images.smallPng <= 50)%Z /\
  fst run = Returned [] /\
  Images.blocks (snd run) = [] /\
  Images.toasts (snd run) = ["You can only upload files less than 10 MB"] /\
  fst (Images.addImages Images.plainHelpers [Images.smallPng] options
         Images.emptySurface) = Returned ["block-0"].
Proof. vm_compute. repeat split; try reflexivity. discriminate. Qed.

Section RevalidationProperties.
Import Revalidation.
Context (localeCompare : string -> string -> Z).

(** A comparator is consistent when it orders every pair one way or the
    other and its [notAfter] relation is transitive. *)
Hypothesis compare_total :
  forall a b, (0 < localeCompare a b -> localeCompare b a <= 0)%Z.
Hypothesis compare_trans :
  forall a b c, (localeCompare a b <= 0 -> localeCompare b c <= 0 ->
                 localeCompare a c <= 0)%Z.

Lemma insertById_perm (x : WorkspaceMetadata) (l : list WorkspaceMetadata) :
  insertById localeCompare x l ≡ₚ x :: l.
Proof.
  induction l as [|y rest IH]; simpl; [reflexivity|].
  destruct (_ <=? 0)%Z; [reflexivity|].
  rewrite IH. apply perm_swap.
Qed.

Lemma sortById_perm (l : list WorkspaceMetadata) :
  sortById localeCompare l ≡ₚ l.
Proof.
  induction l as [|x rest IH]; simpl; [reflexivity|].
  rewrite insertById_perm, IH. reflexivity.
Qed.

Lemma insertById_sorted (x : WorkspaceMetadata)
    (l : list WorkspaceMetadata) :
  StronglySorted (notAfter localeCompare) l ->
  StronglySorted (notAfter localeCompare) (insertById localeCompare x l).
Proof.
  induction 1 as [|y rest Hs IH Hall]; simpl.
  - repeat constructor.
  - destruct (_ <=? 0)%Z eqn:Hc.
    + apply Z.leb_le in Hc. constructor; [constructor; assumption|].
      constructor; [exact Hc|].
      eapply Forall_impl; [exact Hall|].
      intros z Hz. unfold notAfter in *. eapply compare_trans; eassumption.
    + apply Z.leb_gt in Hc. constructor; [exact IH|].
      rewrite insertById_perm. constructor; [|exact Hall].
      unfold notAfter. apply compare_total. lia.
Qed.

Lemma sortById_sorted (l : list WorkspaceMetadata) :
  StronglySorted (notAfter localeCompare) (sortById localeCompare l).
Proof.
  induction l as [|x rest IH]; simpl; [constructor|].
  apply insertById_sorted, IH.
Qed.

End RevalidationProperties.

(** C4: after a successful refresh for an account, the fetched list is
    sorted by id, stored in the global cache under the flavour's key
    followed by the account id, and pushed to [workspaces$] exactly when it
    differs structurally from the list held before. *)
Theorem revalidate_success (localeCompare : string -> string -> Z)
    (p : Revalidation.Provider) (accountId : string)
    (rows : list Revalidation.RemoteWorkspace) :
  (forall a b, (0 < localeCompare a b -> localeCompare b a <= 0)%Z) ->
  (forall a b c, (localeCompare a b <= 0 -> localeCompare b c <= 0 ->
                  localeCompare a c <= 0)%Z) ->
  accountId <> "" ->
  let fetched :=
    map (fun r => {| id := Revalidation.remoteId r;
                     flavour := Revalidation.serverId p;
                     initialized := Some (Revalidation.remoteInitialized r) |})
      rows in
  let sorted := Revalidation.sortById localeCompare fetched in
  let p' := Revalidation.refresh localeCompare (Returned rows)
              (Some accountId) p in
  StronglySorted (Revalidation.notAfter localeCompare) sorted /\
  sorted ≡ₚ fetched /\
  Revalidation.globalState p'
  = <[Revalidation.getCloudWorkspaceCacheKey (Revalidation.serverId p)
        +:+ accountId := sorted]> (Revalidation.globalState p) /\
  (Revalidation.workspaces p = sorted ->
     Revalidation.workspaces p' = Revalidation.workspaces p /\
     Revalidation.emitted p' = Revalidation.emitted p) /\
  (Revalidation.workspaces p <> sorted ->
     Revalidation.workspaces p' = sorted /\
     Revalidation.emitted p'
     = (Revalidation.emitted p ++ [sorted])%list).
Proof.
  intros Htot Htrans Hacc fetched sorted p'.
  split; [apply sortById_sorted; assumption|].
  split; [apply sortById_perm|].
  subst p'. unfold Revalidation.refresh, Revalidation.fetchWorkspaces.
  rewrite bool_decide_eq_false_2 by assumption.
  unfold Revalidation.commit. simpl.
  fold fetched. fold sorted.
  case_bool_decide as Heq; simpl.
  - split; [reflexivity|]. split; [auto|]. intros Hne. contradiction.
  - split; [reflexivity|]. split; [intros; contradiction|]. auto.
Qed.

Section WorkspaceProperties.
Import Workspace.
Context (env : Env).

(** *** Closure of [Tracked] under the monad's combinators *)

Lemma tracked_ret {A} (a : A) : Tracked (ret a).
Proof. intros w. exists []. simpl. rewrite app_nil_r. auto. Qed.

Lemma tracked_throw {A} (e : JsThrown) : Tracked (@throw World A e).
Proof. intros w. exists []. simpl. rewrite app_nil_r. auto. Qed.

Lemma tracked_get : Tracked (@get World).
Proof. intros w. exists []. simpl. rewrite app_nil_r. auto. Qed.

Lemma tracked_modify (f : World -> World) :
  (forall w, trace (f w) = trace w) -> Tracked (modify f).
Proof.
  intros Hf w. exists []. simpl. rewrite app_nil_r, Hf. auto.
Qed.

Lemma tracked_accessor {A} (acc : M Engine.WorkspaceEngine A)
    (e : Engine.WorkspaceEngine) : Tracked (engineAccessor acc e).
Proof. intros w. exists []. simpl. rewrite app_nil_r. auto. Qed.

Lemma tracked_request {A} (op : Op) (value : World -> A) :
  ~ isDelete op -> Tracked (request env op value).
Proof.
  intros Hop w. unfold request.
  destruct (fault env w op); simpl.
  - exists [(op, false)]. repeat split; auto; discriminate.
  - exists [(op, true)]. repeat split; auto.
Qed.

Lemma tracked_bind {A B} (c : M World A) (k : A -> M World B) :
  Tracked c -> (forall a, Tracked (k a)) -> Tracked (bind c k).
Proof.
  intros Hc Hk w. unfold bind.
  destruct (Hc w) as (n1 & Ht1 & Hd1 & Hok1).
  destruct (c w) as [[a|e] w1]; simpl in *.
  - destruct (Hk a w1) as (n2 & Ht2 & Hd2 & Hok2).
    exists (n1 ++ n2). rewrite Ht2, Ht1, app_assoc.
    split; [reflexivity|]. split; [apply Forall_app; auto|].
    intros Hr. apply Forall_app; auto.
  - exists n1. split; [assumption|]. split; [assumption|]. discriminate.
Qed.

Lemma tracked_try_finally {A} (body : M World A) (fin : M World unit) :
  Tracked body -> Tracked fin -> Tracked (try_finally body fin).
Proof.
  intros Hb Hf w. unfold try_finally.
  destruct (Hb w) as (n1 & Ht1 & Hd1 & Hok1).
  destruct (body w) as [r w1]; simpl in *.
  destruct (Hf w1) as (n2 & Ht2 & Hd2 & Hok2).
  destruct (fin w1) as [[u|e] w2]; simpl in *.
  - exists (n1 ++ n2). rewrite Ht2, Ht1, app_assoc.
    split; [reflexivity|]. split; [apply Forall_app; auto|].
    intros Hr. apply Forall_app; auto.
  - exists (n1 ++ n2). rewrite Ht2, Ht1, app_assoc.
    split; [reflexivity|]. split; [apply Forall_app; auto|]. discriminate.
Qed.

Lemma tracked_for_of {A} (xs : list A) (f : A -> M World unit) :
  (forall x, Tracked (f x)) -> Tracked (for_of xs f).
Proof.
  intros Hf. induction xs as [|x rest IH]; simpl.
  - apply tracked_ret.
  - apply tracked_bind; auto.
Qed.

Lemma tracked_applyUpdate (c g : string) (u : bytes) :
  Tracked (applyUpdate env c g u).
Proof.
  apply tracked_bind; [apply tracked_request; simpl; tauto|].
  intros _. apply tracked_modify. reflexivity.
Qed.

Lemma tracked_pushDocUpdate (st : StorageId) (r : DocRecord) :
  Tracked (pushDocUpdate env st r).
Proof.
  apply tracked_bind; [apply tracked_request; simpl; tauto|].
  intros _. apply tracked_modify. reflexivity.
Qed.

Lemma tracked_blobSet (st : StorageId) (r : BlobRecord) :
  Tracked (blobSet env st r).
Proof.
  apply tracked_bind; [apply tracked_request; simpl; tauto|].
  intros _. apply tracked_modify. reflexivity.
Qed.

Lemma tracked_saveCollection (c : string) (st : StorageId) :
  Tracked (saveCollection env c st).
Proof.
  apply tracked_bind; [apply tracked_get|intros w].
  apply tracked_bind; [apply tracked_pushDocUpdate|intros _].
  apply tracked_bind; [apply tracked_get|intros w1].
  apply tracked_for_of. intros guid.
  apply tracked_bind; [apply tracked_get|intros w2].
  apply tracked_pushDocUpdate.
Qed.

Lemma tracked_copyRoot (local : Workspace) (c : string) :
  Tracked (copyRoot env local c).
Proof.
  apply tracked_bind; [apply tracked_request; simpl; tauto|].
  intros [r|]; [apply tracked_applyUpdate|apply tracked_ret].
Qed.

Lemma tracked_copyDoc (c guid : string) : Tracked (copyDoc env c guid).
Proof.
  apply tracked_bind; [apply tracked_request; simpl; tauto|].
  intros [r|]; [apply tracked_applyUpdate|apply tracked_ret].
Qed.

Lemma tracked_copyBlob (bs : StorageId) (k : string) :
  Tracked (copyBlob env bs k).
Proof.
  apply tracked_bind; [apply tracked_request; simpl; tauto|].
  intros [r|]; [apply tracked_blobSet|apply tracked_ret].
Qed.

Lemma tracked_seed (local : Workspace) (accountId c : string)
    (bs ds : StorageId) :
  Tracked (seed env local accountId c bs ds).
Proof.
  apply tracked_bind; [apply tracked_copyRoot|intros _].
  apply tracked_bind; [apply tracked_get|intros w].
  apply tracked_bind;
    [apply tracked_for_of; intros guid; apply tracked_copyDoc|intros _].
  apply tracked_bind; [apply tracked_request; simpl; tauto|intros _].
  apply tracked_bind; [apply tracked_accessor|intros _].
  apply tracked_bind; [apply tracked_request; simpl; tauto|intros keys].
  apply tracked_for_of. intros k. apply tracked_copyBlob.
Qed.

Lemma tracked_afterSeed (p : Provider) (c : string) :
  Tracked (afterSeed env p c).
Proof.
  destruct p as [|serverId]; simpl.
  - apply tracked_bind; [apply tracked_saveCollection|intros _].
    apply tracked_bind; [|intros _; apply tracked_request; simpl; tauto].
    apply tracked_bind; [apply tracked_get|intros w].
    apply tracked_bind; [apply tracked_request; simpl; tauto|intros _].
    apply tracked_modify. reflexivity.
  - apply tracked_bind; [apply tracked_saveCollection|intros _].
    apply tracked_bind; [apply tracked_request; simpl; tauto|intros _].
    apply tracked_request. simpl. tauto.
Qed.

(** *** What [createWorkspace] does around the initializer *)

Lemma createWorkspace_unwinds (p : Provider) (initial : Initializer)
    (w wi wi' : World) (cid : string) (e : JsThrown) :
  allocateId env p w = (Returned cid, wi) ->
  initial cid (peerId p, cid) (peerId p, cid) wi = (Thrown e, wi') ->
  createWorkspace env p initial w
  = match fault env wi' (DisposeCollection cid) with
    | Some e' => (Thrown e', logEvent (DisposeCollection cid) false wi')
    | None => (Thrown e, logEvent (DisposeCollection cid) true wi')
    end.
Proof.
  intros Ha Hi.
  destruct p; simpl in *;
    unfold createLocalWorkspace, createCloudWorkspace;
    unfold bind at 1; rewrite Ha;
    unfold bind at 1; unfold try_finally; unfold bind at 1;
    rewrite Hi; unfold request;
    destruct (fault env wi' (DisposeCollection cid)); reflexivity.
Qed.

Lemma createWorkspace_shape (p : Provider) (initial : Initializer) :
  createWorkspace env p initial
  = (cid <- allocateId env p ;;
     try_finally
       (initial cid (peerId p, cid) (peerId p, cid) ;; afterSeed env p cid)
       (request env (DisposeCollection cid) (fun _ => tt)) ;;
     ret {| id := cid; flavour := providerFlavour p; initialized := None |}).
Proof. destruct p; reflexivity. Qed.

Lemma tracked_createWorkspace (p : Provider) (initial : Initializer) :
  (forall c bs ds, Tracked (initial c bs ds)) ->
  Tracked (createWorkspace env p initial).
Proof.
  intros Hi. rewrite createWorkspace_shape.
  apply tracked_bind.
  { destruct p; apply tracked_request; simpl; tauto. }
  intros cid. apply tracked_bind; [|intros md; apply tracked_ret].
  apply tracked_try_finally; [|apply tracked_request; simpl; tauto].
  apply tracked_bind; [apply Hi|intros _; apply tracked_afterSeed].
Qed.

Lemma tracked_create (fl : string) (initial : Initializer) :
  (forall c bs ds, Tracked (initial c bs ds)) ->
  Tracked (create env fl initial).
Proof.
  intros Hi. unfold create. apply tracked_bind; [apply tracked_get|].
  intros w. destruct (find _ _); [|apply tracked_throw].
  apply tracked_createWorkspace, Hi.
Qed.

Lemma createWorkspace_returned (p : Provider) (initial : Initializer)
    (w wc : World) (md : WorkspaceMetadata) :
  createWorkspace env p initial w = (Returned md, wc) ->
  exists wi wi',
    allocateId env p w = (Returned (id md), wi) /\
    initial (id md) (peerId p, id md) (peerId p, id md) wi
    = (Returned tt, wi').
Proof.
  rewrite createWorkspace_shape. unfold bind at 1.
  destruct (allocateId env p w) as [[cid|e] wi]; [|discriminate].
  unfold bind at 1. unfold try_finally. unfold bind at 1.
  destruct (initial cid _ _ wi) as [[[]|e] wi'] eqn:Hi.
  - destruct (afterSeed env p cid wi') as [r w1].
    destruct (request env _ _ w1) as [[u|e] w2]; [|discriminate].
    destruct r; [|discriminate].
    intros [= <- <-]. simpl. eauto.
  - destruct (request env _ _ wi') as [[u|e'] w2]; discriminate.
Qed.

Lemma added_app (w w' : World) (new : list (Op * bool)) :
  trace w' = trace w ++ new -> added w w' = new.
Proof. intros H. unfold added. rewrite H. apply drop_app_length. Qed.

Lemma added_same (w : World) : added w w = [].
Proof. apply added_app. symmetry. apply app_nil_r. Qed.

Lemma no_delete_not_invoked (events : list (Op * bool)) :
  Forall (fun ev => ~ isDelete ev.1) events -> ~ deleteInvoked events.
Proof.
  intros Hall (m & ok & Hin).
  rewrite Forall_forall in Hall. apply (Hall _ Hin). exact I.
Qed.

Lemma transform_wrong_flavour (local : Workspace) (accountId fl : string)
    (w : World) :
  wsFlavour local <> "local" ->
  transformLocalToCloud env local accountId fl w
  = (Thrown (BlockSuiteError "ValueNotEqual" "val is not same as expected"),
     w).
Proof.
  intros Hfl. unfold transformLocalToCloud, assertEquals.
  rewrite bool_decide_eq_false_2 by assumption. reflexivity.
Qed.

Lemma transform_engine_not_started (local : Workspace)
    (accountId fl : string) (w : World) (e : JsThrown) :
  wsFlavour local = "local" ->
  (Engine.doc (wsEngine local)).1 = Thrown e ->
  transformLocalToCloud env local accountId fl w = (Thrown e, w).
Proof.
  intros Hfl He. unfold transformLocalToCloud, assertEquals.
  rewrite bool_decide_eq_true_2 by assumption.
  unfold bind, engineAccessor. simpl. rewrite He. reflexivity.
Qed.

Lemma transform_unfold (local : Workspace) (accountId fl : string)
    (w : World) (d : string) :
  wsFlavour local = "local" ->
  (Engine.doc (wsEngine local)).1 = Returned d ->
  transformLocalToCloud env local accountId fl w
  = match create env fl (seed env local accountId) w with
    | (Returned md, wc) =>
        match fault env wc (DestroyDeleteWorkspace (wsMeta local)) with
        | Some e =>
            (Thrown e,
             logEvent (DestroyDeleteWorkspace (wsMeta local)) false wc)
        | None =>
            (Returned md,
             logEvent (DestroyDeleteWorkspace (wsMeta local)) true wc)
        end
    | (Thrown e, wc) => (Thrown e, wc)
    end.
Proof.
  intros Hfl Hd. unfold transformLocalToCloud, assertEquals.
  rewrite bool_decide_eq_true_2 by assumption.
  unfold bind, engineAccessor, request. simpl. rewrite Hd.
  destruct (create env fl (seed env local accountId) w) as [[md|e] wc];
    [|reflexivity].
  destruct (fault env wc _); reflexivity.
Qed.

(** The three ways a run of [transformLocalToCloud] can go. *)
Lemma transform_cases (local : Workspace) (accountId fl : string)
    (w : World) :
  let run := transformLocalToCloud env local accountId fl w in
  (exists e, run = (Thrown e, w)) \/
  (exists e wc,
     create env fl (seed env local accountId) w = (Thrown e, wc) /\
     run = (Thrown e, wc) /\
     Forall (fun ev => ~ isDelete ev.1) (added w wc)) \/
  (exists md wc ok,
     create env fl (seed env local accountId) w = (Returned md, wc) /\
     run.2 = logEvent (DestroyDeleteWorkspace (wsMeta local)) ok wc /\
     (ok = true -> run.1 = Returned md) /\
     Forall (fun ev => ~ isDelete ev.1) (added w wc) /\
     Forall (fun ev => ev.2 = true) (added w wc) /\
     added w run.2
     = added w wc ++ [(DestroyDeleteWorkspace (wsMeta local), ok)]).
Proof.
  intros run. subst run.
  destruct (decide (wsFlavour local = "local")) as [Hfl|Hfl];
    [|left; eexists; apply transform_wrong_flavour, Hfl].
  destruct (Engine.doc (wsEngine local)).1 as [d|e] eqn:Hdoc;
    [|left; exists e; apply transform_engine_not_started; assumption].
  right. rewrite (transform_unfold local accountId fl w d Hfl Hdoc).
  destruct (tracked_create fl (seed env local accountId)
              (tracked_seed local accountId) w) as (n1 & Ht & Hd & Hok).
  destruct (create env fl (seed env local accountId) w)
    as [[md|e] wc] eqn:Hc; simpl in Ht, Hok.
  - right. pose proof (added_app _ _ _ Ht) as Hadd.
    destruct (fault env wc (DestroyDeleteWorkspace (wsMeta local)));
      [exists md, wc, false | exists md, wc, true]; rewrite Hadd;
      (split; [reflexivity|]); (split; [reflexivity|]);
      (split; [try discriminate; reflexivity|]);
      (split; [assumption|]); (split; [auto|]);
      apply added_app; simpl; rewrite Ht, app_assoc; reflexivity.
  - left. exists e, wc. split; [reflexivity|]. split; [reflexivity|].
    rewrite (added_app _ _ _ Ht). assumption.
Qed.

End WorkspaceProperties.

(** C1: the local original is asked to be deleted only after the creation
    of the new workspace, seeding initializer included, has returned with
    every call succeeding; a call that throws, or an initializer that
    throws, means [deleteWorkspace] is never invoked. *)
Theorem delete_only_after_seeded_create (env : Workspace.Env)
    (local : Workspace.Workspace) (accountId fl : string)
    (w : Workspace.World) :
  let run := Workspace.transformLocalToCloud env local accountId fl w in
  let events := Workspace.added w run.2 in
  (Workspace.deleteInvoked events ->
     exists p md wi wi' wc ok,
       find (fun p => bool_decide (Workspace.providerFlavour p = fl))
         (Workspace.flavours w) = Some p /\
       Workspace.allocateId env p w = (Returned (id md), wi) /\
       Workspace.seed env local accountId (id md)
         (Workspace.peerId p, id md) (Workspace.peerId p, id md) wi
       = (Returned tt, wi') /\
       Workspace.create env fl (Workspace.seed env local accountId) w
       = (Returned md, wc) /\
       Forall (fun ev => ev.2 = true) (Workspace.added w wc) /\
       events = Workspace.added w wc
                ++ [(Workspace.DestroyDeleteWorkspace
                       (Workspace.wsMeta local), ok)]) /\
  (forall op, (op, false) ∈ events -> ~ Workspace.isDelete op ->
     ~ Workspace.deleteInvoked events) /\
  (forall p cid wi e wi',
     find (fun p => bool_decide (Workspace.providerFlavour p = fl))
       (Workspace.flavours w) = Some p ->
     Workspace.allocateId env p w = (Returned cid, wi) ->
     Workspace.seed env local accountId cid
       (Workspace.peerId p, cid) (Workspace.peerId p, cid) wi
     = (Thrown e, wi') ->
     ~ Workspace.deleteInvoked events).
Proof.
  intros run events.
  destruct (transform_cases env local accountId fl w)
    as [[e Hrun] | [(e & wc & Hc & Hrun & Hd)
                   | (md & wc & ok & Hc & Hw & _ & Hd & Hok & Hev)]];
    fold run in Hrun || fold run in Hw, Hev.
  - assert (Hnone : events = []).
    { unfold events. rewrite Hrun. apply added_same. }
    rewrite Hnone. split; [|split].
    + intros (m & ok & Hin). inversion Hin.
    + intros op Hin. inversion Hin.
    + intros. intros (m & ok & Hin). inversion Hin.
  - assert (Hno : ~ Workspace.deleteInvoked events).
    { unfold events. rewrite Hrun. apply no_delete_not_invoked, Hd. }
    split; [intros; contradiction|]. split; intros; exact Hno.
  - fold events in Hev. split; [|split].
    + intros _. pose proof Hc as Hcw.
      unfold Workspace.create, bind, get in Hcw.
      destruct (find _ (Workspace.flavours w)) as [p|] eqn:Hfind;
        [|discriminate].
      destruct (createWorkspace_returned env p _ w wc md Hcw)
        as (wi & wi' & Ha & Hi).
      exists p, md, wi, wi', wc, ok. auto 10.
    + intros op Hin Hop. exfalso. rewrite Hev in Hin.
      apply elem_of_app in Hin as [Hin|Hin].
      * rewrite Forall_forall in Hok. specialize (Hok _ Hin). discriminate.
      * apply list_elem_of_singleton in Hin. inversion Hin; subst.
        apply Hop. exact I.
    + intros p cid wi e wi' Hfind Ha Hi. exfalso.
      unfold Workspace.create, bind, get in Hc. rewrite Hfind in Hc.
      rewrite (createWorkspace_unwinds env p _ w wi wi' cid e Ha Hi) in Hc.
      destruct (Workspace.fault env wi' _); discriminate.
Qed.

Lemma delete_only_after_seeded_create_witness :
  ~ Workspace.deleteInvoked
      (Workspace.added Workspace.emptyWorld
         (Workspace.transformLocalToCloud Workspace.quotaExceeded
            Workspace.W1 "A1" "affine-cloud" Workspace.emptyWorld).2).
Proof.
  destruct (delete_only_after_seeded_create Workspace.quotaExceeded
              Workspace.W1 "A1" "affine-cloud" Workspace.emptyWorld)
    as (_ & Hfail & _).
  apply (Hfail (Workspace.IdbBlobSet ("affine-cloud", "cloud-0") "b1")).
  - apply list_elem_of_In. vm_compute. tauto.
  - simpl. tauto.
Defined.

(** C2 (as amended): when the initializer throws, [createWorkspace] throws
    as well and returns no metadata, disposes the document collection in
    its [finally] block, and adds nothing of its own: the local workspace
    id list and the IndexedDB stores are left exactly as the initializer
    left them (there is no rollback of what the initializer wrote). *)
Theorem createWorkspace_failed_initializer (env : Workspace.Env)
    (p : Workspace.Provider) (initial : Workspace.Initializer)
    (w wi wi' : Workspace.World) (cid : string) (e : JsThrown) :
  Workspace.allocateId env p w = (Returned cid, wi) ->
  initial cid (Workspace.peerId p, cid) (Workspace.peerId p, cid) wi
  = (Thrown e, wi') ->
  let run := Workspace.createWorkspace env p initial w in
  (exists e' ok,
     run = (Thrown e',
            Workspace.logEvent (Workspace.DisposeCollection cid) ok wi') /\
     (ok = true -> e' = e)) /\
  Workspace.getLocalWorkspaceIds run.2 = Workspace.getLocalWorkspaceIds wi' /\
  Workspace.idbDocs run.2 = Workspace.idbDocs wi' /\
  Workspace.idbBlobs run.2 = Workspace.idbBlobs wi'.
Proof.
  intros Ha Hi run. subst run.
  rewrite (createWorkspace_unwinds env p initial w wi wi' cid e Ha Hi).
  destruct (Workspace.fault env wi' (Workspace.DisposeCollection cid))
    as [e'|]; simpl.
  - split; [|auto]. exists e', false. split; [reflexivity|discriminate].
  - split; [|auto]. exists e, true. split; reflexivity.
Qed.

Lemma createWorkspace_failed_initializer_witness :
  (Workspace.createWorkspace Workspace.calm Workspace.LocalProvider
     Workspace.storeThenFail Workspace.emptyWorld).1
  = Thrown (NewError "seed failed") /\
  Workspace.getLocalWorkspaceIds
    (Workspace.createWorkspace Workspace.calm Workspace.LocalProvider
       Workspace.storeThenFail Workspace.emptyWorld).2 = [].
Proof.
  destruct (createWorkspace_failed_initializer Workspace.calm
              Workspace.LocalProvider Workspace.storeThenFail
              Workspace.emptyWorld
              (Workspace.logEvent Workspace.Nanoid true Workspace.emptyWorld)
              (Workspace.storeThenFail "local-0" ("local", "local-0")
                 ("local", "local-0")
                 (Workspace.logEvent Workspace.Nanoid true
                    Workspace.emptyWorld)).2
              "local-0" (NewError "seed failed") eq_refl eq_refl)
    as ((e' & ok & Hrun & He) & Hids & _).
  split.
  - rewrite Hrun. simpl. vm_compute in Hrun.
    destruct ok; [rewrite He; reflexivity|discriminate].
  - rewrite Hids. reflexivity.
Defined.

(** C2 (as stated) fails: an initializer that stored a blob before it
    threw leaves that blob in the IndexedDB store of the new id. *)
Lemma failed_initializer_leaves_blob :
  let run := Workspace.createWorkspace Workspace.calm Workspace.LocalProvider
               Workspace.storeThenFail Workspace.emptyWorld in
  run.1 = Thrown (NewError "seed failed") /\
  Workspace.idbBlobs Workspace.emptyWorld = ∅ /\
  Workspace.idbBlobs run.2 !! ("local", "local-0", "b1")
  = Some Workspace.pngBlob.
Proof. vm_compute. auto. Qed.

(** C8: a source workspace whose flavour is not "local" makes the transform
    fail at once with the precondition error; the world is untouched, so no
    migration step ran and nothing was retried. *)
Theorem transform_requires_local (env : Workspace.Env)
    (local : Workspace.Workspace) (accountId fl : string)
    (w : Workspace.World) :
  Workspace.wsFlavour local <> "local" ->
  Workspace.transformLocalToCloud env local accountId fl w
  = (Thrown (BlockSuiteError "ValueNotEqual" "val is not same as expected"),
     w) /\
  Workspace.added w
    (Workspace.transformLocalToCloud env local accountId fl w).2 = [].
Proof.
  intros Hfl. rewrite transform_wrong_flavour by assumption.
  split; [reflexivity|]. apply added_same.
Qed.

Lemma transform_requires_local_witness :
  Workspace.transformLocalToCloud Workspace.calm Workspace.cloudOrigin
    "A1" "affine-cloud" Workspace.emptyWorld
  = (Thrown (BlockSuiteError "ValueNotEqual" "val is not same as expected"),
     Workspace.emptyWorld).
Proof.
  apply (transform_requires_local Workspace.calm Workspace.cloudOrigin
           "A1" "affine-cloud" Workspace.emptyWorld).
  simpl. discriminate.
Defined.

Section NothingThrows.
Import Workspace.
Context (env : Env).
Hypothesis no_fault : forall w op, fault env w op = None.

Lemma succeeds_ret {A} (a : A) : Succeeds (@ret World A a).
Proof. intros w. eexists. reflexivity. Qed.

Lemma succeeds_get : Succeeds (@get World).
Proof. intros w. eexists. reflexivity. Qed.

Lemma succeeds_modify (f : World -> World) : Succeeds (modify f).
Proof. intros w. eexists. reflexivity. Qed.

Lemma succeeds_request {A} (op : Op) (value : World -> A) :
  Succeeds (request env op value).
Proof. intros w. unfold request. rewrite no_fault. eexists. reflexivity. Qed.

Lemma succeeds_bind {A B} (c : M World A) (k : A -> M World B) :
  Succeeds c -> (forall a, Succeeds (k a)) -> Succeeds (bind c k).
Proof.
  intros Hc Hk w. unfold bind. destruct (Hc w) as [a Ha].
  destruct (c w) as [r w1]. simpl in Ha. subst r. apply Hk.
Qed.

Lemma succeeds_try_finally {A} (body : M World A) (fin : M World unit) :
  Succeeds body -> Succeeds fin -> Succeeds (try_finally body fin).
Proof.
  intros Hb Hf w. unfold try_finally. destruct (Hb w) as [a Ha].
  destruct (body w) as [r w1]. simpl in Ha. subst r.
  destruct (Hf w1) as [u Hu]. destruct (fin w1) as [r w2].
  simpl in Hu. subst r. eexists. reflexivity.
Qed.

Lemma succeeds_for_of {A} (xs : list A) (f : A -> M World unit) :
  (forall x, Succeeds (f x)) -> Succeeds (for_of xs f).
Proof.
  intros Hf. induction xs as [|x rest IH]; simpl.
  - apply succeeds_ret.
  - apply succeeds_bind; auto.
Qed.

Lemma succeeds_write (op : Op) (f : World -> World) :
  Succeeds (request env op (fun _ => tt) ;; modify f).
Proof.
  apply succeeds_bind; [apply succeeds_request|].
  intros _. apply succeeds_modify.
Qed.

Lemma succeeds_saveCollection (c : string) (st : StorageId) :
  Succeeds (saveCollection env c st).
Proof.
  apply succeeds_bind; [apply succeeds_get|intros w].
  apply succeeds_bind; [apply succeeds_write|intros _].
  apply succeeds_bind; [apply succeeds_get|intros w1].
  apply succeeds_for_of. intros guid.
  apply succeeds_bind; [apply succeeds_get|intros w2].
  apply succeeds_write.
Qed.

Lemma succeeds_seed (local : Workspace) (accountId c : string)
    (bs ds : StorageId) (client : Engine.WorkerClient) :
  Engine.worker (wsEngine local) = Some client ->
  Succeeds (seed env local accountId c bs ds).
Proof.
  intros Hw.
  apply succeeds_bind.
  { apply succeeds_bind; [apply succeeds_request|].
    intros [r|]; [apply succeeds_write|apply succeeds_ret]. }
  intros _. apply succeeds_bind; [apply succeeds_get|intros w].
  apply succeeds_bind.
  { apply succeeds_for_of. intros guid.
    apply succeeds_bind; [apply succeeds_request|].
    intros [r|]; [apply succeeds_write|apply succeeds_ret]. }
  intros _. apply succeeds_bind; [apply succeeds_request|intros _].
  apply succeeds_bind.
  { intros w1. unfold engineAccessor, Engine.blob. rewrite Hw.
    eexists. reflexivity. }
  intros _. apply succeeds_bind; [apply succeeds_request|intros keys].
  apply succeeds_for_of. intros k.
  apply succeeds_bind; [apply succeeds_request|].
  intros [r|]; [apply succeeds_write|apply succeeds_ret].
Qed.

Lemma succeeds_afterSeed (p : Provider) (c : string) :
  Succeeds (afterSeed env p c).
Proof.
  destruct p as [|serverId]; simpl.
  - apply succeeds_bind; [apply succeeds_saveCollection|intros _].
    apply succeeds_bind; [|intros _; apply succeeds_request].
    apply succeeds_bind; [apply succeeds_get|intros w].
    apply succeeds_write.
  - apply succeeds_bind; [apply succeeds_saveCollection|intros _].
    apply succeeds_bind; [apply succeeds_request|intros _].
    apply succeeds_request.
Qed.

Lemma succeeds_createWorkspace (p : Provider) (initial : Initializer) :
  (forall c bs ds, Succeeds (initial c bs ds)) ->
  Succeeds (createWorkspace env p initial).
Proof.
  intros Hi. rewrite createWorkspace_shape.
  apply succeeds_bind; [destruct p; apply succeeds_request|intros cid].
  apply succeeds_bind; [|intros md; apply succeeds_ret].
  apply succeeds_try_finally; [|apply succeeds_request].
  apply succeeds_bind; [apply Hi|intros _; apply succeeds_afterSeed].
Qed.

(** With no call throwing, the transform of a started local workspace
    returns and its last call is the deletion of the original. *)
Lemma transform_completes (local : Workspace) (accountId fl : string)
    (w : World) (p : Provider) (client : Engine.WorkerClient) :
  wsFlavour local = "local" ->
  Engine.worker (wsEngine local) = Some client ->
  find (fun p => bool_decide (providerFlavour p = fl)) (flavours w)
  = Some p ->
  exists md wc,
    create env fl (seed env local accountId) w = (Returned md, wc) /\
    transformLocalToCloud env local accountId fl w
    = (Returned md,
       logEvent (DestroyDeleteWorkspace (wsMeta local)) true wc).
Proof.
  intros Hfl Hw Hfind.
  assert (Hdoc : (Engine.doc (wsEngine local)).1
                 = Returned (Engine.docFrontend client)).
  { unfold Engine.doc. rewrite Hw. reflexivity. }
  rewrite (transform_unfold env local accountId fl w _ Hfl Hdoc).
  assert (Hc : exists md, (create env fl (seed env local accountId) w).1
                          = Returned md).
  { unfold create, bind, get. rewrite Hfind.
    apply succeeds_createWorkspace. intros c bs ds.
    eapply succeeds_seed, Hw. }
  destruct Hc as [md Hmd].
  destruct (create env fl (seed env local accountId) w) as [r wc].
  simpl in Hmd. subst r. rewrite no_fault. eauto.
Qed.

End NothingThrows.



(** *** Remaining concrete instances *)

(** The constructor itself reads [doc] before any [start()]. *)
Remark construct_reads_doc_too_early :
  Engine.construct = Thrown (NewError "Engine is not initialized").
Proof. reflexivity. Qed.

Lemma codeUnitCompare_total (a b : string) :
  (0 < Revalidation.codeUnitCompare a b ->
   Revalidation.codeUnitCompare b a <= 0)%Z.
Proof.
  unfold Revalidation.codeUnitCompare.
  destruct (OrdersEx.String_as_OT.compare_spec a b) as [Hab|Hab|Hab];
    try lia.
  intros _.
  destruct (OrdersEx.String_as_OT.compare_spec b a) as [Hba|Hba|Hba];
    try lia.
  exfalso.
  apply (StrictOrder_Irreflexive (R := OrdersEx.String_as_OT.lt) a).
  etransitivity; eassumption.
Qed.

Lemma codeUnitCompare_trans (a b c : string) :
  (Revalidation.codeUnitCompare a b <= 0 ->
   Revalidation.codeUnitCompare b c <= 0 ->
   Revalidation.codeUnitCompare a c <= 0)%Z.
Proof.
  unfold Revalidation.codeUnitCompare.
  destruct (OrdersEx.String_as_OT.compare_spec a b) as [Hab|Hab|Hab];
    try lia;
    destruct (OrdersEx.String_as_OT.compare_spec b c) as [Hbc|Hbc|Hbc];
    try lia;
    destruct (OrdersEx.String_as_OT.compare_spec a c) as [Hac|Hac|Hac];
    try lia; intros _ _; exfalso;
    unfold OrdersEx.String_as_OT.eq in *; subst;
    match goal with
    | H : OrdersEx.String_as_OT.lt ?x ?x |- _ =>
        exact (StrictOrder_Irreflexive x H)
    | H1 : OrdersEx.String_as_OT.lt ?x ?y,
      H2 : OrdersEx.String_as_OT.lt ?y ?x |- _ =>
        exact (StrictOrder_Irreflexive x (transitivity H1 H2))
    | H1 : OrdersEx.String_as_OT.lt ?x ?y,
      H2 : OrdersEx.String_as_OT.lt ?y ?z,
      H3 : OrdersEx.String_as_OT.lt ?z ?x |- _ =>
        exact (StrictOrder_Irreflexive x
                 (transitivity H1 (transitivity H2 H3)))
    end.
Qed.

Lemma revalidate_success_witness :
  let p' := Revalidation.refresh Revalidation.codeUnitCompare
              (Returned Revalidation.twoRows) (Some "A1")
              Revalidation.loggedOut in
  Revalidation.workspaces p'
  = [ {| id := "w-a"; flavour := "affine-cloud"; initialized := Some false |};
      {| id := "w-b"; flavour := "affine-cloud"; initialized := Some true |} ]
  /\ Revalidation.globalState p' !! "cloud-workspace:A1"
     = Some (Revalidation.workspaces p')
  /\ Revalidation.emitted p' = [Revalidation.workspaces p'].
Proof.
  destruct (revalidate_success Revalidation.codeUnitCompare
              Revalidation.loggedOut "A1" Revalidation.twoRows
              codeUnitCompare_total codeUnitCompare_trans)
    as (_ & _ & Hcache & _ & Hemit).
  { discriminate. }
  destruct Hemit as [Hw He]; [discriminate|].
  cbv zeta. rewrite Hw, Hcache, He. split; [reflexivity|].
  split; [|reflexivity]. apply lookup_insert_eq.
Defined.

Lemma cloud_blob_get_not_found_witness :
  CloudBlob.get CloudBlob.emptyBucket "W2" "b1" = Returned None.
Proof.
  destruct (cloud_blob_get_not_found CloudBlob.emptyBucket "W2" "b1")
    as [Hnull _].
  eapply Hnull; reflexivity.
Defined.

Lemma registry_lookup_total_witness :
  Registry.getAvailableStorageImplementations "toString"
  = Returned (Registry.Inherited "toString") /\
  Registry.getAvailableStorageImplementations "CloudBlobStorage"
  = Returned (Registry.Implementation Registry.CloudBlobStorage).
Proof.
  split.
  - destruct (registry_lookup_total "toString") as (r & Hr & _ & Hun).
    rewrite Hr. destruct Hun as [Hu|Hu].
    + rewrite registered_iff_owned. intros [c Hc]. vm_compute in Hc.
      discriminate.
    + subst r. vm_compute in Hr. discriminate.
    + subst r. reflexivity.
  - destruct (registry_lookup_total "CloudBlobStorage") as (r & Hr & Hex & _).
    rewrite Hr. f_equal. apply Hex. reflexivity.
Defined.

(** * Further properties of the modelled code *)

(** ** WorkspaceEngine.start *)

(** X1: [start()] on an engine that was not started makes its outside
    calls in one fixed order (announce, open the worker, give the root doc
    priority 100, add it, start the doc sync, connect awareness) and stops
    at the first one that throws.  The worker handle and its disposer are
    recorded exactly when [openWorker] returned, the doc-sync stopper
    exactly when [doc.start()] returned. *)
Theorem start_call_order (env : Engine.Collaborators)
    (e : Engine.WorkspaceEngine) :
  Engine.started e = false ->
  let client :=
    Engine.openWorkerClient env
      (Engine.logCall Engine.OpenWorker true
         (Engine.logCall Engine.EmitBeforeStart true
            (Engine.setStarted true e))) in
  let plan :=
    [ Engine.EmitBeforeStart; Engine.OpenWorker;
      Engine.AddPriority (Engine.docFrontend client)
        (Engine.rootDocGuid env) 100;
      Engine.AddDoc (Engine.docFrontend client) (Engine.rootDocGuid env) true;
      Engine.DocStart (Engine.docFrontend client);
      Engine.AwarenessConnect (Engine.awarenessFrontend client) ] in
  let e' := (Engine.start env e).2 in
  exists n : nat,
    n <= 6 /\
    Engine.calls e'
    = Engine.calls e ++ map (fun c => (c, true)) (take n plan)
      ++ match plan !! n with Some c => [(c, false)] | None => [] end /\
    (isThrown (Engine.start env e).1 = false <-> n = 6) /\
    Engine.worker e' = (if decide (2 <= n) then Some client
                        else Engine.worker e) /\
    Engine.disposables e'
    = Engine.disposables e
      ++ (if decide (2 <= n) then [Engine.DisposeWorker] else [])
      ++ (if decide (5 <= n) then [Engine.StopDoc] else []).
Proof.
  intros Hs client plan e'. subst e'.
  unfold Engine.start, bind, get, modify, Engine.call, Engine.doc,
    Engine.awareness, throw. simpl. rewrite Hs. simpl.
  destruct (Engine.fault env _ Engine.EmitBeforeStart); simpl.
  { exists 0. simpl. rewrite app_nil_r. repeat split; try lia; discriminate. }
  destruct (Engine.fault env _ Engine.OpenWorker); simpl.
  { exists 1. simpl. rewrite app_nil_r, <- app_assoc.
    repeat split; try lia; discriminate. }
  fold client.
  destruct (Engine.fault env _ (Engine.AddPriority _ _ _)); simpl.
  { exists 2. simpl. rewrite <- !app_assoc.
    repeat split; try lia; discriminate. }
  destruct (Engine.fault env _ (Engine.AddDoc _ _ _)); simpl.
  { exists 3. simpl. rewrite <- !app_assoc.
    repeat split; try lia; discriminate. }
  destruct (Engine.fault env _ (Engine.DocStart _)); simpl.
  { exists 4. simpl. rewrite <- !app_assoc.
    repeat split; try lia; discriminate. }
  destruct (Engine.fault env _ (Engine.AwarenessConnect _)); simpl.
  { exists 5. simpl. rewrite <- !app_assoc.
    repeat split; try lia; discriminate. }
  exists 6. simpl. rewrite <- !app_assoc. repeat split; lia.
Qed.

Lemma start_call_order_witness :
  exists n : nat,
    n <= 6 /\
    (isThrown (Engine.start Engine.brokenProvider Engine.fresh).1 = false
     <-> n = 6) /\
    Engine.disposables (Engine.start Engine.brokenProvider Engine.fresh).2
    = (if decide (2 <= n) then [Engine.DisposeWorker] else [])
      ++ (if decide (5 <= n) then [Engine.StopDoc] else []).
Proof.
  destruct (start_call_order Engine.brokenProvider Engine.fresh eq_refl)
    as (n & Hn & _ & Hr & _ & Hdisp).
  exists n. split; [exact Hn|]. split; [exact Hr|]. exact Hdisp.
Defined.

(** ** Cloud revalidation *)

Section RevalidationFurther.
Import Revalidation.
Context (localeCompare : string -> string -> Z).

Lemma sorted_permutation_unique {A} (R : A -> A -> Prop) (l1 l2 : list A) :
  StronglySorted R l1 -> StronglySorted R l2 -> l1 ≡ₚ l2 ->
  (forall x y, x ∈ l1 -> y ∈ l1 -> R x y -> R y x -> x = y) ->
  l1 = l2.
Proof.
  intros H1. revert l2. induction H1 as [|x l1 Hs1 IH Hall1];
    intros l2 H2 Hperm Hanti.
  - symmetry. apply Permutation_nil_r. symmetry. exact Hperm.
  - destruct H2 as [|y l2 Hs2 Hall2].
    { apply Permutation_nil_r in Hperm. discriminate. }
    assert (Hxy : x = y).
    { assert (Hx : x ∈ y :: l2) by (rewrite <- Hperm; left).
      assert (Hy : y ∈ x :: l1) by (rewrite Hperm; left).
      apply elem_of_cons in Hx as [Hx|Hx]; [exact Hx|].
      apply elem_of_cons in Hy as [Hy|Hy]; [symmetry; exact Hy|].
      rewrite Forall_forall in Hall1, Hall2.
      apply Hanti; [left|right; exact Hy|auto|auto]. }
    subst y. f_equal. apply IH; [exact Hs2| |].
    + eapply Permutation_cons_inv. exact Hperm.
    + intros a b Ha Hb. apply Hanti; right; assumption.
Qed.

Lemma refresh_serverId (gql : Outcome (list RemoteWorkspace))
    (accountId : option string) (p : Provider) :
  serverId (refresh localeCompare gql accountId p) = serverId p.
Proof.
  unfold refresh, fetchWorkspaces, commit.
  destruct accountId as [a|]; [|reflexivity].
  case_bool_decide; [reflexivity|].
  destruct gql as [rows|e]; [|reflexivity].
  simpl. case_bool_decide; reflexivity.
Qed.

(** The state a successful refresh ends in. *)
Lemma refresh_success_state (p : Provider) (a : string)
    (rows : list RemoteWorkspace) :
  a <> "" ->
  let sorted :=
    sortById localeCompare
      (map (fun r => {| id := remoteId r; flavour := serverId p;
                        initialized := Some (remoteInitialized r) |}) rows) in
  refresh localeCompare (Returned rows) (Some a) p
  = {| serverId := serverId p;
       workspaces := sorted;
       emitted := if bool_decide (workspaces p = sorted) then emitted p
                  else emitted p ++ [sorted];
       globalState :=
         <[getCloudWorkspaceCacheKey (serverId p) +:+ a := sorted]>
           (globalState p);
       error := error p;
       isRevalidating := false |}.
Proof.
  intros Ha sorted. unfold refresh, fetchWorkspaces, commit.
  rewrite bool_decide_eq_false_2 by assumption. simpl. fold sorted.
  case_bool_decide as Heq; simpl; [|reflexivity].
  rewrite <- Heq. reflexivity.
Qed.

End RevalidationFurther.

Lemma append_inj_r (s a b : string) : s +:+ a = s +:+ b -> a = b.
Proof.
  induction s as [|c s IH]; simpl; [auto|]. intros [= H]. auto.
Qed.

(** X2: repeating a successful refresh with the same server answer changes
    nothing: no second emission, same cache, same list. *)
Theorem refresh_twice_is_quiet (localeCompare : string -> string -> Z)
    (p : Revalidation.Provider) (a : string)
    (rows : list Revalidation.RemoteWorkspace) :
  a <> "" ->
  let p1 := Revalidation.refresh localeCompare (Returned rows) (Some a) p in
  Revalidation.refresh localeCompare (Returned rows) (Some a) p1 = p1.
Proof.
  intros Ha p1.
  rewrite (refresh_success_state localeCompare p1 a rows Ha).
  subst p1. rewrite !refresh_serverId.
  rewrite (refresh_success_state localeCompare p a rows Ha). simpl.
  rewrite bool_decide_eq_true_2 by reflexivity.
  rewrite insert_insert_eq. reflexivity.
Qed.

Lemma refresh_twice_is_quiet_witness :
  Revalidation.emitted
    (Revalidation.refresh Revalidation.codeUnitCompare
       (Returned Revalidation.twoRows) (Some "A1")
       (Revalidation.refresh Revalidation.codeUnitCompare
          (Returned Revalidation.twoRows) (Some "A1")
          Revalidation.loggedOut))
  = Revalidation.emitted
      (Revalidation.refresh Revalidation.codeUnitCompare
         (Returned Revalidation.twoRows) (Some "A1") Revalidation.loggedOut).
Proof.
  rewrite (refresh_twice_is_quiet Revalidation.codeUnitCompare
             Revalidation.loggedOut "A1" Revalidation.twoRows);
    [reflexivity|discriminate].
Defined.

(** X3: with a consistent comparator that never ranks two different rows
    as equal, the order in which the server lists the workspaces does not
    matter: the sorted list is the same, so a refresh that returns the same
    rows in another order emits nothing. *)
Theorem refresh_ignores_server_order (localeCompare : string -> string -> Z)
    (p : Revalidation.Provider) (a : string)
    (rows rows' : list Revalidation.RemoteWorkspace) :
  (forall a b, (0 < localeCompare a b -> localeCompare b a <= 0)%Z) ->
  (forall a b c, (localeCompare a b <= 0 -> localeCompare b c <= 0 ->
                  localeCompare a c <= 0)%Z) ->
  (forall r1 r2, r1 ∈ rows -> r2 ∈ rows ->
     (localeCompare (Revalidation.remoteId r1) (Revalidation.remoteId r2)
      <= 0)%Z ->
     (localeCompare (Revalidation.remoteId r2) (Revalidation.remoteId r1)
      <= 0)%Z ->
     r1 = r2) ->
  rows' ≡ₚ rows ->
  a <> "" ->
  let p1 := Revalidation.refresh localeCompare (Returned rows) (Some a) p in
  Revalidation.refresh localeCompare (Returned rows') (Some a) p1 = p1.
Proof.
  intros Htot Htrans Hstrict Hperm Ha p1.
  set (toMeta := fun r => {| id := Revalidation.remoteId r;
                             flavour := Revalidation.serverId p;
                             initialized :=
                               Some (Revalidation.remoteInitialized r) |}).
  assert (Hsame : Revalidation.sortById localeCompare (map toMeta rows')
                  = Revalidation.sortById localeCompare (map toMeta rows)).
  { apply (sorted_permutation_unique
             (Revalidation.notAfter localeCompare)).
    - apply sortById_sorted; assumption.
    - apply sortById_sorted; assumption.
    - rewrite !sortById_perm. apply Permutation_map, Hperm.
    - intros x y Hx Hy Hxy Hyx.
      rewrite sortById_perm, Hperm in Hx, Hy.
      apply list_elem_of_fmap in Hx as (r1 & -> & Hr1).
      apply list_elem_of_fmap in Hy as (r2 & -> & Hr2).
      f_equal. apply Hstrict; assumption. }
  rewrite (refresh_success_state localeCompare p1 a rows' Ha).
  subst p1. rewrite !refresh_serverId.
  rewrite (refresh_success_state localeCompare p a rows Ha). simpl.
  fold toMeta. rewrite Hsame.
  rewrite bool_decide_eq_true_2 by reflexivity.
  rewrite insert_insert_eq. reflexivity.
Qed.

Lemma refresh_ignores_server_order_witness :
  Revalidation.refresh Revalidation.codeUnitCompare
    (Returned Samples.twoRowsReversed) (Some "A1")
    (Revalidation.refresh Revalidation.codeUnitCompare
       (Returned Revalidation.twoRows) (Some "A1") Revalidation.loggedOut)
  = Revalidation.refresh Revalidation.codeUnitCompare
      (Returned Revalidation.twoRows) (Some "A1") Revalidation.loggedOut.
Proof.
  apply (refresh_ignores_server_order Revalidation.codeUnitCompare
           Revalidation.loggedOut "A1" Revalidation.twoRows
           Samples.twoRowsReversed
           codeUnitCompare_total codeUnitCompare_trans).
  - intros r1 r2 H1 H2.
    apply list_elem_of_In in H1. apply list_elem_of_In in H2.
    simpl in H1, H2.
    destruct H1 as [<-|[<-|[]]]; destruct H2 as [<-|[<-|[]]];
      vm_compute; intros Ha Hb; try reflexivity;
      exfalso; first [apply Ha; reflexivity | apply Hb; reflexivity].
  - apply perm_swap.
  - discriminate.
Defined.

(** X4: when the workspace query fails, the error goes to [error$] and
    nothing else moves: the shown list, the emissions and the cache are as
    before, and the revalidating flag is cleared. *)
Theorem refresh_error_is_captured (localeCompare : string -> string -> Z)
    (p : Revalidation.Provider) (a : string) (e : JsThrown) :
  a <> "" ->
  let p' := Revalidation.refresh localeCompare (Thrown e) (Some a) p in
  Revalidation.error p' = Some e /\
  Revalidation.workspaces p' = Revalidation.workspaces p /\
  Revalidation.emitted p' = Revalidation.emitted p /\
  Revalidation.globalState p' = Revalidation.globalState p /\
  Revalidation.isRevalidating p' = false.
Proof.
  intros Ha. unfold Revalidation.refresh, Revalidation.fetchWorkspaces.
  rewrite bool_decide_eq_false_2 by assumption. simpl. auto.
Qed.

Lemma refresh_error_is_captured_witness :
  Revalidation.error
    (Revalidation.refresh Revalidation.codeUnitCompare
       (Thrown (Rejected "offline")) (Some "A1") Revalidation.loggedOut)
  = Some (Rejected "offline").
Proof.
  apply (refresh_error_is_captured Revalidation.codeUnitCompare
           Revalidation.loggedOut "A1" (Rejected "offline")).
  discriminate.
Defined.



(** X6: the cache written by a successful refresh is what a later account
    change to the same account shows, and a refresh for one account leaves
    the cached list of every other account of that server untouched. *)
Theorem refresh_cache_per_account (localeCompare : string -> string -> Z)
    (p : Revalidation.Provider) (a other : string)
    (rows : list Revalidation.RemoteWorkspace) :
  a <> "" ->
  let p' := Revalidation.refresh localeCompare (Returned rows) (Some a) p in
  Revalidation.workspaces (Revalidation.onAccountChanged (Some a) p')
  = Revalidation.workspaces p' /\
  (other <> a ->
   Revalidation.globalState p'
     !! (Revalidation.getCloudWorkspaceCacheKey (Revalidation.serverId p')
           +:+ other)
   = Revalidation.globalState p
       !! (Revalidation.getCloudWorkspaceCacheKey (Revalidation.serverId p)
             +:+ other)).
Proof.
  intros Ha p'. subst p'.
  rewrite (refresh_success_state localeCompare p a rows Ha). simpl.
  split.
  - unfold Revalidation.onAccountChanged.
    rewrite bool_decide_eq_false_2 by assumption. simpl.
    rewrite lookup_insert_eq. reflexivity.
  - intros Hne. apply lookup_insert_ne.
    intros Heq. apply append_inj_r in Heq. congruence.
Qed.

Lemma refresh_cache_per_account_witness :
  Revalidation.workspaces
    (Revalidation.onAccountChanged (Some "A1")
       (Revalidation.refresh Revalidation.codeUnitCompare
          (Returned Revalidation.twoRows) (Some "A1")
          Revalidation.loggedOut))
  = Revalidation.workspaces
      (Revalidation.refresh Revalidation.codeUnitCompare
         (Returned Revalidation.twoRows) (Some "A1") Revalidation.loggedOut).
Proof.
  apply (refresh_cache_per_account Revalidation.codeUnitCompare
           Revalidation.loggedOut "A1" "A2" Revalidation.twoRows).
  discriminate.
Defined.

(** ** Cloud blob storage *)

(** X7: [get] looks at the status only to tell 404 apart.  Any other
    status whose body can be read, an error status included, comes back as
    a blob record: its key is the requested key, its bytes and type are
    those of the body, and its creation time is the last-modified header
    or, when that is absent or empty, the current time. *)
Theorem cloud_blob_get_returns_any_body (conn : CloudBlob.Connection)
    (spaceId k : string) (res : CloudBlob.Response) (b : CloudBlob.Blob)
    (buf : bytes) :
  CloudBlob.fetch conn ("/api/workspaces/" +:+ spaceId +:+ "/blobs/" +:+ k)
  = Returned res ->
  CloudBlob.status res <> 404%Z ->
  CloudBlob.blob res = Returned b ->
  CloudBlob.arrayBuffer b = Returned buf ->
  exists r,
    CloudBlob.get conn spaceId k = Returned (Some r) /\
    key r = k /\ data r = buf /\ mime r = CloudBlob.type b /\
    size r = Some (CloudBlob.blobSize b) /\
    (CloudBlob.lastModified res = None \/
     CloudBlob.lastModified res = Some "" ->
     createdAt r = Some (inr (CloudBlob.now conn))) /\
    (forall h, CloudBlob.lastModified res = Some h -> h <> "" ->
     createdAt r = Some (inl h)).
Proof.
  intros Hf Hs Hb Ha. unfold CloudBlob.get.
  rewrite Hf, bool_decide_eq_false_2, Hb, Ha by assumption.
  eexists. split; [reflexivity|]. simpl.
  repeat split.
  - intros [-> | ->]; reflexivity.
  - intros h -> Hh. unfold CloudBlob.headerOrNow.
    rewrite bool_decide_eq_false_2 by assumption. reflexivity.
Qed.

Lemma cloud_blob_get_returns_any_body_witness :
  exists r, CloudBlob.get Providers.failing "W2" "b1" = Returned (Some r) /\
            data r = [60; 33]%Z.
Proof.
  edestruct (cloud_blob_get_returns_any_body Providers.failing "W2" "b1")
    as (r & Hr & _ & Hd & _);
    [reflexivity|simpl; discriminate|reflexivity|reflexivity|].
  exists r. split; assumption.
Defined.

(** ** Flavour providers *)

(** X8: every backend named in the worker init options of either provider
    is one the storage registry resolves to the class of that name; each
    spec carries the workspace id and the provider's peer id; the local
    flavour has no remote group and the cloud flavour exactly one. *)
Theorem init_options_resolve (p : Workspace.Provider)
    (baseUrl workspaceId : string) :
  let options :=
    Providers.getEngineWorkerInitOptions p baseUrl workspaceId in
  (forall spec,
     spec ∈ Providers.localSpecs options ++ concat (Providers.remotes options)
     ->
     (exists c, Registry.getAvailableStorageImplementations
                  (Providers.specName spec)
                = Returned (Registry.Implementation c) /\
                Registry.name c = Providers.specName spec) /\
     Providers.optId (Providers.specOpts spec) = workspaceId /\
     Providers.optPeer (Providers.specOpts spec) = Workspace.peerId p /\
     Providers.optType (Providers.specOpts spec) = "workspace") /\
  length (Providers.remotes options)
  = match p with
    | Workspace.LocalProvider => 0
    | Workspace.CloudProvider _ => 1
    end.
Proof.
  intros options. subst options. split; [|destruct p; reflexivity].
  intros spec Hin. apply list_elem_of_In in Hin.
  destruct p; simpl in Hin;
    repeat (destruct Hin as [<- | Hin];
            [split; [eexists; split; vm_compute; reflexivity|auto]|]);
    destruct Hin.
Qed.

(** X9: the local [workspaces$] never delivers the same list twice in a
    row, its [last] is always the list delivered last, and after each
    message that list is the id list stored at that moment. *)
Theorem local_workspaces_deduplicated (first : Workspace.World)
    (later : list Workspace.World) :
  let s := Providers.observe first later in
  Providers.distinctNeighbours (Providers.delivered s) /\
  Providers.last s = last (Providers.delivered s) /\
  Providers.last s
  = Some (map (fun i => {| id := i; flavour := "local";
                           initialized := None |})
            (Workspace.getLocalWorkspaceIds (default first (last later)))).
Proof.
  unfold Providers.observe.
  assert (Hstep : forall w s,
    Providers.distinctNeighbours (Providers.delivered s) ->
    Providers.last s = last (Providers.delivered s) ->
    let s' := Providers.emit w s in
    Providers.distinctNeighbours (Providers.delivered s') /\
    Providers.last s' = last (Providers.delivered s') /\
    Providers.last s'
    = Some (map (fun i => {| id := i; flavour := "local";
                             initialized := None |})
              (Workspace.getLocalWorkspaceIds w))).
  { intros w s Hd Hl. unfold Providers.emit.
    case_bool_decide as Heq; simpl; [auto|].
    split; [|split; [|reflexivity]].
    - rewrite Hl in Heq. clear Hl.
      induction (Providers.delivered s) as [|x [|y rest] IH]; simpl in *.
      + exact I.
      + split; [congruence|exact I].
      + destruct Hd as [Hxy Hd]. split; [exact Hxy|]. apply IH; assumption.
    - rewrite last_snoc. reflexivity. }
  revert first. induction later as [|w later IH] using rev_ind; intros first.
  - change (default first (last [])) with first. cbn [foldl].
    apply Hstep; simpl; auto.
  - rewrite foldl_app, last_snoc. cbn [foldl].
    change (default first (Some w)) with w.
    destruct (IH first) as (Hd & Hl & _). apply Hstep; assumption.
Qed.

Section KeepsLemmas.
Import Workspace Providers.
Context (env : Env) {X : Type} (f : World -> X).
Hypothesis f_ignores_trace : forall op ok w, f (logEvent op ok w) = f w.

Lemma keeps_ret {A} (a : A) : Keeps f (@ret World A a).
Proof. intros w. reflexivity. Qed.

Lemma keeps_get : Keeps f (@get World).
Proof. intros w. reflexivity. Qed.

Lemma keeps_accessor {A} (acc : M Engine.WorkspaceEngine A)
    (e : Engine.WorkspaceEngine) : Keeps f (engineAccessor acc e).
Proof. intros w. reflexivity. Qed.

Lemma keeps_request {A} (op : Op) (value : World -> A) :
  Keeps f (request env op value).
Proof.
  intros w. unfold request. destruct (fault env w op); simpl; auto.
Qed.

Lemma keeps_bind {A B} (c : M World A) (k : A -> M World B) :
  Keeps f c -> (forall a, Keeps f (k a)) -> Keeps f (bind c k).
Proof.
  intros Hc Hk w. unfold bind. specialize (Hc w).
  destruct (c w) as [[a|e] w1]; simpl in *; [|exact Hc].
  rewrite Hk. exact Hc.
Qed.

Lemma keeps_write (op : Op) (g : World -> World) :
  (forall w, f (g w) = f w) ->
  Keeps f (request env op (fun _ => tt) ;; modify g).
Proof.
  intros Hg. apply keeps_bind; [apply keeps_request|].
  intros _ w. simpl. apply Hg.
Qed.

Lemma keeps_for_of {A} (xs : list A) (body : A -> M World unit) :
  (forall x, Keeps f (body x)) -> Keeps f (for_of xs body).
Proof.
  intros Hb. induction xs as [|x rest IH]; simpl.
  - apply keeps_ret.
  - apply keeps_bind; auto.
Qed.

Lemma keeps_saveCollection (c : string) (st : StorageId) :
  (forall r, Keeps f (pushDocUpdate env st r)) ->
  Keeps f (saveCollection env c st).
Proof.
  intros Hpush.
  apply keeps_bind; [apply keeps_get|intros w].
  apply keeps_bind; [apply Hpush|intros _].
  apply keeps_bind; [apply keeps_get|intros w1].
  apply keeps_for_of. intros guid.
  apply keeps_bind; [apply keeps_get|intros w2]. apply Hpush.
Qed.

End KeepsLemmas.

Lemma bind_returned {S A B} (c : M S A) (k : A -> M S B) (s s1 : S) (a : A) :
  c s = (Returned a, s1) -> bind c k s = k a s1.
Proof. intros H. unfold bind. rewrite H. reflexivity. Qed.

Lemma keeps_ids_saveCollection (env : Workspace.Env) (c : string)
    (st : Workspace.StorageId) :
  Providers.Keeps Workspace.localStorage (Workspace.saveCollection env c st).
Proof.
  apply keeps_saveCollection.
  intros r. apply keeps_write; reflexivity.
Qed.

(** What [setLocalWorkspaceIds] leaves behind when [setItem] returns. *)
Lemma setLocalWorkspaceIds_returned (env : Workspace.Env)
    (updater : list string -> list string) (w w' : Workspace.World) :
  Workspace.setLocalWorkspaceIds env updater w = (Returned tt, w') ->
  Workspace.getLocalWorkspaceIds w'
  = updater (Workspace.getLocalWorkspaceIds w) /\
  Workspace.trace w'
  = Workspace.trace w
    ++ [(Workspace.LocalStorageSetItem
           Workspace.LOCAL_WORKSPACE_LOCAL_STORAGE_KEY, true)] /\
  Workspace.idbBlobs w' = Workspace.idbBlobs w /\
  Workspace.idbDocs w' = Workspace.idbDocs w.
Proof.
  unfold Workspace.setLocalWorkspaceIds, bind, get, Workspace.request, modify.
  destruct (Workspace.fault env w _); [discriminate|].
  intros [= <-]. unfold Workspace.getLocalWorkspaceIds at 1. simpl.
  rewrite lookup_insert_eq. auto.
Qed.

Lemma deleteLocalWorkspace_web_run (env : Workspace.Env)
    (electronDelete : string -> M Workspace.World unit) (wid : string)
    (w w' : Workspace.World) :
  Providers.deleteLocalWorkspace env false electronDelete wid w
  = (Returned tt, w') ->
  Workspace.getLocalWorkspaceIds w'
  = filter (fun x => x <> wid) (Workspace.getLocalWorkspaceIds w) /\
  (wid ∉ Workspace.getLocalWorkspaceIds w') /\
  Workspace.trace w'
  = Workspace.trace w
    ++ [(Workspace.LocalStorageSetItem
           Workspace.LOCAL_WORKSPACE_LOCAL_STORAGE_KEY, true);
        (Workspace.PostMessage (Some wid), true)].
Proof.
  unfold Providers.deleteLocalWorkspace. unfold bind at 1.
  destruct (Workspace.setLocalWorkspaceIds env _ w) as [[[]|e] w1] eqn:Hset;
    [|discriminate].
  apply setLocalWorkspaceIds_returned in Hset as (Hids & Htr & _).
  unfold bind, ret, Workspace.request.
  destruct (Workspace.fault env w1 _); [discriminate|].
  intros [= <-]. simpl.
  change (Workspace.getLocalWorkspaceIds
            (Workspace.logEvent (Workspace.PostMessage (Some wid)) true w1))
    with (Workspace.getLocalWorkspaceIds w1).
  rewrite Hids, Htr, <- app_assoc. split; [reflexivity|].
  split; [|reflexivity].
  intros Hin. apply list_elem_of_filter in Hin as [Hne _]. congruence.
Qed.

(** X10: in the web build, when both outside calls return, deleting a
    local workspace removes every occurrence of its id from the stored
    list and keeps the other ids in their order (an unreadable stored list
    counts as empty and is replaced by the empty list); the storage write
    comes first and the broadcast to the other tabs last. *)
Theorem deleteLocalWorkspace_removes_id (env : Workspace.Env)
    (electronDelete : string -> M Workspace.World unit) (wid : string)
    (w w' : Workspace.World) :
  Providers.deleteLocalWorkspace env false electronDelete wid w
  = (Returned tt, w') ->
  Workspace.getLocalWorkspaceIds w'
  = filter (fun x => x <> wid) (Workspace.getLocalWorkspaceIds w) /\
  (wid ∉ Workspace.getLocalWorkspaceIds w') /\
  Workspace.trace w'
  = Workspace.trace w
    ++ [(Workspace.LocalStorageSetItem
           Workspace.LOCAL_WORKSPACE_LOCAL_STORAGE_KEY, true);
        (Workspace.PostMessage (Some wid), true)].
Proof.
  unfold Providers.deleteLocalWorkspace. unfold bind at 1.
  destruct (Workspace.setLocalWorkspaceIds env _ w) as [[[]|e] w1] eqn:Hset;
    [|discriminate].
  apply setLocalWorkspaceIds_returned in Hset as (Hids & Htr & _).
  unfold bind, ret, Workspace.request.
  destruct (Workspace.fault env w1 _); [discriminate|].
  intros [= <-]. simpl.
  change (Workspace.getLocalWorkspaceIds
            (Workspace.logEvent (Workspace.PostMessage (Some wid)) true w1))
    with (Workspace.getLocalWorkspaceIds w1).
  rewrite Hids, Htr, <- app_assoc. split; [reflexivity|].
  split; [|reflexivity].
  intros Hin. apply list_elem_of_filter in Hin as [Hne _]. congruence.
Qed.

Lemma deleteLocalWorkspace_removes_id_witness :
  Workspace.getLocalWorkspaceIds
    (Providers.deleteLocalWorkspace Workspace.calm false
       Providers.brokenElectron "a" Providers.twoLocal).2 = ["b"].
Proof.
  destruct (deleteLocalWorkspace_removes_id Workspace.calm
              Providers.brokenElectron "a" Providers.twoLocal
              (Providers.deleteLocalWorkspace Workspace.calm false
                 Providers.brokenElectron "a" Providers.twoLocal).2 eq_refl)
    as (Hids & _).
  rewrite Hids. reflexivity.
Defined.

(** X11: in the desktop build, when the desktop handler throws, the id
    has already been removed from the stored list, and the other tabs are
    not told: the deletion throws without posting the broadcast. *)
Theorem deleteLocalWorkspace_electron_failure (env : Workspace.Env)
    (electronDelete : string -> M Workspace.World unit) (wid : string)
    (w w1 w2 : Workspace.World) (e : JsThrown) :
  Workspace.setLocalWorkspaceIds env (fun ids => filter (fun x => x <> wid) ids)
    w = (Returned tt, w1) ->
  electronDelete wid w1 = (Thrown e, w2) ->
  Providers.deleteLocalWorkspace env true electronDelete wid w
  = (Thrown e, w2) /\
  wid ∉ Workspace.getLocalWorkspaceIds w1.
Proof.
  intros Hset He. split.
  - unfold Providers.deleteLocalWorkspace.
    rewrite (bind_returned _ _ _ _ _ Hset).
    unfold bind. rewrite He. reflexivity.
  - apply setLocalWorkspaceIds_returned in Hset as (Hids & _).
    rewrite Hids. intros Hin.
    apply list_elem_of_filter in Hin as [Hne _]. congruence.
Qed.

Lemma deleteLocalWorkspace_electron_failure_witness :
  let run := Providers.deleteLocalWorkspace Workspace.calm true
               Providers.brokenElectron "a" Providers.twoLocal in
  run.1 = Thrown (Rejected "ipc") /\
  Workspace.getLocalWorkspaceIds run.2 = ["b"] /\
  Workspace.trace run.2
  = [(Workspace.LocalStorageSetItem "affine-local-workspace", true)].
Proof.
  destruct (deleteLocalWorkspace_electron_failure Workspace.calm
              Providers.brokenElectron "a" Providers.twoLocal
              _ _ (Rejected "ipc") eq_refl eq_refl) as [Hrun _].
  cbv zeta. rewrite Hrun. vm_compute. auto.
Defined.

Lemma filter_absent (x : string) (l : list string) :
  x ∉ l -> filter (fun y => y <> x) l = l.
Proof.
  induction l as [|y l IH]; [reflexivity|].
  intros Hn. apply not_elem_of_cons in Hn as [Hne Hn].
  rewrite filter_cons_True by congruence. f_equal. auto.
Qed.

(** X12: a local [createWorkspace] that returns, run with an initializer
    that leaves localStorage alone, reports the generated id with flavour
    "local", has appended exactly that id to the end of the stored id
    list, and has disposed the collection as its last step.  Deleting that
    workspace afterwards gives back the id list from before the creation
    (provided the generated id was not already listed). *)
Theorem local_create_then_delete (env : Workspace.Env)
    (initial : Workspace.Initializer)
    (electronDelete : string -> M Workspace.World unit)
    (w w1 : Workspace.World) (md : WorkspaceMetadata) :
  (forall c bs ds, Providers.Keeps Workspace.localStorage (initial c bs ds)) ->
  Workspace.createWorkspace env Workspace.LocalProvider initial w
  = (Returned md, w1) ->
  md = {| id := Workspace.nanoid env w; flavour := "local";
          initialized := None |} /\
  Workspace.getLocalWorkspaceIds w1
  = Workspace.getLocalWorkspaceIds w ++ [id md] /\
  last (Workspace.trace w1)
  = Some (Workspace.DisposeCollection (id md), true) /\
  (forall w2,
     Providers.deleteLocalWorkspace env false electronDelete (id md) w1
     = (Returned tt, w2) ->
     id md ∉ Workspace.getLocalWorkspaceIds w ->
     Workspace.getLocalWorkspaceIds w2 = Workspace.getLocalWorkspaceIds w).
Proof.
  intros Hkeep Hrun.
  assert (Hmain :
    md = {| id := Workspace.nanoid env w; flavour := "local";
            initialized := None |} /\
    Workspace.getLocalWorkspaceIds w1
    = Workspace.getLocalWorkspaceIds w ++ [id md] /\
    last (Workspace.trace w1)
    = Some (Workspace.DisposeCollection (id md), true)).
  { rewrite createWorkspace_shape in Hrun. unfold bind at 1 in Hrun.
    simpl Workspace.allocateId in Hrun. unfold Workspace.request at 1 in Hrun.
    destruct (Workspace.fault env w Workspace.Nanoid); [discriminate|].
    set (cid := Workspace.nanoid env w) in *.
    set (wi := Workspace.logEvent Workspace.Nanoid true w) in *.
    unfold bind at 1, try_finally in Hrun. unfold bind at 1 in Hrun.
    pose proof (Hkeep cid (Workspace.peerId Workspace.LocalProvider, cid)
                  (Workspace.peerId Workspace.LocalProvider, cid) wi) as Hk.
    destruct (initial cid _ _ wi) as [[[]|e] wi'];
      [|destruct (Workspace.request env _ _ wi') as [[u|e'] wx];
        discriminate].
    simpl in Hk. simpl Workspace.afterSeed in Hrun.
    unfold bind at 1 in Hrun.
    pose proof (keeps_ids_saveCollection env cid ("local", cid) wi') as Hs.
    destruct (Workspace.saveCollection env cid ("local", cid) wi')
      as [[[]|e] ws]; simpl in Hs.
    2:{ destruct (Workspace.request env _ _ ws) as [[u|e'] wx];
        discriminate. }
    unfold bind at 1 in Hrun.
    destruct (Workspace.setLocalWorkspaceIds env _ ws) as [[[]|e] wl] eqn:Hset.
    2:{ destruct (Workspace.request env _ _ wl) as [[u|e'] wx];
        discriminate. }
    apply setLocalWorkspaceIds_returned in Hset as (Hids & _).
    unfold Workspace.request in Hrun.
    destruct (Workspace.fault env wl _);
      [destruct (Workspace.fault env _ _); discriminate|].
    destruct (Workspace.fault env _ (Workspace.DisposeCollection cid));
      [discriminate|].
    unfold ret in Hrun. injection Hrun as <- <-. simpl.
    split; [reflexivity|]. split.
    - change (Workspace.getLocalWorkspaceIds wl
              = Workspace.getLocalWorkspaceIds w ++ [cid]).
      rewrite Hids. f_equal. unfold Workspace.getLocalWorkspaceIds.
      rewrite Hs, Hk. reflexivity.
    - apply last_snoc. }
  destruct Hmain as (Hmd & Hids & Hlast).
  split; [exact Hmd|]. split; [exact Hids|]. split; [exact Hlast|].
  intros w2 Hdel Hfresh.
  apply deleteLocalWorkspace_web_run in Hdel as (Hdel & _).
  rewrite Hdel, Hids, filter_app, filter_absent by assumption.
  rewrite filter_cons_False, filter_nil by (intros H; apply H; reflexivity).
  apply app_nil_r.
Qed.

Lemma local_create_then_delete_witness :
  Workspace.getLocalWorkspaceIds
    (Workspace.createWorkspace Workspace.calm Workspace.LocalProvider
       Samples.noSeed Providers.twoLocal).2 = ["a"; "b"; "local-0"].
Proof.
  destruct (local_create_then_delete Workspace.calm Samples.noSeed
              Providers.brokenElectron Providers.twoLocal
              (Workspace.createWorkspace Workspace.calm
                 Workspace.LocalProvider Samples.noSeed Providers.twoLocal).2
              {| id := "local-0"; flavour := "local"; initialized := None |})
    as (_ & Hids & _).
  - intros c bs ds w. reflexivity.
  - reflexivity.
  - rewrite Hids. reflexivity.
Defined.

(** ** Migration of blobs *)

Section BlobMigration.
Import Workspace Providers.
Context (env : Env) (local : Workspace) (accountId : string).
Context (keys : list string) (stored : string -> option BlobRecord).

Hypothesis no_fault : forall w op, fault env w op = None.
Hypothesis stable_list : forall w, localBlobKeys env w = keys.
Hypothesis stable_blobs : forall w k, localBlob env w k = stored k.

Lemma copyBlob_step (st : StorageId) (k : string) (w : World) :
  exists w1,
    copyBlob env st k w = (Returned tt, w1) /\
    idbBlobs w1 = match stored k with
                  | Some r => <[(st.1, st.2, key r) := r]> (idbBlobs w)
                  | None => idbBlobs w
                  end.
Proof.
  unfold copyBlob, bind, request. rewrite no_fault, stable_blobs.
  destruct (stored k) as [r|].
  - unfold blobSet, bind, request, modify. rewrite no_fault.
    eexists. split; reflexivity.
  - eexists. split; reflexivity.
Qed.

Lemma copyBlob_loop (st : StorageId) (ks : list string) (w : World) :
  (for_of ks (copyBlob env st) w).1 = Returned tt /\
  idbBlobs (for_of ks (copyBlob env st) w).2
  = copiedBlobs stored st ks (idbBlobs w).
Proof.
  revert w. induction ks as [|k ks IH]; intros w; [split; reflexivity|].
  destruct (copyBlob_step st k w) as (w1 & Hstep & Hb).
  simpl. rewrite (bind_returned _ _ _ _ _ Hstep).
  destruct (IH w1) as [H1 H2]. split; [exact H1|].
  rewrite H2, Hb. reflexivity.
Qed.

Lemma keeps_blobs_copyRoot (c : string) : Keeps idbBlobs (copyRoot env local c).
Proof.
  apply keeps_bind; [apply keeps_request; reflexivity|].
  intros [r|]; [apply keeps_write; reflexivity|apply keeps_ret].
Qed.

Lemma keeps_blobs_copyDoc (c guid : string) :
  Keeps idbBlobs (copyDoc env c guid).
Proof.
  apply keeps_bind; [apply keeps_request; reflexivity|].
  intros [r|]; [apply keeps_write; reflexivity|apply keeps_ret].
Qed.

Lemma keeps_blobs_afterSeed (p : Provider) (c : string) :
  Keeps idbBlobs (afterSeed env p c).
Proof.
  assert (Hsave : forall st, Keeps idbBlobs (saveCollection env c st)).
  { intros st. apply keeps_saveCollection. intros r.
    apply keeps_write; reflexivity. }
  destruct p as [|serverId]; simpl.
  - apply keeps_bind; [apply Hsave|intros _].
    apply keeps_bind; [|intros _; apply keeps_request; reflexivity].
    apply keeps_bind; [apply keeps_get|intros w].
    apply keeps_write; reflexivity.
  - apply keeps_bind; [apply Hsave|intros _].
    apply keeps_bind; [apply keeps_request; reflexivity|intros _].
    apply keeps_request; reflexivity.
Qed.

(** The blob store after the seeding initializer. *)
Lemma seed_blobs (c : string) (bs ds : StorageId) (w : World)
    (client : Engine.WorkerClient) :
  Engine.worker (wsEngine local) = Some client ->
  exists w',
    seed env local accountId c bs ds w = (Returned tt, w') /\
    idbBlobs w' = copiedBlobs stored bs keys (idbBlobs w).
Proof.
  intros Hw. unfold seed.
  assert (Hprefix : exists w1,
    (copyRoot env local c ;;
     w0 <- get ;;
     for_of (subdocGuids env (docUpdates w0 c c)) (copyDoc env c) ;;
     request env (TransformDB (wsId local) c accountId) (fun _ => tt)) w
    = (Returned tt, w1) /\ idbBlobs w1 = idbBlobs w).
  { set (prefix := (copyRoot env local c ;; _)).
    assert (Hs : Succeeds prefix).
    { apply succeeds_bind.
      { apply succeeds_bind; [apply succeeds_request, no_fault|].
        intros [r|]; [apply succeeds_write, no_fault|apply succeeds_ret]. }
      intros _. apply succeeds_bind; [apply succeeds_get|intros w0].
      apply succeeds_bind; [|intros _; apply succeeds_request, no_fault].
      apply succeeds_for_of. intros g.
      apply succeeds_bind; [apply succeeds_request, no_fault|].
      intros [r|]; [apply succeeds_write, no_fault|apply succeeds_ret]. }
    assert (Hk : Keeps idbBlobs prefix).
    { apply keeps_bind; [apply keeps_blobs_copyRoot|intros _].
      apply keeps_bind; [apply keeps_get|intros w0].
      apply keeps_bind; [|intros _; apply keeps_request; reflexivity].
      apply keeps_for_of. intros g. apply keeps_blobs_copyDoc. }
    destruct (Hs w) as [[] Hr]. specialize (Hk w).
    destruct (prefix w) as [r w1]. simpl in *. subst r. eauto. }
  destruct Hprefix as (w1 & Hrun & Hb1).
  pose proof (copyBlob_loop bs keys
                (logEvent LocalBlobList true w1)) as [Hl1 Hl2].
  exists (for_of keys (copyBlob env bs) (logEvent LocalBlobList true w1)).2.
  split.
  - unfold bind in Hrun |- *.
    destruct (copyRoot env local c w) as [[[]|e] wa]; [|discriminate].
    destruct (get wa) as [[w0|e] wb] eqn:Hget; [|discriminate].
    destruct (for_of _ (copyDoc env c) wb) as [[[]|e] wc]; [|discriminate].
    rewrite Hrun. unfold engineAccessor, Engine.blob. rewrite Hw. simpl.
    unfold request. rewrite no_fault, stable_list.
    destruct (for_of keys (copyBlob env bs) (logEvent LocalBlobList true w1))
      as [r w2]. simpl in Hl1. subst r. reflexivity.
  - rewrite Hl2. simpl. rewrite Hb1. reflexivity.
Qed.

(** The blob store after the whole migration. *)
Lemma transform_blobs (fl : string) (w : World) (p : Provider)
    (client : Engine.WorkerClient) :
  wsFlavour local = "local" ->
  Engine.worker (wsEngine local) = Some client ->
  find (fun p => bool_decide (providerFlavour p = fl)) (flavours w)
  = Some p ->
  exists md w',
    transformLocalToCloud env local accountId fl w = (Returned md, w') /\
    flavour md = providerFlavour p /\
    idbBlobs w'
    = copiedBlobs stored (peerId p, id md) keys (idbBlobs w).
Proof.
  intros Hfl Hw Hfind.
  destruct (transform_completes env no_fault local accountId fl w p client
              Hfl Hw Hfind) as (md & wc & Hc & Hrun).
  exists md, (logEvent (DestroyDeleteWorkspace (wsMeta local)) true wc).
  split; [exact Hrun|].
  unfold create, bind, get in Hc. rewrite Hfind in Hc.
  rewrite createWorkspace_shape in Hc. unfold bind at 1 in Hc.
  assert (Ha : exists cid, allocateId env p w
                           = (Returned cid, logEvent
                                (match p with
                                 | LocalProvider => Nanoid
                                 | CloudProvider s => GqlCreateWorkspace s
                                 end) true w)).
  { destruct p; simpl; unfold request; rewrite no_fault; eauto. }
  destruct Ha as [cid Ha]. rewrite Ha in Hc.
  destruct (seed_blobs cid (peerId p, cid) (peerId p, cid)
              (logEvent (match p with
                         | LocalProvider => Nanoid
                         | CloudProvider s => GqlCreateWorkspace s
                         end) true w) client Hw) as (ws & Hseed & Hb).
  unfold bind at 1, try_finally in Hc. unfold bind at 1 in Hc.
  rewrite Hseed in Hc.
  pose proof (keeps_blobs_afterSeed p cid ws) as Hk.
  destruct (afterSeed env p cid ws) as [r wa]. simpl in Hk.
  unfold request in Hc. rewrite no_fault in Hc.
  destruct r as [[]|e]; [|discriminate].
  unfold ret in Hc. injection Hc as <- <-. simpl.
  split; [destruct p; reflexivity|].
  rewrite Hk, Hb. reflexivity.
Qed.

End BlobMigration.

Lemma copiedBlobs_present (stored : string -> option BlobRecord)
    (st : Workspace.StorageId) (keys : list string) (k : string)
    (r : BlobRecord) (m : gmap (string * string * string) BlobRecord) :
  (forall k r, stored k = Some r -> key r = k) ->
  stored k = Some r ->
  k ∈ keys \/ m !! (st.1, st.2, k) = Some r ->
  Providers.copiedBlobs stored st keys m !! (st.1, st.2, k) = Some r.
Proof.
  intros Hkey Hk. revert m.
  induction keys as [|k0 keys IH]; intros m Hin; simpl.
  - destruct Hin as [Hin|Hin]; [inversion Hin|exact Hin].
  - apply IH. destruct (decide (k0 = k)) as [->|Hne].
    + right. rewrite Hk, (Hkey _ _ Hk). apply lookup_insert_eq.
    + destruct Hin as [Hin|Hin].
      * apply elem_of_cons in Hin as [Hin|Hin]; [congruence|left; exact Hin].
      * right. destruct (stored k0) as [r0|] eqn:H0; [|exact Hin].
        rewrite lookup_insert_ne; [exact Hin|].
        rewrite (Hkey _ _ H0). congruence.
Qed.

Lemma copiedBlobs_elsewhere (stored : string -> option BlobRecord)
    (st : Workspace.StorageId) (keys : list string)
    (slot : string * string * string)
    (m : gmap (string * string * string) BlobRecord) :
  (forall k r, k ∈ keys -> stored k = Some r ->
     slot <> (st.1, st.2, key r)) ->
  Providers.copiedBlobs stored st keys m !! slot = m !! slot.
Proof.
  revert m. induction keys as [|k0 keys IH]; intros m Hslot; simpl;
    [reflexivity|].
  rewrite IH by (intros k r Hin; apply Hslot; right; exact Hin).
  destruct (stored k0) as [r0|] eqn:H0; [|reflexivity].
  apply lookup_insert_ne. intros Heq.
  apply (Hslot k0 r0); [left|exact H0|symmetry; exact Heq].
Qed.

(** X13: when no call throws and the local blob store answers
    consistently (the same list and the same records throughout, each
    record filed under its own key), the migration returns and the blob
    store of the new workspace then holds every listed blob that exists
    locally, unchanged; every other slot of the IndexedDB blob stores is as
    it was before. *)
Theorem migration_copies_blobs (env : Workspace.Env)
    (local : Workspace.Workspace) (accountId fl : string)
    (w : Workspace.World) (p : Workspace.Provider)
    (client : Engine.WorkerClient)
    (keys : list string) (stored : string -> option BlobRecord) :
  (forall w op, Workspace.fault env w op = None) ->
  (forall w, Workspace.localBlobKeys env w = keys) ->
  (forall w k, Workspace.localBlob env w k = stored k) ->
  (forall k r, stored k = Some r -> key r = k) ->
  Workspace.wsFlavour local = "local" ->
  Engine.worker (Workspace.wsEngine local) = Some client ->
  find (fun p => bool_decide (Workspace.providerFlavour p = fl))
    (Workspace.flavours w) = Some p ->
  exists md w',
    Workspace.transformLocalToCloud env local accountId fl w
    = (Returned md, w') /\
    flavour md = Workspace.providerFlavour p /\
    (forall k r, k ∈ keys -> stored k = Some r ->
       Workspace.idbBlobs w' !! (Workspace.peerId p, id md, k) = Some r) /\
    (forall slot,
       (forall k, k ∈ keys -> is_Some (stored k) ->
          slot <> (Workspace.peerId p, id md, k)) ->
       Workspace.idbBlobs w' !! slot = Workspace.idbBlobs w !! slot).
Proof.
  intros Hcalm Hlist Hblobs Hkey Hfl Hw Hfind.
  destruct (transform_blobs env local accountId keys stored Hcalm Hlist
              Hblobs fl w p client Hfl Hw Hfind)
    as (md & w' & Hrun & Hflav & Hstore).
  exists md, w'. split; [exact Hrun|]. split; [exact Hflav|].
  rewrite Hstore. split.
  - intros k r Hin Hk.
    apply (copiedBlobs_present stored (Workspace.peerId p, id md));
      auto.
  - intros slot Hslot.
    apply (copiedBlobs_elsewhere stored (Workspace.peerId p, id md)).
    intros k r Hin Hk. simpl. rewrite (Hkey _ _ Hk).
    apply Hslot; [exact Hin|eauto].
Qed.

Lemma migration_copies_blobs_witness :
  exists md w',
    Workspace.transformLocalToCloud Workspace.calm Workspace.W1 "A1"
      "affine-cloud" Workspace.emptyWorld = (Returned md, w') /\
    Workspace.idbBlobs w' !! ("affine-cloud", id md, "b1")
    = Some Workspace.pngBlob.
Proof.
  destruct (migration_copies_blobs Workspace.calm Workspace.W1 "A1"
              "affine-cloud" Workspace.emptyWorld
              (Workspace.CloudProvider "affine-cloud")
              {| Engine.docFrontend := "doc"; Engine.blobFrontend := "blob";
                 Engine.awarenessFrontend := "awareness" |}
              ["b1"; "b2"]
              (fun k => if bool_decide (k = "b1")
                        then Some Workspace.pngBlob else None))
    as (md & w' & Hrun & _ & Hin & _); try reflexivity.
  - intros k r. case_bool_decide as Hk; [|discriminate].
    intros [= <-]. symmetry. exact Hk.
  - exists md, w'. split; [exact Hrun|].
    apply Hin; [set_solver|reflexivity].
Defined.

(** X14: after such a migration to a cloud server, asking the cloud
    provider for a migrated blob of the new workspace returns that blob
    with the same bytes and type from the local store, whatever the server
    connection does. *)
Theorem migrated_blob_is_served_locally (env : Workspace.Env)
    (local : Workspace.Workspace) (accountId serverId : string)
    (w : Workspace.World) (client : Engine.WorkerClient)
    (keys : list string) (stored : string -> option BlobRecord)
    (conn : CloudBlob.Connection) :
  (forall w op, Workspace.fault env w op = None) ->
  (forall w, Workspace.localBlobKeys env w = keys) ->
  (forall w k, Workspace.localBlob env w k = stored k) ->
  (forall k r, stored k = Some r -> key r = k) ->
  Workspace.wsFlavour local = "local" ->
  Engine.worker (Workspace.wsEngine local) = Some client ->
  find (fun p => bool_decide (Workspace.providerFlavour p = serverId))
    (Workspace.flavours w) = Some (Workspace.CloudProvider serverId) ->
  exists md w',
    Workspace.transformLocalToCloud env local accountId serverId w
    = (Returned md, w') /\
    forall k r, k ∈ keys -> stored k = Some r ->
      Providers.getCloudWorkspaceBlob conn serverId w' (id md) k
      = Returned (Some {| Providers.blobData := data r;
                          Providers.blobType := mime r |}).
Proof.
  intros Hcalm Hlist Hblobs Hkey Hfl Hw Hfind.
  destruct (transform_blobs env local accountId keys stored Hcalm Hlist
              Hblobs serverId w (Workspace.CloudProvider serverId) client
              Hfl Hw Hfind)
    as (md & w' & Hrun & _ & Hstore).
  exists md, w'. split; [exact Hrun|].
  intros k r Hin Hk.
  unfold Providers.getCloudWorkspaceBlob, Providers.idbBlobGet. simpl.
  rewrite Hstore.
  rewrite (copiedBlobs_present stored (serverId, id md) keys k r);
    auto.
Qed.

Lemma migrated_blob_is_served_locally_witness :
  exists md w',
    Workspace.transformLocalToCloud Workspace.calm Workspace.W1 "A1"
      "affine-cloud" Workspace.emptyWorld = (Returned md, w') /\
    Providers.getCloudWorkspaceBlob Providers.unreachable "affine-cloud" w'
      (id md) "b1"
    = Returned (Some {| Providers.blobData := [1; 2; 3]%Z;
                        Providers.blobType := "image/png" |}).
Proof.
  destruct (migrated_blob_is_served_locally Workspace.calm Workspace.W1
              "A1" "affine-cloud" Workspace.emptyWorld
              {| Engine.docFrontend := "doc"; Engine.blobFrontend := "blob";
                 Engine.awarenessFrontend := "awareness" |}
              ["b1"; "b2"]
              (fun k => if bool_decide (k = "b1")
                        then Some Workspace.pngBlob else None)
              Providers.unreachable)
    as (md & w' & Hrun & Hget); try reflexivity.
  - intros k r. case_bool_decide as Hk; [|discriminate].
    intros [= <-]. symmetry. exact Hk.
  - exists md, w'. split; [exact Hrun|].
    apply (Hget "b1" Workspace.pngBlob); [set_solver|reflexivity].
Defined.

(** X15: a local source whose engine was never started, or a target
    flavour no provider offers, makes the migration throw ("Engine is not
    initialized", "Unknown workspace flavour: ...") with the world
    untouched: nothing was created and the original was not deleted. *)
Theorem transform_fails_before_any_effect (env : Workspace.Env)
    (local : Workspace.Workspace) (accountId fl : string)
    (w : Workspace.World) :
  Workspace.wsFlavour local = "local" ->
  (Engine.worker (Workspace.wsEngine local) = None ->
   Workspace.transformLocalToCloud env local accountId fl w
   = (Thrown (NewError "Engine is not initialized"), w)) /\
  (forall client,
     Engine.worker (Workspace.wsEngine local) = Some client ->
     find (fun p => bool_decide (Workspace.providerFlavour p = fl))
       (Workspace.flavours w) = None ->
     Workspace.transformLocalToCloud env local accountId fl w
     = (Thrown (NewError ("Unknown workspace flavour: " +:+ fl)), w)).
Proof.
  intros Hfl. split.
  - intros Hw. apply transform_engine_not_started; [exact Hfl|].
    unfold Engine.doc. rewrite Hw. reflexivity.
  - intros client Hw Hfind.
    rewrite (transform_unfold env local accountId fl w
               (Engine.docFrontend client) Hfl).
    + unfold Workspace.create, bind, get. rewrite Hfind. reflexivity.
    + unfold Engine.doc. rewrite Hw. reflexivity.
Qed.

Lemma transform_fails_before_any_effect_witness :
  Workspace.transformLocalToCloud Workspace.calm Workspace.W1 "A1"
    "selfhosted" Workspace.emptyWorld
  = (Thrown (NewError "Unknown workspace flavour: selfhosted"),
     Workspace.emptyWorld).
Proof.
  destruct (transform_fails_before_any_effect Workspace.calm Workspace.W1
              "A1" "selfhosted" Workspace.emptyWorld eq_refl) as [_ Hun].
  apply (Hun {| Engine.docFrontend := "doc"; Engine.blobFrontend := "blob";
                Engine.awarenessFrontend := "awareness" |});
    reflexivity.
Defined.

(** X16: [getWorkspaceBlob] of the cloud provider serves a blob found in
    the local store without asking the server; with nothing stored locally
    a 404 from the server gives null, and a failing request is passed on
    as the error. *)
Theorem cloud_blob_lookup_order (conn : CloudBlob.Connection)
    (serverId wid blobKey : string) (w : Workspace.World) :
  (forall r,
     Workspace.idbBlobs w !! (serverId, wid, blobKey) = Some r ->
     Providers.getCloudWorkspaceBlob conn serverId w wid blobKey
     = Returned (Some (Providers.toDomBlob r))) /\
  (Workspace.idbBlobs w !! (serverId, wid, blobKey) = None ->
   (forall res,
      CloudBlob.fetch conn
        ("/api/workspaces/" +:+ wid +:+ "/blobs/" +:+ blobKey)
      = Returned res ->
      CloudBlob.status res = 404%Z ->
      Providers.getCloudWorkspaceBlob conn serverId w wid blobKey
      = Returned None) /\
   (forall e,
      CloudBlob.fetch conn
        ("/api/workspaces/" +:+ wid +:+ "/blobs/" +:+ blobKey)
      = Thrown e ->
      Providers.getCloudWorkspaceBlob conn serverId w wid blobKey
      = Thrown e)).
Proof.
  unfold Providers.getCloudWorkspaceBlob, Providers.idbBlobGet. simpl.
  split.
  - intros r ->. reflexivity.
  - intros ->. unfold CloudBlob.get. split.
    + intros res -> Hs. rewrite bool_decide_eq_true_2 by assumption.
      reflexivity.
    + intros e ->. reflexivity.
Qed.

Lemma cloud_blob_lookup_order_witness :
  Providers.getCloudWorkspaceBlob CloudBlob.emptyBucket "affine-cloud"
    Workspace.emptyWorld "W2" "b1" = Returned None.
Proof.
  destruct (cloud_blob_lookup_order CloudBlob.emptyBucket "affine-cloud"
              "W2" "b1" Workspace.emptyWorld) as [_ Hmiss].
  destruct (Hmiss eq_refl) as [H404 _].
  eapply H404; reflexivity.
Defined.

(** ** Image ingestion *)

Section ImagesFurther.
Import Images Samples.
Context (h : Helpers).

Lemma createCards_spec (x y : Q) (inTopLeft : bool) (files : list File)
    (i : nat) (s : Std) :
  let r := createCards h x y inTopLeft i files s in
  exists new,
    blocks r.2 = blocks s ++ new /\
    map blockId new = map snd r.1 /\
    map blockFileSize new = map fileSize files /\
    length r.1 = length files /\
    sameChrome s r.2.
Proof.
  revert i s. induction files as [|file rest IH]; intros i s; simpl.
  - exists []. rewrite app_nil_r. unfold sameChrome. auto 10.
  - destruct (IH (S i)
                (withBlocks
                   (blocks s ++
                    [{| blockId := newBlockId h s;
                        blockFileSize := fileSize file;
                        xywh := calcBoundByOrigin h
                                  (x + indexQ i * IMAGE_STACK_GAP,
                                   y + indexQ i * IMAGE_STACK_GAP)%Q
                                  inTopLeft None;
                        index := generateIndex h s; sourceId := None;
                        width := None; height := None |}]) s))
      as (new & Hb & Hid & Hsz & Hlen & Hc).
    destruct (createCards h x y inTopLeft (S i) rest _) as [infos s'].
    simpl in *. eexists (_ :: new).
    rewrite Hb, <- app_assoc. simpl.
    split; [reflexivity|]. split; [f_equal; exact Hid|].
    split; [f_equal; exact Hsz|]. split; [f_equal; exact Hlen|].
    exact Hc.
Qed.

Lemma updateElement_spec (bid src : string) (w hg : Q) (bound : string)
    (s : Std) :
  map blockId (blocks (updateElement bid src w hg bound s))
  = map blockId (blocks s) /\
  map blockFileSize (blocks (updateElement bid src w hg bound s))
  = map blockFileSize (blocks s) /\
  sameChrome s (updateElement bid src w hg bound s).
Proof.
  unfold updateElement, sameChrome. simpl. rewrite !map_map.
  split; [|split; [|auto 10]];
    apply map_ext; intros b; case_bool_decide; reflexivity.
Qed.

Lemma upload_spec (inTopLeft : bool) (mw : option Q) (file : File)
    (info : (Q * Q) * string) (s : Std) :
  let r := upload h inTopLeft mw file info s in
  map blockId (blocks r.2) = map blockId (blocks s) /\
  map blockFileSize (blocks r.2) = map blockFileSize (blocks s) /\
  sameChrome s r.2 /\
  (isThrown (blobSyncSet h file) = false ->
   isThrown (readImageSize h file) = false -> isThrown r.1 = false).
Proof.
  unfold upload.
  destruct (blobSyncSet h file) as [src|e]; simpl;
    [|unfold sameChrome; auto 10].
  destruct (readImageSize h file) as [sz|e]; simpl;
    [|unfold sameChrome; auto 10].
  destruct (updateElement_spec info.2 src
              match truthyWidth mw with
              | Some m => Qmin (imgWidth sz) m
              | None => imgWidth sz
              end
              match truthyWidth mw with
              | Some _ => ((imgHeight sz / imgWidth sz) *
                           match truthyWidth mw with
                           | Some m => Qmin (imgWidth sz) m
                           | None => imgWidth sz
                           end)%Q
              | None => imgHeight sz
              end
              (calcBoundByOrigin h info.1 inTopLeft
                 (Some (match truthyWidth mw with
                        | Some m => Qmin (imgWidth sz) m
                        | None => imgWidth sz
                        end,
                        match truthyWidth mw with
                        | Some _ => ((imgHeight sz / imgWidth sz) *
                                     match truthyWidth mw with
                                     | Some m => Qmin (imgWidth sz) m
                                     | None => imgWidth sz
                                     end)%Q
                        | None => imgHeight sz
                        end))) s) as (H1 & H2 & H3).
  auto.
Qed.

Lemma sameChrome_trans (s1 s2 s3 : Std) :
  sameChrome s1 s2 -> sameChrome s2 s3 -> sameChrome s1 s3.
Proof. unfold sameChrome. intuition congruence. Qed.

Lemma uploadAll_spec (inTopLeft : bool) (mw : option Q)
    (work : list (File * ((Q * Q) * string))) (s : Std) :
  let r := uploadAll h inTopLeft mw work s in
  map blockId (blocks r.2) = map blockId (blocks s) /\
  map blockFileSize (blocks r.2) = map blockFileSize (blocks s) /\
  sameChrome s r.2 /\
  ((forall f info, (f, info) ∈ work ->
      isThrown (blobSyncSet h f) = false /\
      isThrown (readImageSize h f) = false) ->
   isThrown r.1 = false).
Proof.
  revert s. induction work as [|[file info] rest IH]; intros s; simpl.
  - unfold sameChrome. auto 10.
  - destruct (upload_spec inTopLeft mw file info s) as (U1 & U2 & U3 & U4).
    destruct (upload h inTopLeft mw file info s) as [[u|e] s1]; simpl in *.
    + destruct (IH s1) as (I1 & I2 & I3 & I4).
      rewrite I1, I2, U1, U2. split; [reflexivity|]. split; [reflexivity|].
      split; [eapply sameChrome_trans; eassumption|].
      intros Hall. apply I4. intros f i Hin. apply (Hall f i).
      right. exact Hin.
    + destruct (IH s1) as (I1 & I2 & I3 & I4).
      rewrite I1, I2, U1, U2. split; [reflexivity|]. split; [reflexivity|].
      split; [eapply sameChrome_trans; eassumption|].
      intros Hall. destruct (Hall file info) as [Ha Hb]; [left|].
      specialize (U4 Ha Hb). discriminate.
Qed.

End ImagesFurther.

(** X17: a batch whose image files all fit the size limit (a file of
    exactly the limit fits) gets one image card per image file, in order,
    each recording its file's size, and no notice.  The cards stay in the
    document even when an upload fails: then the call throws and neither
    the selection nor the command log changes.  When it returns, it returns
    the ids of the new cards, selects exactly them, and asks for an
    auto-resize only for more than one file; it does return when every
    upload and size read returns. *)
Theorem addImages_accepted_batch (h : Images.Helpers)
    (files : list Images.File) (options : Images.Options)
    (std : Images.Std) (maxFileSize : Z) :
  Images.imageService std = Some maxFileSize ->
  let imageFiles := filter (fun f => Images.isImage f = true) files in
  imageFiles <> [] ->
  (forall f, f ∈ imageFiles -> (Images.fileSize f <= maxFileSize)%Z) ->
  let run := Images.addImages h files options std in
  exists ids,
    length ids = length imageFiles /\
    map Images.blockId (Images.blocks run.2)
    = map Images.blockId (Images.blocks std) ++ ids /\
    map Images.blockFileSize (Images.blocks run.2)
    = map Images.blockFileSize (Images.blocks std)
      ++ map Images.fileSize imageFiles /\
    Images.toasts run.2 = Images.toasts std /\
    Images.consoleErrors run.2 = Images.consoleErrors std /\
    match run.1 with
    | Returned r =>
        r = ids /\ Images.selection run.2 = (ids, false) /\
        Images.commands run.2
        = Images.commands std
          ++ (if decide (1 < length imageFiles)
              then ["autoResizeElements"] else [])
    | Thrown _ =>
        Images.selection run.2 = Images.selection std /\
        Images.commands run.2 = Images.commands std
    end /\
    ((forall f, f ∈ imageFiles ->
        isThrown (Images.blobSyncSet h f) = false /\
        isThrown (Images.readImageSize h f) = false) ->
     isThrown run.1 = false).
Proof.
  intros Hsvc imageFiles Hne Hfit run. subst run.
  unfold Images.addImages. fold imageFiles.
  destruct imageFiles as [|f0 fs] eqn:Hfiles; [contradiction|].
  rewrite Hsvc.
  assert (Hex : existsb (fun f => (maxFileSize <? Images.fileSize f)%Z)
                  (f0 :: fs) = false).
  { destruct (existsb _ (f0 :: fs)) eqn:Hex; [|reflexivity].
    apply existsb_exists in Hex as (f & Hin & Hlt).
    apply Z.ltb_lt in Hlt. apply list_elem_of_In in Hin.
    specialize (Hfit f Hin). lia. }
  rewrite Hex.
  destruct (match Images.point options with
            | Some p => Images.toModelCoord h p
            | None => Images.viewportCenter std
            end) as [x y].
  set (multi := bool_decide (1 < length (f0 :: fs))).
  destruct (createCards_spec h x y multi (f0 :: fs) 0 std)
    as (new & Hb & Hid & Hsz & Hlen & Hc).
  destruct (Images.createCards h x y multi 0 (f0 :: fs) std)
    as [dropInfos s1]. simpl in Hb, Hid, Hsz, Hlen, Hc.
  destruct (uploadAll_spec h multi (Images.maxWidth options)
              (zip (f0 :: fs) dropInfos) s1) as (U1 & U2 & U3 & U4).
  destruct (Images.uploadAll h multi (Images.maxWidth options)
              (zip (f0 :: fs) dropInfos) s1) as [[u|e] s2];
    simpl in U1, U2, U3, U4.
  - exists (map snd dropInfos).
    assert (Hchrome : Samples.sameChrome std s2)
      by (eapply sameChrome_trans; eassumption).
    destruct Hchrome as (_ & _ & Ht & Hce & _ & Hcmd).
    rewrite length_map. split; [exact Hlen|].
    unfold multi. case_bool_decide as Hm; simpl;
      rewrite U1, U2, Hb, !map_app, Hid, Hsz, Ht, Hce, Hcmd;
      (destruct (decide _) as [Hd|Hd]; [|]);
      try (exfalso; simpl in Hm, Hd; lia);
      rewrite ?app_nil_r; auto 10.
  - exists (map snd dropInfos).
    assert (Hchrome : Samples.sameChrome std s2)
      by (eapply sameChrome_trans; eassumption).
    destruct Hchrome as (_ & _ & Ht & Hce & Hsel & Hcmd).
    rewrite length_map. split; [exact Hlen|]. simpl.
    rewrite U1, U2, Hb, !map_app, Hid, Hsz, Ht, Hce, Hcmd, Hsel.
    do 4 (split; [reflexivity|]). split; [split; reflexivity|].
    intros Hall. apply U4. intros f info Hin. apply Hall.
    exact (elem_of_zip_l f info (f0 :: fs) dropInfos Hin).
Qed.

Lemma addImages_accepted_batch_witness :
  (Images.addImages Images.plainHelpers [Images.smallPng; Images.smallPng]
     {| Images.point := None; Images.maxWidth := None |}
     Images.emptySurface).1 = Returned ["block-0"; "block-1"].
Proof.
  destruct (addImages_accepted_batch Images.plainHelpers
              [Images.smallPng; Images.smallPng]
              {| Images.point := None; Images.maxWidth := None |}
              Images.emptySurface 50%Z eq_refl)
    as (ids & _ & Hids & _ & _ & _ & Hres & _).
  - discriminate.
  - intros f Hf. apply list_elem_of_In in Hf.
    destruct Hf as [<-|[<-|[]]]; simpl; lia.
  - vm_compute in Hids. subst ids. vm_compute. reflexivity.
Defined.

(** X18: files that are not images never matter: [addImages] does the
    same and returns the same as if they had not been passed, so an
    oversized file of another type triggers no notice. *)
Theorem addImages_ignores_other_files (h : Images.Helpers)
    (files : list Images.File) (options : Images.Options)
    (std : Images.Std) :
  Images.addImages h files options std
  = Images.addImages h (filter (fun f => Images.isImage f = true) files)
      options std.
Proof.
  unfold Images.addImages.
  assert (Hidem : filter (fun f => Images.isImage f = true)
                    (filter (fun f => Images.isImage f = true) files)
                  = filter (fun f => Images.isImage f = true) files).
  { apply list_filter_filter_r. auto. }
  rewrite Hidem. reflexivity.
Qed.

(** ** Shared intersection observer *)

Section IntersectionProperties.
Import Intersection IntersectionRuns.

Lemma wellFormed_initial : wellFormed initial.
Proof.
  unfold wellFormed, initial. simpl. split; [|split].
  - intros el. rewrite lookup_empty. split; [set_solver|].
    intros [x Hx]. discriminate.
  - intros el ls H. rewrite lookup_empty in H. discriminate.
  - intros el ls l H. rewrite lookup_empty in H. discriminate.
Qed.

Lemma wellFormed_observe (el : nat) (cb : string) (s : State) :
  wellFormed s -> wellFormed (observeIntersection el cb s).2.
Proof.
  intros (Hobs & Hne & Hid). unfold observeIntersection, wellFormed. simpl.
  split; [|split].
  - intros x. destruct (decide (x = el)) as [Heq|Hx].
    + subst x. rewrite lookup_insert_eq. split; [eauto|]. intros _.
      case_bool_decide as He.
      * apply Hobs. exact He.
      * apply elem_of_union_r, elem_of_singleton. reflexivity.
    + rewrite lookup_insert_ne by congruence.
      case_bool_decide as He; [apply Hobs|].
      rewrite elem_of_union, elem_of_singleton.
      specialize (Hobs x). tauto.
  - intros x ls. destruct (decide (x = el)) as [Heq|Hx].
    + subst x. rewrite lookup_insert_eq. intros [= <-].
      intros H. apply app_eq_nil in H as [_ H]. discriminate.
    + rewrite lookup_insert_ne by congruence. apply Hne.
  - intros x ls l. destruct (decide (x = el)) as [Heq|Hx].
    + subst x. rewrite lookup_insert_eq. intros [= <-] Hin.
      apply elem_of_app in Hin as [Hin|Hin].
      * destruct (elementsMap s !! el) as [ls0|] eqn:Hl; simpl in Hin.
        -- specialize (Hid el ls0 l Hl Hin). lia.
        -- inversion Hin.
      * apply list_elem_of_singleton in Hin. subst l. simpl. lia.
    + rewrite lookup_insert_ne by congruence. intros Hl Hin.
      specialize (Hid x ls l Hl Hin). lia.
Qed.

Lemma wellFormed_remove (el : nat) (l : Listener) (s : State) :
  wellFormed s -> wellFormed (removeListener (Some el) l s).
Proof.
  intros (Hobs & Hne & Hid). unfold removeListener. simpl.
  destruct (elementsMap s !! el) as [ls|] eqn:Hl; simpl.
  - pose proof (Hne el ls Hl) as Hls.
    case_bool_decide as Hin.
    + rewrite lookup_insert_eq.
      destruct (filter (fun x => x <> l) ls) as [|l0 rest] eqn:Hf.
      * unfold wellFormed; simpl. rewrite delete_insert_eq.
        split; [|split].
        -- intros x. destruct (decide (x = el)) as [Heq|Hx].
           ++ subst x. rewrite lookup_delete_eq.
              rewrite elem_of_difference, elem_of_singleton.
              split; [tauto|]. intros [? ?]; discriminate.
           ++ rewrite lookup_delete_ne by congruence.
              rewrite elem_of_difference, elem_of_singleton.
              specialize (Hobs x). tauto.
        -- intros x ls0 H. apply lookup_delete_Some in H as [_ H]. eauto.
        -- intros x ls0 l1 H. apply lookup_delete_Some in H as [_ H]. eauto.
      * unfold wellFormed; simpl. split; [|split].
        -- intros x. destruct (decide (x = el)) as [Heq|Hx].
           ++ subst x. rewrite lookup_insert_eq.
              specialize (Hobs el). rewrite Hl in Hobs.
              split; [eauto|]. intros _. apply Hobs. eauto.
           ++ rewrite lookup_insert_ne by congruence. apply Hobs.
        -- intros x ls0. destruct (decide (x = el)) as [Heq|Hx].
           ++ subst x. rewrite lookup_insert_eq. intros [= <-]. discriminate.
           ++ rewrite lookup_insert_ne by congruence. apply Hne.
        -- intros x ls0 l1. destruct (decide (x = el)) as [Heq|Hx].
           ++ subst x. rewrite lookup_insert_eq. intros [= <-] H1.
              apply (Hid el ls l1 Hl).
              assert (H2 : l1 ∈ filter (fun x => x <> l) ls)
                by (rewrite Hf; exact H1).
              apply list_elem_of_filter in H2 as [_ H2]. exact H2.
           ++ rewrite lookup_insert_ne by congruence. apply Hid.
    + rewrite Hl. destruct ls as [|l0 rest]; [contradiction|].
      unfold wellFormed; simpl. auto.
  - rewrite ?Hl. unfold wellFormed; simpl. auto.
Qed.

Lemma filter_other (l : Listener) (ls : list Listener) :
  l ∉ ls -> filter (fun x => x <> l) ls = ls.
Proof.
  induction ls as [|y ls IH]; [reflexivity|].
  intros Hn. apply not_elem_of_cons in Hn as [Hne Hn].
  rewrite filter_cons_True by congruence. f_equal. auto.
Qed.

Lemma fresh_listener (s : State) (el : nat) (ls : list Listener)
    (cb : string) :
  wellFormed s -> elementsMap s !! el = Some ls ->
  {| listenerId := allocated s; callback := cb |} ∉ ls.
Proof.
  intros (_ & _ & Hid) Hl Hin. specialize (Hid el ls _ Hl Hin).
  simpl in Hid. lia.
Qed.

Lemma remove_settled (el : nat) (l : Listener) (t : State) :
  observerCreated t = true ->
  l ∉ default [] (elementsMap t !! el) ->
  elementsMap t !! el <> Some [] ->
  removeListener (Some el) l t = t.
Proof.
  intros Hc Hl Hn. unfold removeListener. simpl.
  rewrite bool_decide_eq_false_2 by assumption.
  destruct t as [c o m a]. simpl in *. subst c.
  destruct (m !! el) as [[|l0 rest]|]; [contradiction| |]; reflexivity.
Qed.

Lemma remove_reaches_settled (el : nat) (l : Listener) (s : State) :
  let t := removeListener (Some el) l s in
  observerCreated t = true /\
  (l ∉ default [] (elementsMap t !! el)) /\
  elementsMap t !! el <> Some [].
Proof.
  unfold removeListener. simpl.
  destruct (elementsMap s !! el) as [ls|] eqn:Hl; simpl.
  - case_bool_decide as Hin.
    + rewrite lookup_insert_eq.
      destruct (filter (fun x => x <> l) ls) as [|l0 rest] eqn:Hf; simpl.
      * rewrite lookup_delete_eq. simpl.
        split; [reflexivity|]. split; [apply not_elem_of_nil|discriminate].
      * rewrite lookup_insert_eq. simpl.
        split; [reflexivity|]. split; [|discriminate].
        rewrite <- Hf. intros H.
        apply list_elem_of_filter in H as [H _]. congruence.
    + rewrite Hl. destruct ls as [|l0 rest]; simpl.
      * rewrite lookup_delete_eq. simpl.
        split; [reflexivity|]. split; [apply not_elem_of_nil|discriminate].
      * rewrite Hl. simpl. split; [reflexivity|].
        split; [assumption|discriminate].
  - rewrite ?Hl. simpl. rewrite ?Hl. simpl.
    split; [reflexivity|]. split; [apply not_elem_of_nil|discriminate].
Qed.

(** X21: calling a [dispose] a second time does nothing: the state after
    two calls is the state after one. *)
Theorem dispose_idempotent (el : nat) (l : Listener) (s : State) :
  dispose el l (dispose el l s) = dispose el l s.
Proof.
  unfold dispose.
  destruct (remove_reaches_settled el l s) as (H1 & H2 & H3).
  apply remove_settled; assumption.
Qed.

Lemma wellFormed_run (actions : list Action) : wellFormed (run actions).
Proof.
  unfold run. induction actions as [|a actions IH] using rev_ind.
  - apply wellFormed_initial.
  - rewrite foldl_app. simpl. destruct a as [el cb|el l]; simpl.
    + apply wellFormed_observe, IH.
    + apply wellFormed_remove, IH.
Qed.

End IntersectionProperties.

(** X19: in every state reachable by observing elements and disposing
    listeners, an element is observed by the shared IntersectionObserver
    exactly when it has an entry in the listener map, and no entry is ever
    an empty list: an element stays observed precisely while it has at
    least one listener. *)
Theorem observed_iff_has_listeners (actions : list IntersectionRuns.Action) :
  let s := IntersectionRuns.run actions in
  (forall el, el ∈ Intersection.observed s
              <-> is_Some (Intersection.elementsMap s !! el)) /\
  (forall el ls, Intersection.elementsMap s !! el = Some ls -> ls <> []).
Proof.
  destruct (wellFormed_run actions) as (H1 & H2 & _). split; assumption.
Qed.

Section IntersectionRoundTrips.
Import Intersection IntersectionRuns.

(** X20: in any reachable state, observing an element and then calling the
    returned [dispose] puts the listener map and the set of observed
    elements back exactly as they were: a first listener makes the element
    observed and its disposal unobserves it again. *)
Theorem observe_then_dispose (actions : list IntersectionRuns.Action)
    (el : nat) (cb : string) :
  let s := IntersectionRuns.run actions in
  let r := Intersection.observeIntersection el cb s in
  Intersection.elementsMap (Intersection.dispose el r.1 r.2)
  = Intersection.elementsMap s /\
  Intersection.observed (Intersection.dispose el r.1 r.2)
  = Intersection.observed s.
Proof.
  pose proof (wellFormed_run actions) as Hwf.
  generalize dependent (run actions). clear actions. intros s Hwf.
  cbv zeta. pose proof Hwf as (Hobs & Hne & Hid).
  unfold dispose, removeListener, observeIntersection. simpl.
  rewrite lookup_insert_eq. simpl.
  rewrite bool_decide_eq_true_2
    by (apply elem_of_app; right; apply list_elem_of_singleton; reflexivity).
  rewrite lookup_insert_eq, filter_app.
  rewrite (filter_cons_False _ _ _) by (intros H; apply H; reflexivity).
  rewrite filter_nil, app_nil_r.
  destruct (elementsMap s !! el) as [ls|] eqn:Hl; simpl.
  - rewrite (filter_other _ ls) by (eapply fresh_listener; eassumption).
    destruct ls as [|l0 rest]; [exfalso; eapply Hne; eauto|]. simpl.
    rewrite insert_insert_eq, insert_id by assumption.
    split; reflexivity.
  - rewrite insert_insert_eq, delete_insert_eq, delete_id by assumption.
    split; [reflexivity|].
    assert (Hno : el ∉ observed s).
    { intros H. apply Hobs in H. rewrite Hl in H. destruct H. discriminate. }
    apply set_eq. intros x.
    rewrite elem_of_difference, elem_of_union, elem_of_singleton.
    split; [intros [[?|?] ?]; [assumption|contradiction]|].
    intros Hx. split; [left; exact Hx|]. intros ->. contradiction.
Qed.

(** X22: the callbacks of an element run in the order in which they were
    registered, after the ones registered before; a disposed listener's
    callback no longer runs while the others still do, and the callbacks of
    other elements are not affected. *)
Theorem delivery_order (actions : list IntersectionRuns.Action)
    (el : nat) (cb1 cb2 : string) :
  let s := IntersectionRuns.run actions in
  let r1 := Intersection.observeIntersection el cb1 s in
  let r2 := Intersection.observeIntersection el cb2 r1.2 in
  Intersection.deliver [el] r2.2
  = Intersection.deliver [el] s ++ [(cb1, el); (cb2, el)] /\
  Intersection.deliver [el] (Intersection.dispose el r1.1 r2.2)
  = Intersection.deliver [el] s ++ [(cb2, el)] /\
  (forall other, other <> el ->
     Intersection.deliver [other] (Intersection.dispose el r1.1 r2.2)
     = Intersection.deliver [other] s).
Proof.
  pose proof (wellFormed_run actions) as Hwf.
  generalize dependent (run actions). clear actions. intros s Hwf.
  cbv zeta. pose proof Hwf as (Hobs & Hne & Hid).
  unfold deliver, dispose, removeListener, observeIntersection. simpl.
  rewrite !lookup_insert_eq. simpl. rewrite !app_nil_r.
  split; [rewrite !map_app, <- app_assoc; reflexivity|].
  set (l1 := {| listenerId := allocated s; callback := cb1 |}).
  set (l2 := {| listenerId := S (allocated s); callback := cb2 |}).
  set (ls := default [] (elementsMap s !! el)).
  assert (Hfresh : l1 ∉ ls).
  { unfold ls. destruct (elementsMap s !! el) as [ls0|] eqn:Hl; simpl.
    - eapply fresh_listener; eassumption.
    - apply not_elem_of_nil. }
  rewrite bool_decide_eq_true_2
    by (apply elem_of_app; left; apply elem_of_app; right;
        apply list_elem_of_singleton; reflexivity).
  rewrite lookup_insert_eq.
  assert (Hf : filter (fun x => x <> l1) ((ls ++ [l1]) ++ [l2])
               = ls ++ [l2]).
  { rewrite !filter_app, (filter_other l1 ls Hfresh).
    rewrite (filter_cons_False _ _ _) by (intros H; apply H; reflexivity).
    rewrite (filter_cons_True _ _ _)
      by (unfold l1, l2; intros [= H]; lia).
    rewrite !filter_nil, app_nil_r. reflexivity. }
  rewrite Hf.
  destruct (ls ++ [l2]) as [|x rest] eqn:Hx.
  { apply app_eq_nil in Hx as [_ Hx]. discriminate. }
  simpl. rewrite lookup_insert_eq. simpl.
  split.
  { change ((callback x, el) :: map (fun l => (callback l, el)) rest)
      with (map (fun l => (callback l, el)) (x :: rest)).
    rewrite <- Hx, map_app. reflexivity. }
  intros other Ho. rewrite !lookup_insert_ne by congruence. reflexivity.
Qed.

End IntersectionRoundTrips.

(** ** Citation links ([PerplexityProvider.injectCitations]) *)

Section CitationProperties.
Import Perplexity.

Lemma str_app_cons (x : Ascii.ascii) (a b : string) :
  String x a +:+ b = String x (a +:+ b).
Proof. reflexivity. Qed.

Lemma str_app_assoc (a b c : string) : (a +:+ b) +:+ c = a +:+ (b +:+ c).
Proof.
  induction a as [|x a IH]; [reflexivity|].
  rewrite !str_app_cons. f_equal. exact IH.
Qed.

Lemma str_app_nil_r (a : string) : a +:+ "" = a.
Proof.
  induction a as [|x a IH]; [reflexivity|].
  rewrite str_app_cons, IH. reflexivity.
Qed.

Lemma str_length_app (a b : string) :
  String.length (a +:+ b) = String.length a + String.length b.
Proof.
  induction a as [|x a IH]; [reflexivity|].
  rewrite str_app_cons. simpl. f_equal. exact IH.
Qed.

(** *** The pieces of the pattern *)

Lemma digitsOf_spec (s d r : string) :
  digitsOf s = (d, r) -> s = d +:+ r /\ digitsOnly d /\ noDigitAhead r.
Proof.
  revert d r. induction s as [|c s IH]; simpl; intros d r.
  - intros [= <- <-]. repeat split. intros c [=].
  - destruct (isDigit c) eqn:Hc.
    + destruct (digitsOf s) as [d0 r0]. intros [= <- <-].
      destruct (IH d0 r0 eq_refl) as (Hs & Hd & Hr). repeat split.
      * rewrite str_app_cons. f_equal. exact Hs.
      * unfold digitsOnly in *. simpl. rewrite Hc, Hd. reflexivity.
      * exact Hr.
    + intros [= <- <-]. repeat split. intros c' [= <-]. exact Hc.
Qed.

Lemma digitsOf_app (d tail : string) :
  digitsOnly d -> noDigitAhead tail -> digitsOf (d +:+ tail) = (d, tail).
Proof.
  unfold digitsOnly. intros Hd Htail. induction d as [|c d IH].
  - change ("" +:+ tail) with tail. destruct tail as [|c t]; [reflexivity|].
    simpl. rewrite (Htail c eq_refl). reflexivity.
  - rewrite str_app_cons. simpl in Hd |- *.
    destruct (isDigit c); [|discriminate].
    destruct (digitsOf d) as [d0 r0]. injection Hd as -> ->.
    rewrite IH; reflexivity.
Qed.

Lemma digitsOf_noDigitAhead (s : string) :
  noDigitAhead s -> digitsOf s = ("", s).
Proof.
  intros H. destruct s as [|c s]; [reflexivity|].
  simpl. rewrite (H c eq_refl). reflexivity.
Qed.

Lemma allDigits_first (d : string) :
  allDigits d -> exists c d', d = String c d' /\ isDigit c = true.
Proof.
  intros [Hne Hd]. destruct d as [|c d']; [contradiction|].
  exists c, d'. split; [reflexivity|]. unfold digitsOnly in Hd. simpl in Hd.
  destruct (isDigit c); [reflexivity|discriminate].
Qed.

Lemma digitsOnly_bracketFree (d : string) : digitsOnly d -> bracketFree d.
Proof.
  unfold digitsOnly. induction d as [|c d IH]; [constructor|]. simpl.
  destruct (isDigit c) eqn:Hc; [|discriminate].
  destruct (digitsOf d) as [d0 r0]. intros [= -> ->]. split.
  - intros ->. discriminate Hc.
  - apply IH. reflexivity.
Qed.

Lemma bracketFree_app (a b : string) :
  bracketFree a -> bracketFree b -> bracketFree (a +:+ b).
Proof.
  intros Ha Hb. induction a as [|c a IH]; [exact Hb|].
  destruct Ha as [Hc Ha]. rewrite str_app_cons. split; [exact Hc|apply IH, Ha].
Qed.

Lemma opening_bracket (s1 : string) :
  opening (String "[" s1)
  = match s1 with
    | String c1 s1' =>
        if decide (c1 = "["%char) then Some ("[[", s1') else Some ("[", s1)
    | EmptyString => Some ("[", "")
    end.
Proof.
  destruct s1 as [|c1 s1']; [reflexivity|].
  destruct (decide (c1 = "["%char)) as [->|Hc1]; [reflexivity|].
  destruct c1 as [[] [] [] [] [] [] [] []]; try reflexivity.
  exfalso. apply Hc1. reflexivity.
Qed.

Lemma opening_other (c : Ascii.ascii) (s : string) :
  c <> "["%char -> opening (String c s) = None.
Proof.
  intros Hc. destruct c as [[] [] [] [] [] [] [] []]; try reflexivity.
  exfalso. apply Hc. reflexivity.
Qed.

Lemma startsWithParen_spec (s : string) :
  startsWithParen s = bool_decide (firstChar s = Some "("%char).
Proof.
  destruct s as [|c s]; [reflexivity|].
  destruct c as [[] [] [] [] [] [] [] []]; reflexivity.
Qed.

Lemma closing_bracket (s4 : string) :
  closing (String "]" s4)
  = match s4 with
    | String c4 s5 =>
        if decide (c4 = "]"%char)
        then if startsWithParen s5 then Some ("]", s4) else Some ("]]", s5)
        else if startsWithParen s4 then None else Some ("]", s4)
    | EmptyString => Some ("]", "")
    end.
Proof.
  destruct s4 as [|c4 s5]; [reflexivity|].
  destruct (decide (c4 = "]"%char)) as [->|Hc4]; [reflexivity|].
  destruct c4 as [[] [] [] [] [] [] [] []]; try reflexivity.
  exfalso. apply Hc4. reflexivity.
Qed.

Lemma closing_other (c : Ascii.ascii) (s : string) :
  c <> "]"%char -> closing (String c s) = None.
Proof.
  intros Hc. destruct c as [[] [] [] [] [] [] [] []]; try reflexivity.
  exfalso. apply Hc. reflexivity.
Qed.

Lemma opening_split (s opens rest : string) :
  opening s = Some (opens, rest) ->
  s = opens +:+ rest /\ (opens = "[" \/ opens = "[[").
Proof.
  destruct s as [|c s1]; [discriminate|].
  destruct (decide (c = "["%char)) as [->|Hc].
  - rewrite opening_bracket. destruct s1 as [|c1 s1'].
    + intros [= <- <-]. auto.
    + destruct (decide (c1 = "["%char)) as [->|Hc1]; intros [= <- <-]; auto.
  - rewrite (opening_other c s1 Hc). discriminate.
Qed.

Lemma closing_split (s closes rest : string) :
  closing s = Some (closes, rest) ->
  s = closes +:+ rest /\ (closes = "]" \/ closes = "]]").
Proof.
  destruct s as [|c s4]; [discriminate|].
  destruct (decide (c = "]"%char)) as [->|Hc].
  - rewrite closing_bracket. destruct s4 as [|c4 s5].
    + intros [= <- <-]. auto.
    + destruct (decide (c4 = "]"%char)) as [->|Hc4].
      * destruct (startsWithParen s5); intros [= <- <-]; auto.
      * destruct (startsWithParen (String c4 s5)); [discriminate|].
        intros [= <- <-]. auto.
  - rewrite (closing_other c s4 Hc). discriminate.
Qed.

(** *** One attempt of the pattern *)

(** A match is an opening, a non-empty run of digits and a closing; its
    text and the text after it make up the text it was found in. *)
Lemma citationAt_inv (s reference matched rest : string) :
  citationAt s = Some (reference, matched, rest) ->
  exists opens closes,
    (opens = "[" \/ opens = "[[") /\ (closes = "]" \/ closes = "]]") /\
    allDigits reference /\
    matched = opens +:+ reference +:+ closes /\
    s = matched +:+ rest.
Proof.
  unfold citationAt.
  destruct (opening s) as [[opens s2]|] eqn:Ho; [|discriminate].
  apply opening_split in Ho as [-> Hopens].
  destruct (digitsOf s2) as [d s3] eqn:Hd.
  apply digitsOf_spec in Hd as (-> & Hd & _).
  case_bool_decide as Hne; [discriminate|].
  destruct (closing s3) as [[closes r]|] eqn:Hc; [|discriminate].
  apply closing_split in Hc as [-> Hcloses].
  intros [= <- <- <-]. exists opens, closes. repeat split; auto.
  rewrite !str_app_assoc. reflexivity.
Qed.

Lemma citationAt_shorter (s reference matched rest : string) :
  citationAt s = Some (reference, matched, rest) ->
  String.length rest < String.length s.
Proof.
  intros H.
  apply citationAt_inv in H as (opens & closes & Ho & _ & _ & -> & ->).
  rewrite !str_length_app. destruct Ho as [-> | ->]; simpl; lia.
Qed.

Lemma citationAt_no_digits (s opens s2 : string) :
  opening s = Some (opens, s2) -> noDigitAhead s2 -> citationAt s = None.
Proof.
  intros Ho Hs2. unfold citationAt.
  rewrite Ho, (digitsOf_noDigitAhead s2 Hs2). reflexivity.
Qed.

Lemma citationAt_other (c : Ascii.ascii) (s : string) :
  c <> "["%char -> citationAt (String c s) = None.
Proof.
  intros Hc. unfold citationAt. rewrite (opening_other c s Hc). reflexivity.
Qed.

(** After "[" or "[[" and digits, the closing decides. *)
Lemma citationAt_digits (opens d tail : string) :
  opens = "[" \/ opens = "[[" -> allDigits d -> noDigitAhead tail ->
  citationAt (opens +:+ d +:+ tail)
  = match closing tail with
    | Some (closes, rest) => Some (d, opens +:+ d +:+ closes, rest)
    | None => None
    end.
Proof.
  intros Hopens Hd Htail.
  destruct (allDigits_first d Hd) as (c & d' & -> & Hc).
  destruct Hd as [Hne Hdig]. unfold citationAt.
  assert (Ho : opening (opens +:+ String c d' +:+ tail)
               = Some (opens, String c d' +:+ tail)).
  { destruct Hopens as [-> | ->].
    - change (opening (String "[" (String c (d' +:+ tail)))
              = Some ("[", String c (d' +:+ tail))).
      rewrite opening_bracket.
      destruct (decide (c = "["%char)) as [->|_]; [discriminate Hc|reflexivity].
    - reflexivity. }
  rewrite Ho, (digitsOf_app _ _ Hdig Htail).
  rewrite bool_decide_eq_false_2 by exact Hne. reflexivity.
Qed.

(** Every text either has digits after its opening, and then the closing
    decides, or it yields no match whatever follows. *)
Lemma citationAt_shape (s : string) :
  (exists opens d tail,
     (opens = "[" \/ opens = "[[") /\ allDigits d /\ noDigitAhead tail /\
     s = opens +:+ d +:+ tail) \/
  (opening s = None) \/
  (exists opens s2, opening s = Some (opens, s2) /\ noDigitAhead s2).
Proof.
  destruct (opening s) as [[opens s2]|] eqn:Ho; [|auto].
  destruct (digitsOf s2) as [d s3] eqn:Hd.
  pose proof (opening_split _ _ _ Ho) as [-> Hopens].
  apply digitsOf_spec in Hd as (-> & Hd & Hs3).
  destruct d as [|c d].
  - right. right. exists opens, s3. split; [reflexivity|exact Hs3].
  - left. exists opens, (String c d), s3. repeat split; auto; discriminate.
Qed.

(** *** The replacement *)

Lemma replacement_in_range (citations : list string) (matched d : string)
    (i : nat) (url : string) :
  parseDecimal 0 d = N.of_nat (S i) -> citations !! i = Some url ->
  replacement citations matched d
  = "[[" +:+ pretty (N.of_nat (S i)) +:+ "](" +:+ url +:+ ")]".
Proof.
  intros Hn Hurl. unfold replacement. rewrite Hn.
  pose proof (lookup_lt_Some _ _ _ Hurl) as Hlt.
  replace (N.to_nat (N.of_nat (S i)) - 1) with i by lia.
  rewrite Hurl.
  destruct (1 <=? N.of_nat (S i))%N eqn:H1; [|apply N.leb_gt in H1; lia].
  destruct (N.of_nat (S i) <=? N.of_nat (length citations))%N eqn:H2;
    [|apply N.leb_gt in H2; lia].
  reflexivity.
Qed.

Lemma replacement_out_of_range (citations : list string) (matched d : string) :
  parseDecimal 0 d = 0%N \/
  (N.of_nat (length citations) < parseDecimal 0 d)%N ->
  replacement citations matched d = matched.
Proof.
  intros Hn. unfold replacement. cbv zeta.
  destruct (1 <=? parseDecimal 0 d)%N eqn:H1;
    destruct (parseDecimal 0 d <=? N.of_nat (length citations))%N eqn:H2;
    try reflexivity.
  apply N.leb_le in H1, H2. lia.
Qed.

Lemma replacement_cases (citations : list string) (matched d : string) :
  replacement citations matched d = matched \/
  exists i url,
    citations !! i = Some url /\
    replacement citations matched d
    = "[[" +:+ pretty (N.of_nat (S i)) +:+ "](" +:+ url +:+ ")]".
Proof.
  unfold replacement. cbv zeta.
  destruct (1 <=? parseDecimal 0 d)%N eqn:H1; [|left; reflexivity].
  destruct (parseDecimal 0 d <=? N.of_nat (length citations))%N eqn:H2;
    [|left; reflexivity].
  cbn [andb].
  destruct (citations !! (N.to_nat (parseDecimal 0 d) - 1)) as [url|] eqn:Hurl;
    [|left; reflexivity].
  right. exists (N.to_nat (parseDecimal 0 d) - 1), url. split; [exact Hurl|].
  apply N.leb_le in H1.
  replace (N.of_nat (S (N.to_nat (parseDecimal 0 d) - 1)))
    with (parseDecimal 0 d) by lia.
  reflexivity.
Qed.

Lemma digitsOnly_pretty_go (x : N) (s : string) :
  digitsOnly s -> digitsOnly (pretty_N_go x s).
Proof.
  revert s. induction (N.lt_wf_0 x) as [x _ IH]. intros s Hs.
  destruct (decide (x = 0%N)) as [->|Hx].
  - rewrite pretty_N_go_0. exact Hs.
  - rewrite pretty_N_go_step by lia. apply IH.
    + apply N.div_lt; lia.
    + unfold digitsOnly in *. simpl. rewrite Hs.
      assert (Hd : isDigit (pretty_N_char (x mod 10)) = true).
      { pose proof (N.mod_upper_bound x 10 ltac:(lia)) as Hlt.
        destruct (x mod 10)%N as [|p]; [reflexivity|].
        do 4 (destruct p as [p|p|]; try reflexivity). }
      rewrite Hd. reflexivity.
Qed.

Lemma pretty_go_nonempty (x : N) (s : string) :
  s <> "" -> pretty_N_go x s <> "".
Proof.
  revert s. induction (N.lt_wf_0 x) as [x _ IH]. intros s Hs.
  destruct (decide (x = 0%N)) as [->|Hx].
  - rewrite pretty_N_go_0. exact Hs.
  - rewrite pretty_N_go_step by lia.
    apply IH; [apply N.div_lt; lia|discriminate].
Qed.

Lemma allDigits_pretty (n : N) : allDigits (pretty n).
Proof.
  unfold pretty, pretty_N. destruct (decide (n = 0%N)) as [->|Hn].
  - split; [discriminate|reflexivity].
  - rewrite pretty_N_go_step by lia. split.
    + apply pretty_go_nonempty. discriminate.
    + apply digitsOnly_pretty_go.
      pose proof (digitsOnly_pretty_go (n mod 10) "" eq_refl) as H.
      clear H. unfold digitsOnly. simpl.
      assert (Hd : isDigit (pretty_N_char (n mod 10)) = true).
      { destruct (n mod 10)%N as [|p]; [reflexivity|].
        do 4 (destruct p as [p|p|]; try reflexivity). }
      rewrite Hd. reflexivity.
Qed.

(** *** The global replace *)

(** The step bound of [replaceFrom] is only a bound: any number of steps
    that covers the text gives the same result. *)
Lemma replaceFrom_fuel (citations : list string) (fuel1 fuel2 : nat)
    (s : string) :
  String.length s <= fuel1 -> String.length s <= fuel2 ->
  replaceFrom fuel1 citations s = replaceFrom fuel2 citations s.
Proof.
  revert fuel2 s. induction fuel1 as [|f1 IH]; intros fuel2 s H1 H2.
  - destruct s; [|simpl in H1; lia]. destruct fuel2; reflexivity.
  - destruct fuel2 as [|f2].
    + destruct s; [reflexivity|simpl in H2; lia].
    + simpl. destruct (citationAt s) as [[[reference matched] rest]|] eqn:Hc.
      * apply citationAt_shorter in Hc. f_equal. apply IH; lia.
      * destruct s as [|c rest]; [reflexivity|]. simpl in H1, H2.
        f_equal. apply IH; lia.
Qed.

Section OneList.
Variable citations : list string.

(** The equations of [injectCitations]: text without "[" is copied, a
    match is replaced and the search goes on after it, and a position where
    the pattern does not match is copied. *)
Lemma inject_match (s reference matched rest : string) :
  citationAt s = Some (reference, matched, rest) ->
  injectCitations s citations
  = replacement citations matched reference +:+ injectCitations rest citations.
Proof.
  intros Hc. unfold injectCitations.
  pose proof (citationAt_shorter _ _ _ _ Hc) as Hlen.
  destruct (String.length s) as [|n] eqn:Hn; [lia|].
  cbn [replaceFrom]. rewrite Hc. f_equal. apply replaceFrom_fuel; lia.
Qed.

Lemma inject_skip (c : Ascii.ascii) (s : string) :
  citationAt (String c s) = None ->
  injectCitations (String c s) citations
  = String c (injectCitations s citations).
Proof.
  intros Hc. unfold injectCitations.
  change (String.length (String c s)) with (S (String.length s)).
  cbn [replaceFrom]. rewrite Hc. reflexivity.
Qed.

Lemma inject_other (c : Ascii.ascii) (s : string) :
  c <> "["%char ->
  injectCitations (String c s) citations
  = String c (injectCitations s citations).
Proof. intros Hc. apply inject_skip, citationAt_other, Hc. Qed.

Lemma inject_prefix (pre tail : string) :
  bracketFree pre ->
  injectCitations (pre +:+ tail) citations
  = pre +:+ injectCitations tail citations.
Proof.
  intros Hfree. induction pre as [|c pre IH]; [reflexivity|].
  destruct Hfree as [Hc Hfree]. rewrite !str_app_cons.
  rewrite (inject_other c _ Hc), (IH Hfree). reflexivity.
Qed.

Lemma inject_firstChar (s : string) :
  firstChar (injectCitations s citations) = firstChar s.
Proof.
  destruct s as [|c s]; [reflexivity|].
  destruct (citationAt (String c s)) as [[[reference matched] rest]|] eqn:Hc.
  - rewrite (inject_match _ _ _ _ Hc).
    apply citationAt_inv in Hc as (opens & closes & Ho & _ & _ & -> & Hs).
    rewrite Hs.
    destruct (replacement_cases citations (opens +:+ reference +:+ closes)
                reference) as [-> | (i & url & _ & ->)];
      destruct Ho as [-> | ->]; reflexivity.
  - rewrite (inject_skip _ _ Hc). reflexivity.
Qed.

Lemma inject_noDigitAhead (s : string) :
  noDigitAhead s -> noDigitAhead (injectCitations s citations).
Proof. unfold noDigitAhead. rewrite inject_firstChar. auto. Qed.

(** What [closing] sees of a text is left as it is. *)
Lemma closing_inject (tail : string) :
  closing (injectCitations tail citations)
  = match closing tail with
    | Some (closes, rest) => Some (closes, injectCitations rest citations)
    | None => None
    end.
Proof.
  destruct tail as [|c s4]; [reflexivity|].
  destruct (decide (c = "]"%char)) as [->|Hc].
  - rewrite inject_other by discriminate. rewrite !closing_bracket.
    destruct s4 as [|c4 s5]; [reflexivity|].
    destruct (decide (c4 = "]"%char)) as [->|Hc4].
    + rewrite inject_other by discriminate.
      destruct (decide ("]"%char = "]"%char)) as [_|Hn]; [|contradiction].
      rewrite !startsWithParen_spec, inject_firstChar.
      case_bool_decide; [|reflexivity].
      rewrite inject_other by discriminate. reflexivity.
    + pose proof (inject_firstChar (String c4 s5)) as Hf.
      destruct (injectCitations (String c4 s5) citations) as [|c' u] eqn:Hu;
        [discriminate Hf|].
      injection Hf as ->.
      destruct (decide (c4 = "]"%char)) as [Heq|_]; [contradiction|].
      rewrite !startsWithParen_spec. simpl.
      case_bool_decide; rewrite ?Hu; reflexivity.
  - rewrite (closing_other c s4 Hc).
    pose proof (inject_firstChar (String c s4)) as Hf.
    destruct (injectCitations (String c s4) citations) as [|c' u];
      [discriminate Hf|].
    injection Hf as ->. apply closing_other, Hc.
Qed.

Lemma citationAt_digits_inject (opens d tail : string) :
  opens = "[" \/ opens = "[[" -> allDigits d -> noDigitAhead tail ->
  citationAt (opens +:+ d +:+ injectCitations tail citations)
  = match citationAt (opens +:+ d +:+ tail) with
    | Some (r, m, rest) => Some (r, m, injectCitations rest citations)
    | None => None
    end.
Proof.
  intros Ho Hd Ht.
  rewrite (citationAt_digits opens d _ Ho Hd (inject_noDigitAhead _ Ht)).
  rewrite (citationAt_digits opens d tail Ho Hd Ht), closing_inject.
  destruct (closing tail) as [[closes rest]|]; reflexivity.
Qed.

Lemma inject_second (t2 : string) :
  noDigitAhead t2 ->
  exists u,
    injectCitations (String "[" t2) citations = String "[" u /\ noDigitAhead u.
Proof.
  intros Ht2.
  destruct (citationAt (String "[" t2)) as [[[r m] rest]|] eqn:Hc.
  - rewrite (inject_match _ _ _ _ Hc).
    apply citationAt_inv in Hc as (opens & closes & Ho & _ & Hd & -> & Hs).
    destruct Ho as [-> | ->].
    + exfalso. destruct (allDigits_first r Hd) as (c & d' & -> & Hdig).
      change (String "[" t2 = String "[" (String c ((d' +:+ closes) +:+ rest)))
        in Hs.
      injection Hs as ->. rewrite (Ht2 c eq_refl) in Hdig. discriminate.
    + destruct (replacement_cases citations ("[[" +:+ r +:+ closes) r)
        as [-> | (i & url & _ & ->)];
        (eexists; split; [reflexivity|]); intros c [= <-]; reflexivity.
  - rewrite (inject_skip _ _ Hc). eexists. split; [reflexivity|].
    apply inject_noDigitAhead, Ht2.
Qed.

(** A position where the pattern does not match still does not match
    after the text behind it has been rewritten. *)
Lemma citationAt_None_inject (c : Ascii.ascii) (t : string) :
  citationAt (String c t) = None ->
  citationAt (String c (injectCitations t citations)) = None.
Proof.
  intros Hnone.
  destruct (decide (c = "["%char)) as [->|Hc]; [|apply citationAt_other, Hc].
  destruct (citationAt_shape (String "[" t))
    as [(opens & d & tail & Ho & Hd & Ht & Hs)
       | [Hop | (opens & s2 & Hop & Hs2)]].
  - destruct Ho as [-> | ->].
    + change (String "[" t = String "[" (d +:+ tail)) in Hs. injection Hs as ->.
      rewrite inject_prefix by (apply digitsOnly_bracketFree, Hd).
      change (citationAt ("[" +:+ d +:+ injectCitations tail citations) = None).
      rewrite citationAt_digits_inject by auto.
      change (citationAt (String "[" (d +:+ tail))) with
        (citationAt ("[" +:+ d +:+ tail)) in Hnone.
      rewrite Hnone. reflexivity.
    + change (String "[" t = String "[" ("[" +:+ d +:+ tail)) in Hs.
      injection Hs as ->.
      change (citationAt (String "[" ("[" +:+ d +:+ tail))) with
        (citationAt ("[[" +:+ d +:+ tail)) in Hnone.
      assert (Hone : citationAt ("[" +:+ d +:+ tail) = None).
      { rewrite citationAt_digits in Hnone |- * by auto.
        destruct (closing tail) as [[closes rest]|];
          [discriminate|reflexivity]. }
      change ("[" +:+ d +:+ tail) with (String "[" (d +:+ tail)) in Hone |- *.
      rewrite (inject_skip _ _ Hone).
      rewrite inject_prefix by (apply digitsOnly_bracketFree, Hd).
      change
        (citationAt ("[[" +:+ d +:+ injectCitations tail citations) = None).
      rewrite citationAt_digits_inject by auto.
      change (String "[" (d +:+ tail)) with ("[" +:+ d +:+ tail) in Hnone.
      rewrite Hnone. reflexivity.
  - rewrite opening_bracket in Hop. destruct t as [|c1 t2]; [discriminate|].
    destruct (decide (c1 = "["%char)); discriminate.
  - rewrite opening_bracket in Hop. destruct t as [|c1 t2]; [exact Hnone|].
    destruct (decide (c1 = "["%char)) as [->|Hc1]; injection Hop as <- <-.
    + destruct (inject_second t2 Hs2) as (u & -> & Hu).
      apply (citationAt_no_digits _ "[[" u); [reflexivity|exact Hu].
    + rewrite inject_other by exact Hc1.
      apply (citationAt_no_digits _ "["
               (String c1 (injectCitations t2 citations))).
      * rewrite opening_bracket.
        destruct (decide (c1 = "["%char)); [contradiction|reflexivity].
      * intros c' [= <-]. apply (Hs2 c1 eq_refl).
Qed.

(** A link the replacement writes is copied as it is. *)
Lemma inject_link (p url tail : string) :
  allDigits p -> bracketFree url ->
  injectCitations ("[[" +:+ p +:+ "](" +:+ url +:+ ")]" +:+ tail) citations
  = "[[" +:+ p +:+ "](" +:+ url +:+ ")]" +:+ injectCitations tail citations.
Proof.
  intros Hp Hurl.
  set (X := "](" +:+ url +:+ ")]" +:+ tail).
  assert (Hnd : noDigitAhead X) by (intros c [= <-]; reflexivity).
  assert (Hcl : closing X = None) by reflexivity.
  pose proof (citationAt_digits "[[" p X (or_intror eq_refl) Hp Hnd) as H2.
  pose proof (citationAt_digits "[" p X (or_introl eq_refl) Hp Hnd) as H1.
  rewrite Hcl in H1, H2.
  change ("[[" +:+ p +:+ X) with (String "[" (String "[" (p +:+ X))) in H2 |- *.
  change ("[" +:+ p +:+ X) with (String "[" (p +:+ X)) in H1.
  rewrite (inject_skip _ _ H2), (inject_skip _ _ H1).
  assert (Heq : p +:+ X = (p +:+ "](" +:+ url +:+ ")]") +:+ tail).
  { subst X. rewrite !str_app_assoc. reflexivity. }
  rewrite Heq, inject_prefix; [rewrite !str_app_assoc; reflexivity|].
  apply bracketFree_app; [apply digitsOnly_bracketFree, Hp|].
  change (bracketFree (String "]" (String "(" (url +:+ ")]")))).
  repeat split; try discriminate.
  apply bracketFree_app; [exact Hurl|]. repeat split; discriminate.
Qed.

End OneList.
Lemma replaceFrom_identity (citations : list string) :
  (forall matched reference,
     replacement citations matched reference = matched) ->
  forall fuel s, replaceFrom fuel citations s = s.
Proof.
  intros Hid. induction fuel as [|fuel IH]; intros s; [reflexivity|].
  simpl. destruct (citationAt s) as [[[reference matched] rest]|] eqn:Hc.
  - apply citationAt_inv in Hc as (_ & _ & _ & _ & _ & _ & ->).
    rewrite Hid, IH. reflexivity.
  - destruct s as [|c rest]; [reflexivity|]. rewrite IH. reflexivity.
Qed.

(** X23 (injectCitations): a text is returned as it is when there are no
    citations to link to, and when it contains no "[". *)
Theorem injectCitations_verbatim :
  (forall content, injectCitations content [] = content) /\
  (forall content citations,
     bracketFree content -> injectCitations content citations = content).
Proof.
  split.
  - intros content. unfold injectCitations. apply replaceFrom_identity.
    intros matched reference. apply replacement_out_of_range.
    simpl. lia.
  - intros content citations Hfree.
    pose proof (inject_prefix citations content "" Hfree) as H.
    rewrite str_app_nil_r in H. rewrite H. apply str_app_nil_r.
Qed.

(** X24 (injectCitations): a reference [n] or [[n]] after text without
    "[".  When n is the position, counted from one, of a citation, the
    reference is replaced by [[n](url)] with that citation's URL, the number
    written without leading zeros; when n is 0 or larger than the number of
    citations, the reference stays as it is written.  In both cases the text
    before it is copied and the text after it is processed in the same way.
    The single form asks that no "]" or "(" follows, the double form that
    no "(" follows. *)
Theorem injectCitations_reference (pre d post : string)
    (citations : list string) :
  bracketFree pre -> allDigits d -> ~ firstIs "(" post ->
  (forall i url,
     parseDecimal 0 d = N.of_nat (S i) -> citations !! i = Some url ->
     let link := "[[" +:+ pretty (N.of_nat (S i)) +:+ "](" +:+ url +:+ ")]" in
     (~ firstIs "]" post ->
      injectCitations (pre +:+ "[" +:+ d +:+ "]" +:+ post) citations
      = pre +:+ link +:+ injectCitations post citations) /\
     injectCitations (pre +:+ "[[" +:+ d +:+ "]]" +:+ post) citations
     = pre +:+ link +:+ injectCitations post citations) /\
  (parseDecimal 0 d = 0%N \/
   (N.of_nat (length citations) < parseDecimal 0 d)%N ->
   (~ firstIs "]" post ->
    injectCitations (pre +:+ "[" +:+ d +:+ "]" +:+ post) citations
    = pre +:+ "[" +:+ d +:+ "]" +:+ injectCitations post citations) /\
   injectCitations (pre +:+ "[[" +:+ d +:+ "]]" +:+ post) citations
   = pre +:+ "[[" +:+ d +:+ "]]" +:+ injectCitations post citations).
Proof.
  intros Hpre Hd Hparen.
  assert (Hnd : forall t, noDigitAhead ("]" +:+ t))
    by (intros t c [= <-]; reflexivity).
  assert (Hp : startsWithParen post = false).
  { rewrite startsWithParen_spec. apply bool_decide_eq_false_2, Hparen. }
  assert (Hsingle : ~ firstIs "]" post ->
    injectCitations (pre +:+ "[" +:+ d +:+ "]" +:+ post) citations
    = pre +:+ replacement citations ("[" +:+ d +:+ "]") d
          +:+ injectCitations post citations).
  { intros Hbr. rewrite (inject_prefix _ _ _ Hpre). f_equal.
    pose proof (citationAt_digits "[" d ("]" +:+ post) (or_introl eq_refl)
                  Hd (Hnd _)) as Hc.
    assert (Hcl : closing ("]" +:+ post) = Some ("]", post)).
    { change ("]" +:+ post) with (String "]" post). rewrite closing_bracket.
      destruct post as [|c post]; [reflexivity|].
      destruct (decide (c = "]"%char)) as [->|_]; [destruct Hbr; reflexivity|].
      rewrite Hp. reflexivity. }
    rewrite Hcl in Hc. apply (inject_match _ _ _ _ _ Hc). }
  assert (Hdouble :
    injectCitations (pre +:+ "[[" +:+ d +:+ "]]" +:+ post) citations
    = pre +:+ replacement citations ("[[" +:+ d +:+ "]]") d
          +:+ injectCitations post citations).
  { rewrite (inject_prefix _ _ _ Hpre). f_equal.
    pose proof (citationAt_digits "[[" d ("]]" +:+ post) (or_intror eq_refl)
                  Hd (Hnd _)) as Hc.
    assert (Hcl : closing ("]]" +:+ post) = Some ("]]", post)).
    { change ("]]" +:+ post) with (String "]" (String "]" post)).
      rewrite closing_bracket.
      destruct (decide ("]"%char = "]"%char)); [|contradiction].
      rewrite Hp. reflexivity. }
    rewrite Hcl in Hc. apply (inject_match _ _ _ _ _ Hc). }
  split.
  - intros i url Hn Hurl link. subst link. split.
    + intros Hbr. rewrite (Hsingle Hbr).
      rewrite (replacement_in_range _ _ _ i url Hn Hurl).
      rewrite !str_app_assoc. reflexivity.
    + rewrite Hdouble, (replacement_in_range _ _ _ i url Hn Hurl).
      rewrite !str_app_assoc. reflexivity.
  - intros Hn. split.
    + intros Hbr. rewrite (Hsingle Hbr), (replacement_out_of_range _ _ _ Hn).
      rewrite !str_app_assoc. reflexivity.
    + rewrite Hdouble, (replacement_out_of_range _ _ _ Hn).
      rewrite !str_app_assoc. reflexivity.
Qed.

Lemma injectCitations_reference_witness :
  (injectCitations "see [02]." ["http://a"; "http://b"]
   = "see [[2](http://b)]." /\
   injectCitations "see [[02]]." ["http://a"; "http://b"]
   = "see [[2](http://b)].") /\
  (injectCitations "see [3]." ["http://a"; "http://b"] = "see [3]." /\
   injectCitations "see [[0]]." ["http://a"; "http://b"] = "see [[0]].").
Proof.
  split; split.
  - destruct (injectCitations_reference "see " "02" "."
                ["http://a"; "http://b"]) as [H _].
    + repeat split; discriminate.
    + split; [discriminate|reflexivity].
    + discriminate.
    + destruct (H 1 "http://b" eq_refl eq_refl) as [H1 _].
      apply H1. discriminate.
  - destruct (injectCitations_reference "see " "02" "."
                ["http://a"; "http://b"]) as [H _].
    + repeat split; discriminate.
    + split; [discriminate|reflexivity].
    + discriminate.
    + destruct (H 1 "http://b" eq_refl eq_refl) as [_ H2]. exact H2.
  - destruct (injectCitations_reference "see " "3" "."
                ["http://a"; "http://b"]) as [_ H].
    + repeat split; discriminate.
    + split; [discriminate|reflexivity].
    + discriminate.
    + destruct H as [H1 _]; [right; reflexivity|].
      apply H1. discriminate.
  - destruct (injectCitations_reference "see " "0" "."
                ["http://a"; "http://b"]) as [_ H].
    + repeat split; discriminate.
    + split; [discriminate|reflexivity].
    + discriminate.
    + destruct H as [_ H2]; [left; reflexivity|]. exact H2.
Defined.

(** X25 (injectCitations): citations that are already formatted are not
    touched: neither a reference directly followed by "(", whatever its
    number, nor a link [[n](url)] as the function writes it, when the URL
    contains no "[". *)
Theorem injectCitations_keeps_formatted (pre d post : string)
    (citations : list string) :
  bracketFree pre -> allDigits d ->
  injectCitations (pre +:+ "[" +:+ d +:+ "](" +:+ post) citations
  = pre +:+ "[" +:+ d +:+ "](" +:+ injectCitations post citations /\
  (forall url,
     bracketFree url ->
     injectCitations
       (pre +:+ "[[" +:+ d +:+ "](" +:+ url +:+ ")]" +:+ post) citations
     = pre +:+ "[[" +:+ d +:+ "](" +:+ url +:+ ")]"
           +:+ injectCitations post citations).
Proof.
  intros Hpre Hd. split.
  - rewrite (inject_prefix _ _ _ Hpre). f_equal.
    assert (Hnd : noDigitAhead ("](" +:+ post))
      by (intros c [= <-]; reflexivity).
    pose proof (citationAt_digits "[" d ("](" +:+ post) (or_introl eq_refl)
                  Hd Hnd) as Hc.
    change (closing ("](" +:+ post)) with (@None (string * string)) in Hc.
    change ("[" +:+ d +:+ "](" +:+ post)
      with (String "[" (d +:+ "](" +:+ post)) in Hc |- *.
    rewrite (inject_skip _ _ _ Hc).
    change (String "[" ?x) with ("[" +:+ x). f_equal.
    rewrite <- (str_app_assoc d "](" post).
    rewrite inject_prefix; [rewrite str_app_assoc; reflexivity|].
    apply bracketFree_app; [apply digitsOnly_bracketFree, Hd|].
    repeat split; discriminate.
  - intros url Hurl. rewrite (inject_prefix _ _ _ Hpre). f_equal.
    apply inject_link; assumption.
Qed.

Lemma injectCitations_keeps_formatted_witness :
  injectCitations "see [1](x)." ["http://a"] = "see [1](x)." /\
  injectCitations "see [[1](http://a)]." ["http://a"]
  = "see [[1](http://a)].".
Proof.
  split.
  - destruct (injectCitations_keeps_formatted "see " "1" "x)." ["http://a"])
      as [H _].
    + repeat split; discriminate.
    + split; [discriminate|reflexivity].
    + exact H.
  - destruct (injectCitations_keeps_formatted "see " "1" "." ["http://a"])
      as [_ H].
    + repeat split; discriminate.
    + split; [discriminate|reflexivity].
    + apply (H "http://a"). repeat split; discriminate.
Defined.

(** X26 (injectCitations): a reference in double brackets directly
    followed by "(" is not left alone: the reference with one closing
    bracket is replaced, and the second closing bracket stays behind the
    link. *)
Theorem injectCitations_double_before_paren (pre d post : string)
    (citations : list string) (i : nat) (url : string) :
  bracketFree pre -> allDigits d ->
  parseDecimal 0 d = N.of_nat (S i) -> citations !! i = Some url ->
  injectCitations (pre +:+ "[[" +:+ d +:+ "]](" +:+ post) citations
  = pre +:+ "[[" +:+ pretty (N.of_nat (S i)) +:+ "](" +:+ url +:+ ")]"
        +:+ "](" +:+ injectCitations post citations.
Proof.
  intros Hpre Hd Hn Hurl. rewrite (inject_prefix _ _ _ Hpre). f_equal.
  assert (Hnd : noDigitAhead ("]](" +:+ post))
    by (intros c [= <-]; reflexivity).
  pose proof (citationAt_digits "[[" d ("]](" +:+ post) (or_intror eq_refl)
                Hd Hnd) as Hc.
  change (closing ("]](" +:+ post)) with (Some ("]", "](" +:+ post)) in Hc.
  rewrite (inject_match _ _ _ _ _ Hc).
  rewrite (replacement_in_range _ _ _ i url Hn Hurl).
  rewrite (inject_prefix citations "](" post) by (repeat split; discriminate).
  rewrite !str_app_assoc. reflexivity.
Qed.

Lemma injectCitations_double_before_paren_witness :
  injectCitations "see [[1]](x)" ["http://a"] = "see [[1](http://a)]](x)".
Proof.
  apply (injectCitations_double_before_paren "see " "1" "x)" ["http://a"]
           0 "http://a").
  - repeat split; discriminate.
  - split; [discriminate|reflexivity].
  - reflexivity.
  - reflexivity.
Defined.

(** X27 (injectCitations): when no citation URL contains a "[", running
    the function on its own output changes nothing. *)
Theorem injectCitations_idempotent (citations : list string)
    (content : string) :
  Forall bracketFree citations ->
  injectCitations (injectCitations content citations) citations
  = injectCitations content citations.
Proof.
  intros Hurls.
  remember (String.length content) as n eqn:Hn. revert content Hn.
  induction (lt_wf n) as [n _ IH]. intros s ->.
  destruct (citationAt s) as [[[r m] rest]|] eqn:Hc.
  - rewrite (inject_match _ _ _ _ _ Hc).
    pose proof (citationAt_shorter _ _ _ _ Hc) as Hlen.
    pose proof (IH _ Hlen rest eq_refl) as IHrest.
    pose proof (citationAt_inv _ _ _ _ Hc)
      as (opens & closes & Ho & Hcl & Hd & Hm & Hs).
    destruct (replacement_cases citations m r)
      as [Hrep | (i & url & Hurl & Hrep)]; rewrite Hrep.
    + assert (Hagain : citationAt (m +:+ injectCitations rest citations)
                       = Some (r, m, injectCitations rest citations)).
      { rewrite Hs in Hc. subst m. rewrite !str_app_assoc in Hc |- *.
        rewrite <- (inject_prefix citations closes rest)
          by (destruct Hcl as [-> | ->]; repeat split; discriminate).
        rewrite citationAt_digits_inject; auto.
        - rewrite Hc. reflexivity.
        - destruct Hcl as [-> | ->]; intros c [= <-]; reflexivity. }
      rewrite (inject_match _ _ _ _ _ Hagain), Hrep, IHrest. reflexivity.
    + rewrite !str_app_assoc.
      rewrite inject_link;
        [rewrite IHrest; reflexivity|apply allDigits_pretty|].
      exact (Forall_lookup_1 _ _ _ _ Hurls Hurl).
  - destruct s as [|c t]; [reflexivity|].
    rewrite (inject_skip _ _ _ Hc).
    rewrite (inject_skip _ _ _ (citationAt_None_inject _ _ _ Hc)).
    f_equal. apply (IH (String.length t)); [simpl; lia|reflexivity].
Qed.

Lemma injectCitations_idempotent_witness :
  injectCitations "a [1], [[2]](x) and [3]" ["http://a"; "http://b"]
  = "a [[1](http://a)], [[2](http://b)]](x) and [3]" /\
  injectCitations "a [[1](http://a)], [[2](http://b)]](x) and [3]"
    ["http://a"; "http://b"]
  = "a [[1](http://a)], [[2](http://b)]](x) and [3]".
Proof.
  split; [reflexivity|].
  apply (injectCitations_idempotent ["http://a"; "http://b"]
           "a [1], [[2]](x) and [3]").
  repeat constructor; discriminate.
Defined.

End CitationProperties.

(** ** Streamed responses ([PerplexityProvider.processStreamChunks]) *)

Section StreamProperties.
Import PerplexityChat.
Variable env : Env.

Lemma text_app_assoc (a b c : string) : (a +:+ b) +:+ c = a +:+ (b +:+ c).
Proof.
  induction a as [|x a IH]; [reflexivity|].
  change (String x ((a +:+ b) +:+ c) = String x (a +:+ b +:+ c)).
  f_equal. exact IH.
Qed.

Lemma text_app_nil_r (a : string) : a +:+ "" = a.
Proof.
  induction a as [|x a IH]; [reflexivity|].
  change (String x (a +:+ "") = String x a). f_equal. exact IH.
Qed.

Lemma split_lineFeeds (n : nat) : split (lineFeeds n) = replicate (S n) "".
Proof.
  induction n as [|n IH]; [reflexivity|].
  cbn [lineFeeds split]. change (code (ascii_of_nat 10) =? 10)%nat with true.
  cbv iota. rewrite IH. reflexivity.
Qed.

(** [split] on a line followed by line feeds: the line, and an empty text
    for every line feed. *)
Lemma split_terminated (s : string) (n : nat) :
  lineFeedFree s -> split (s +:+ lineFeeds n) = s :: replicate n "".
Proof.
  induction s as [|c s IH].
  - intros _. apply (split_lineFeeds n).
  - intros [Hc Hs]. change (String c s +:+ lineFeeds n)
      with (String c (s +:+ lineFeeds n)).
    cbn [split].
    destruct (code c =? 10)%nat eqn:Hc10;
      [apply Nat.eqb_eq in Hc10; contradiction|].
    rewrite (IH Hs). reflexivity.
Qed.

(** An empty line changes nothing when the buffer is empty or does not
    parse. *)
Lemma onLine_blank (p : Pass) :
  tryToParseDeltaContent env "" = None ->
  buffer p = "" \/ tryToParseDeltaContent env (buffer p) = None ->
  onLine env p "" = p.
Proof.
  intros Hblank Hbuf. unfold onLine. rewrite Hblank. cbv zeta.
  rewrite text_app_nil_r. destruct p as [b d l]. cbn [buffer] in *.
  case_bool_decide as Hlen; [reflexivity|].
  destruct Hbuf as [-> | ->]; [contradiction|reflexivity].
Qed.

Lemma onLine_blanks (n : nat) (p : Pass) :
  tryToParseDeltaContent env "" = None ->
  buffer p = "" \/ tryToParseDeltaContent env (buffer p) = None ->
  foldl (onLine env) p (replicate n "") = p.
Proof.
  intros Hblank Hbuf. induction n as [|n IH]; [reflexivity|].
  cbn [replicate foldl]. rewrite (onLine_blank p Hblank Hbuf). exact IH.
Qed.

(** A read that is one line and line feeds is one run of the loop body. *)
Lemma onRead_terminated (buf : string) (read : string * nat) :
  tryToParseDeltaContent env "" = None ->
  oneLine read.1 ->
  let p := onLine env {| buffer := buf; deltaContent := "";
                         lastResponse := None |} read.1 in
  buffer p = "" \/ tryToParseDeltaContent env (buffer p) = None ->
  onRead env buf (terminated read)
  = (match lastResponse p with
     | Some r => Perplexity.injectCitations (deltaContent p) (citations r)
     | None => deltaContent p
     end, buffer p).
Proof.
  intros Hblank [Hfree Hcr] p Hbuf. unfold onRead, terminated.
  rewrite (split_terminated _ _ Hfree).
  rewrite filter_cons_True by exact Hcr.
  assert (Hkeep : filter (fun s => s <> carriageReturn) (replicate read.2 "")
                  = replicate read.2 "").
  { induction read.2 as [|n IH]; [reflexivity|].
    cbn [replicate]. rewrite filter_cons_True by discriminate.
    rewrite IH. reflexivity. }
  rewrite Hkeep. cbn [foldl]. fold p.
  rewrite (onLine_blanks _ p Hblank Hbuf). reflexivity.
Qed.

Lemma onReads_app (buf : string) (xs ys : list string) :
  onReads env buf (xs ++ ys)
  = ((onReads env buf xs).1 ++ (onReads env (onReads env buf xs).2 ys).1,
     (onReads env (onReads env buf xs).2 ys).2).
Proof.
  revert buf. induction xs as [|x xs IH]; intros buf.
  - simpl. destruct (onReads env buf ys). reflexivity.
  - rewrite <- app_comm_cons. cbn [onReads].
    destruct (onRead env buf x) as [res buf1]. rewrite (IH buf1).
    destruct (onReads env buf1 xs) as [more buf2]. cbn [fst snd].
    destruct (onReads env buf2 ys). reflexivity.
Qed.

Lemma prefixText_cons (k : nat) (p : string) (ps : list string) :
  prefixText (S k) (p :: ps) = p +:+ prefixText k ps.
Proof. reflexivity. Qed.

(** Pieces that neither parse alone nor complete the text held in the
    buffer pile up in the buffer, and each read yields the empty text. *)
Lemma onReads_pending (pieces : list (string * nat)) (buf : string) :
  tryToParseDeltaContent env "" = None ->
  Forall oneLine pieces.*1 ->
  Forall (fun p => tryToParseDeltaContent env p = None) pieces.*1 ->
  (forall k, 1 <= k <= length pieces ->
     tryToParseDeltaContent env (buf +:+ prefixText k pieces.*1) = None) ->
  onReads env buf (terminated <$> pieces)
  = (replicate (length pieces) "",
     buf +:+ prefixText (length pieces) pieces.*1).
Proof.
  intros Hblank. revert buf.
  induction pieces as [|[p n] ps IH]; intros buf Hone Hnone Hjoin.
  - simpl. rewrite text_app_nil_r. reflexivity.
  - rewrite fmap_cons in Hone, Hnone, Hjoin |- *.
    cbn [fst] in Hone, Hnone, Hjoin.
    apply Forall_cons in Hone as [Hp Hps].
    apply Forall_cons in Hnone as [Hnp Hnps].
    pose proof (Hjoin 1 ltac:(simpl; lia)) as H1.
    change (prefixText 1 (p :: ps.*1)) with (p +:+ "") in H1.
    rewrite text_app_nil_r in H1.
    assert (Hline : onLine env {| buffer := buf; deltaContent := "";
                                  lastResponse := None |} p
                    = {| buffer := buf +:+ p; deltaContent := "";
                         lastResponse := None |}).
    { unfold onLine. rewrite Hnp. cbn [buffer deltaContent lastResponse].
      case_bool_decide; [reflexivity|]. rewrite H1. reflexivity. }
    assert (Hstep : onRead env buf (terminated (p, n)) = ("", buf +:+ p)).
    { rewrite (onRead_terminated buf (p, n) Hblank Hp); cbn [fst];
        rewrite Hline; cbn [buffer]; [reflexivity|right; exact H1]. }
    rewrite fmap_cons. cbn [onReads]. rewrite Hstep.
    rewrite (IH (buf +:+ p) Hps Hnps).
    + cbn [length replicate]. rewrite prefixText_cons, text_app_assoc.
      reflexivity.
    + intros k Hk. rewrite text_app_assoc, <- prefixText_cons.
      apply Hjoin. simpl. lia.
Qed.

(** X28 (processStreamChunks): a payload that arrives cut into several
    reads is put together again.  When the provider's buffer is empty, no
    piece parses on its own and no shorter run of the pieces does either,
    every read but the last yields the empty text, the last read yields the
    content of the whole payload with its citations linked, and the buffer
    is empty again.  Every read may end in line feeds. *)
Theorem split_payload_is_reassembled (pieces : list (string * nat))
    (last : string) (feeds : nat) (r : PerplexityResponse) (text : string)
    (model : string) (t : Telemetry) :
  tryToParseDeltaContent env "" = None ->
  Forall oneLine (pieces.*1 ++ [last]) ->
  Forall (fun p => tryToParseDeltaContent env p = None) (pieces.*1 ++ [last]) ->
  (forall k, 1 <= k <= length pieces ->
     tryToParseDeltaContent env (prefixText k pieces.*1) = None) ->
  tryToParseDeltaContent env (prefixText (length pieces) pieces.*1 +:+ last)
  = Some (r, text) ->
  processStreamChunks env
    {| reads := (terminated <$> pieces) ++ [terminated (last, feeds)];
       failure := None |}
    model "" t
  = ({| yielded := replicate (length pieces) ""
                   ++ [Perplexity.injectCitations text (citations r)];
        thrown := None; bufferAfter := "" |}, t).
Proof.
  intros Hblank Hone Hnone Hshort Hwhole.
  apply Forall_app in Hone as [Hone Hlast1].
  apply Forall_app in Hnone as [Hnone Hlast2].
  apply Forall_inv in Hlast1, Hlast2. cbv beta in Hlast2.
  unfold processStreamChunks. cbn [reads failure].
  rewrite onReads_app, (onReads_pending pieces "" Hblank Hone Hnone Hshort).
  cbn [fst snd onReads]. change ("" +:+ ?x) with x.
  set (held := prefixText (length pieces) pieces.*1) in *.
  assert (Hheld : String.length held <> 0).
  { destruct held; [|discriminate].
    change ("" +:+ last) with last in Hwhole. exfalso. congruence. }
  assert (Hline : onLine env {| buffer := held; deltaContent := "";
                                lastResponse := None |} last
                  = {| buffer := ""; deltaContent := text;
                       lastResponse := Some r |}).
  { unfold onLine. rewrite Hlast2. cbn [buffer deltaContent lastResponse].
    rewrite bool_decide_eq_false_2 by exact Hheld.
    rewrite Hwhole. reflexivity. }
  rewrite (onRead_terminated held (last, feeds) Hblank Hlast1); cbn [fst];
    rewrite Hline; cbn [buffer]; [reflexivity|left; reflexivity].
Qed.

(** X29 (processStreamChunks): text that did not parse is never dropped
    from the buffer.  After a line that is not a payload and that no
    continuation turns into one, every later read that has no complete
    payload of its own yields the empty text: the pieces of a split payload
    are appended to the stale text and are not put together. *)
Theorem stale_line_blocks_reassembly (noise : string * nat)
    (pieces : list (string * nat)) (model : string) (t : Telemetry) :
  tryToParseDeltaContent env "" = None ->
  oneLine noise.1 ->
  (forall rest, tryToParseDeltaContent env (noise.1 +:+ rest) = None) ->
  Forall oneLine pieces.*1 ->
  Forall (fun p => tryToParseDeltaContent env p = None) pieces.*1 ->
  processStreamChunks env
    {| reads := terminated <$> (noise :: pieces); failure := None |}
    model "" t
  = ({| yielded := replicate (S (length pieces)) ""; thrown := None;
        bufferAfter := noise.1 +:+ prefixText (length pieces) pieces.*1 |},
     t).
Proof.
  intros Hblank Hnoise Hdead Hone Hnone.
  unfold processStreamChunks. cbn [reads failure].
  rewrite (onReads_pending (noise :: pieces) "" Hblank).
  - reflexivity.
  - rewrite fmap_cons. constructor; assumption.
  - rewrite fmap_cons. constructor; [|assumption].
    rewrite <- (text_app_nil_r noise.1). apply Hdead.
  - intros k Hk. destruct k as [|k]; [lia|].
    rewrite fmap_cons, prefixText_cons. apply Hdead.
Qed.

End StreamProperties.

Lemma split_payload_is_reassembled_witness :
  PerplexityChat.processStreamChunks PerplexitySamples.onlyPayload
    {| PerplexityChat.reads :=
         [PerplexitySamples.firstPiece; PerplexitySamples.secondPiece;
          PerplexitySamples.lastPiece
          +:+ PerplexityChat.lineFeeds 2];
       PerplexityChat.failure := None |}
    PerplexityChat.defaultModel "" PerplexitySamples.noTelemetry
  = ({| PerplexityChat.yielded := [""; ""; "Rust [[1](http://a)]"];
        PerplexityChat.thrown := None;
        PerplexityChat.bufferAfter := "" |}, PerplexitySamples.noTelemetry).
Proof.
  refine (split_payload_is_reassembled PerplexitySamples.onlyPayload
            [(PerplexitySamples.firstPiece, 0);
             (PerplexitySamples.secondPiece, 0)]
            PerplexitySamples.lastPiece 2 PerplexitySamples.parsedPayload
            "Rust [1]" PerplexityChat.defaultModel
            PerplexitySamples.noTelemetry _ _ _ _ _).
  - reflexivity.
  - repeat constructor; vm_compute; intuition (discriminate || lia).
  - repeat constructor.
  - intros k Hk. simpl in Hk.
    assert (k = 1 \/ k = 2) as [-> | ->] by lia; reflexivity.
  - reflexivity.
Defined.

Lemma stale_line_blocks_reassembly_witness :
  PerplexityChat.processStreamChunks PerplexitySamples.onlyPayload
    {| PerplexityChat.reads :=
         [": ping" +:+ PerplexityChat.lineFeeds 2;
          PerplexitySamples.firstPiece; PerplexitySamples.secondPiece;
          PerplexitySamples.lastPiece +:+ PerplexityChat.lineFeeds 2];
       PerplexityChat.failure := None |}
    PerplexityChat.defaultModel "" PerplexitySamples.noTelemetry
  = ({| PerplexityChat.yielded := [""; ""; ""; ""];
        PerplexityChat.thrown := None;
        PerplexityChat.bufferAfter :=
          ": ping" +:+ "data: " +:+ PerplexitySamples.payload |},
     PerplexitySamples.noTelemetry).
Proof.
  refine (stale_line_blocks_reassembly PerplexitySamples.onlyPayload
            (": ping", 2)
            [(PerplexitySamples.firstPiece, 0);
             (PerplexitySamples.secondPiece, 0);
             (PerplexitySamples.lastPiece, 2)]
            PerplexityChat.defaultModel PerplexitySamples.noTelemetry
            _ _ _ _ _).
  - reflexivity.
  - vm_compute. intuition (discriminate || lia).
  - intros rest. unfold PerplexityChat.tryToParseDeltaContent.
    change (PerplexityChat.afterStartToken ((": ping", 2).1 +:+ rest))
      with (@None string).
    unfold PerplexityChat.strictParseJSON. cbn [PerplexityChat.JSON_parse
      PerplexitySamples.onlyPayload].
    rewrite bool_decide_eq_false_2 by discriminate. reflexivity.
  - repeat constructor; vm_compute; intuition (discriminate || lia).
  - repeat constructor.
Defined.

(** ** Requests ([PerplexityProvider.generateText]) *)

Section ChatProperties.
Import PerplexityChat.

Lemma handleError_message (e : Thrown) :
  exists m, m <> "" /\
    handleError e = CopilotProviderSideError Perplexity "unexpected_response" m.
Proof.
  unfold handleError. destruct (messageOf e) as [m|].
  - case_bool_decide as Hm.
    + eexists. split; [|reflexivity]. discriminate.
    + exists m. split; [exact Hm|reflexivity].
  - eexists. split; [|reflexivity]. discriminate.
Qed.

(** X30 (generateText): a model that is not offered is refused with
    CopilotPromptInvalid before anything is counted or sent.  For a model
    that is offered one call is counted and one request is sent, and the
    result is either a text or, whatever went wrong, a
    CopilotProviderSideError of kind unexpected_response with a non-empty
    message, after one error has been counted. *)
Theorem generateText_outcomes (env : Env) (prompt : list PromptMessage)
    (modelArg : option string) (options : CopilotChatOptions)
    (t : Telemetry) :
  let model := default defaultModel modelArg in
  let run := generateText env prompt modelArg options t in
  if isModelAvailable model
  then
    requests run.2
    = requests t ++ [{| authorization := apiKey env; model := model;
                        messages := sMessages prompt;
                        max_tokens := maxTokensOr4096 options;
                        stream := false |}] /\
    ((exists text,
        run.1 = Ok text /\
        counters run.2 = counters t ++ [("chat_text_calls", model)]) \/
     (exists m,
        m <> "" /\
        run.1 = Err (CopilotProviderSideError Perplexity
                       "unexpected_response" m) /\
        counters run.2
        = counters t ++ [("chat_text_calls", model);
                         ("chat_text_errors", model)]))
  else
    run = (Err (CopilotPromptInvalid ("Invalid model: " +:+ model)), t).
Proof.
  intros model run. subst run. unfold generateText, checkParams.
  fold model. destruct (isModelAvailable model); [|reflexivity].
  cbv zeta.
  match goal with
  | |- context [match ?a with Ok _ => _ | Err _ => _ end] =>
      destruct a as [text|e] eqn:Hattempt
  end.
  - split; [reflexivity|]. left. exists text. split; reflexivity.
  - split; [reflexivity|]. right.
    destruct (handleError_message e) as (m & Hm & ->).
    exists m. split; [exact Hm|]. split; [reflexivity|].
    cbn [snd count counters logRequest]. rewrite <- app_assoc. reflexivity.
Qed.

End ChatProperties.
